(** * ChikitsalyaPrabandhan: billing, bed allocation, admission and slot logic

    A shallow embedding of the request handlers and model hooks of the
    hospital back end (Express controllers over Mongoose models), and the
    properties of the specification that concern them.

    Conventions of the embedding.
    - A JavaScript [Number] holding an amount of money, a quantity or a
      percentage is an exact rational ([Qc]); rounding is not modelled.
    - A MongoDB collection is a finite map from document ids to documents.
      The [ObjectId] of a new document is an input of the operation that
      creates it; inserting under an id already present is a duplicate key
      error, as in the database.
    - A handler is a function from the store to either the new store or the
      failure it answers with: the request served with no other request
      between its round trips to the store.  Each failure constructor stands
      for one [res.status(..).json({ success: false, message })] of the
      source.
    - The handlers of the bed and IPD controllers and [createAppointment]
      are also given round trip by round trip, one step per [await]
      ([InFlight]), for what holds of requests served one at a time and
      fails of requests that overlap.
    - The clock ([Date.now], [new Date()]) is an input. *)

From Stdlib Require Import Ascii QArith Qcanon.
From stdpp Require Import base numbers strings list gmap pretty sorting.

Abbreviation Id := nat.

(** ** Failures and results *)

Module Common.

(** One constructor per failing answer of the handlers. *)
Inductive Failure : Type :=
| PatientNotFound            (* 404 'Patient not found' *)
| DoctorNotFound             (* 404 'Doctor not found' *)
| BillNotFound               (* 404 'Bill not found' *)
| BedNotFound                (* 404 'Bed not found' *)
| IPDRecordNotFound          (* 404 'IPD record not found' *)
| AppointmentNotFound        (* 404 'Appointment not found' *)
| CannotUpdatePaidBill       (* 400 'Cannot update a fully paid bill' *)
| CannotDeleteBillWithPayments (* 400 'Cannot delete a bill with payments' *)
| BillAlreadyPaid            (* 400 'Bill is already fully paid' *)
| AmountExceedsBalance (maxPayable : Qc)
                             (* 400 'Amount exceeds balance. Maximum payable: ..' *)
| BedNotAvailable            (* 400 'Bed is not available' *)
| PatientAlreadyAdmitted     (* 400 'Patient is already admitted' *)
| NotCurrentlyAdmitted       (* 400 'Patient is not currently admitted' *)
| NewBedNotAvailable         (* 400 'New bed is not available' *)
| CannotDeleteOccupiedBed    (* 400 'Cannot delete an occupied bed' *)
| CannotMaintainOccupiedBed  (* 400 'Cannot mark occupied bed for maintenance' *)
| SlotAlreadyBooked          (* 400 'This time slot is already booked' *)
| DateMissing                (* 400 'Please provide a date' *)
| ValidationFailed           (* thrown: a schema validator rejected the document *)
| DuplicateKey.              (* thrown: a unique index rejected the document *)

Inductive ErrorKind : Type :=
| NotFound | Conflict | InvalidState | OutOfRange | ValidationError.

(** The error kinds of section 7 of the specification.  The source answers
    every guard failure with status 400 and a message; [kind] files each
    message under the kind the specification names for it. *)
Definition kind (f : Failure) : ErrorKind :=
  match f with
  | PatientNotFound | DoctorNotFound | BillNotFound | BedNotFound
  | IPDRecordNotFound | AppointmentNotFound => NotFound
  | BillAlreadyPaid | NotCurrentlyAdmitted => InvalidState
  | AmountExceedsBalance _ => OutOfRange
  | ValidationFailed | DateMissing => ValidationError
  | CannotUpdatePaidBill | CannotDeleteBillWithPayments | BedNotAvailable
  | PatientAlreadyAdmitted | NewBedNotAvailable | CannotDeleteOccupiedBed
  | CannotMaintainOccupiedBed | SlotAlreadyBooked | DuplicateKey => Conflict
  end.

Inductive Result (A : Type) : Type :=
| Ok (a : A)
| Err (f : Failure).
Global Arguments Ok {A} a.
Global Arguments Err {A} f.

Definition isOk {A} (r : Result A) : bool :=
  match r with Ok _ => true | Err _ => false end.

(** [String.prototype.padStart(n, c)] for a one-character pad. *)
Fixpoint padding (k : nat) (c : Ascii.ascii) : string :=
  match k with
  | O => EmptyString
  | S k' => String c (padding k' c)
  end.

Definition padStart (n : nat) (c : Ascii.ascii) (s : string) : string :=
  padding (n - String.length s) c +:+ s.

(** A JavaScript string is falsy when empty. *)
Definition nonEmpty (s : string) : bool := negb (bool_decide (s = EmptyString)).

End Common.
Export Common.

(** ** Billing: the invoice model and its controller *)

Module Billing.
Local Open Scope Qc_scope.

Inductive PaymentStatus : Type := PENDING | PARTIAL | PAID | REFUNDED.

Global Instance PaymentStatus_eq_dec : EqDecision PaymentStatus.
Proof. solve_decision. Defined.

Inductive Category : Type :=
| Consultation | LabTest | Medicine | RoomCharge | Surgery | Procedure | OtherCategory.

Inductive Method : Type :=
| Cash | Card | UPI | Insurance | BankTransfer | OtherMethod.

Definition hundred : Qc := Qc_of_Z 100.

(** An element of [services]. *)
Record Service : Type := {
  description : string;
  category : option Category;
  quantity : Qc;
  unitPrice : Qc;
  discount : Qc;
  total : Qc
}.

(** An element of [payments]. *)
Record Payment : Type := {
  amount : Qc;
  method : Method;
  transactionId : option string;
  date : Z;
  receivedBy : Id;
  notes : option string
}.

(** A [Billing] document.  [tax] and [discount] are nested objects in the
    schema; their fields are flattened here.  [insuranceClaim] and the
    timestamps are never read or written by the handlers and are left out. *)
Record Bill : Type := {
  invoiceId : option string;
  patientId : Id;
  appointmentId : option Id;
  ipdRecordId : option Id;
  invoiceDate : Z;
  dueDate : option Z;
  services : list Service;
  subtotal : Qc;
  tax_percentage : Qc;
  tax_amount : Qc;
  discount_percentage : Qc;
  discount_amount : Qc;
  discount_reason : option string;
  totalAmount : Qc;
  paidAmount : Qc;
  balanceAmount : Qc;
  paymentStatus : PaymentStatus;
  payments : list Payment;
  bill_notes : option string;
  createdBy : option Id
}.

(** What the hook and the handlers read from outside the store. *)
Record Env : Type := {
  now : Z;            (* Date.now() *)
  year2 : string;     (* date.getFullYear().toString().slice(-2) *)
  month : nat         (* date.getMonth() + 1 *)
}.

Record State : Type := {
  patients : gset nat;
  bills : gmap nat Bill
}.

(** *** The [pre('save')] hook of the model *)

Definition generateInvoiceId (env : Env) (count : nat) : string :=
  "INV" +:+ year2 env +:+ padStart 2 "0"%char (pretty (month env))
        +:+ padStart 5 "0"%char (pretty (count + 1)%nat).

Definition setTotal (s : Service) : Service :=
  {| description := description s; category := category s;
     quantity := quantity s; unitPrice := unitPrice s; discount := discount s;
     total := unitPrice s * quantity s - discount s |}.

Definition sumTotals (l : list Service) : Qc :=
  fold_left (λ sum service, sum + total service) l 0.

Definition preSave (env : Env) (count : nat) (b : Bill) : Bill :=
  let invoiceId' :=
    match invoiceId b with
    | Some i => if nonEmpty i then Some i else Some (generateInvoiceId env count)
    | None => Some (generateInvoiceId env count)
    end in
  let services' := map setTotal (services b) in
  let subtotal' := sumTotals services' in
  let taxAmount' := subtotal' * tax_percentage b / hundred in
  let discountAmount' :=
    if bool_decide (0 < discount_percentage b)
    then subtotal' * discount_percentage b / hundred
    else discount_amount b in
  let totalAmount' := subtotal' + taxAmount' - discountAmount' in
  let balanceAmount' := totalAmount' - paidAmount b in
  let paymentStatus' :=
    if bool_decide (totalAmount' ≤ paidAmount b) then PAID
    else if bool_decide (0 < paidAmount b) then PARTIAL
    else paymentStatus b in
  {| invoiceId := invoiceId';
     patientId := patientId b;
     appointmentId := appointmentId b;
     ipdRecordId := ipdRecordId b;
     invoiceDate := invoiceDate b;
     dueDate := dueDate b;
     services := services';
     subtotal := subtotal';
     tax_percentage := tax_percentage b;
     tax_amount := taxAmount';
     discount_percentage := discount_percentage b;
     discount_amount := discountAmount';
     discount_reason := discount_reason b;
     totalAmount := totalAmount';
     paidAmount := paidAmount b;
     balanceAmount := balanceAmount';
     paymentStatus := paymentStatus';
     payments := payments b;
     bill_notes := bill_notes b;
     createdBy := createdBy b |}.

(** *** Schema validators *)

Definition validService (s : Service) : bool :=
  nonEmpty (description s)
  && bool_decide (1 ≤ quantity s)
  && bool_decide (0 ≤ unitPrice s)
  && bool_decide (0 ≤ discount s)
  && bool_decide (0 ≤ total s).

(** Validation of a new document: every [required] and [min] of the schema. *)
Definition validBill (b : Bill) : bool :=
  forallb validService (services b)
  && bool_decide (0 ≤ subtotal b)
  && bool_decide (0 ≤ totalAmount b)
  && bool_decide (0 ≤ paidAmount b).

Definition invoiceIdTaken (i : option string) (m : gmap nat Bill) : bool :=
  bool_decide (map_Exists (λ _ b, invoiceId b = i) m).

(** [Billing.create(doc)]: validation runs first, then the hook, then the
    insert, which the unique indexes on [_id] and [invoiceId] can reject. *)
Definition create (env : Env) (newId : Id) (doc : Bill) (st : State) : Result State :=
  if negb (validBill doc) then Err ValidationFailed
  else
    let doc' := preSave env (size (bills st)) doc in
    if bool_decide (is_Some (bills st !! newId)) || invoiceIdTaken (invoiceId doc') (bills st)
    then Err DuplicateKey
    else Ok {| patients := patients st; bills := <[newId := doc']> (bills st) |}.

(** [bill.save()] on a loaded document: the validators of the schema run on
    the document as the handler left it, then the hook, then the write. *)
Definition save (env : Env) (id : Id) (doc : Bill) (st : State) : Result State :=
  if negb (validBill doc) then Err ValidationFailed
  else Ok {| patients := patients st;
             bills := <[id := preSave env (size (bills st)) doc]> (bills st) |}.

(** *** The controller *)

(** [x || d] on an optional number: [undefined] and [0] are falsy. *)
Definition orElse (x : option Qc) (d : Qc) : Qc :=
  match x with
  | Some v => if bool_decide (v = 0) then d else v
  | None => d
  end.

Definition truthy (x : option Qc) : bool :=
  match x with
  | Some v => negb (bool_decide (v = 0))
  | None => false
  end.

(** A schema default fills a path that is [undefined]. *)
Definition withDefault (x : option Qc) (d : Qc) : Qc := default d x.

(** An element of [req.body.services]. *)
Record ServiceInput : Type := {
  si_description : string;
  si_category : option Category;
  si_quantity : option Qc;
  si_unitPrice : Qc;
  si_discount : option Qc
}.

(** The body of [POST /api/billing]; [tax?.percentage], [discount?.percentage]
    and [discount?.amount] are the three optional numbers. *)
Record CreateRequest : Type := {
  cr_patientId : Id;
  cr_services : list ServiceInput;
  cr_tax_percentage : option Qc;
  cr_discount_percentage : option Qc;
  cr_discount_amount : option Qc;
  cr_discount_reason : option string;
  cr_appointmentId : option Id;
  cr_ipdRecordId : option Id;
  cr_notes : option string;
  cr_dueDate : option Z
}.

(** [{ ...service, total }] once the schema defaults are applied. *)
Definition processService (service : ServiceInput) : Service :=
  {| description := si_description service;
     category := si_category service;
     quantity := withDefault (si_quantity service) 1;
     unitPrice := si_unitPrice service;
     discount := withDefault (si_discount service) 0;
     total := si_unitPrice service * orElse (si_quantity service) 1
              - orElse (si_discount service) 0 |}.

Definition createBill (env : Env) (newId user : Id) (req : CreateRequest)
    (st : State) : Result State :=
  if negb (bool_decide (cr_patientId req ∈ patients st)) then Err PatientNotFound
  else
    let processedServices := map processService (cr_services req) in
    let subtotal := sumTotals processedServices in
    let taxAmount :=
      if truthy (cr_tax_percentage req)
      then subtotal * withDefault (cr_tax_percentage req) 0 / hundred else 0 in
    let discountAmount :=
      if truthy (cr_discount_percentage req)
      then subtotal * withDefault (cr_discount_percentage req) 0 / hundred
      else orElse (cr_discount_amount req) 0 in
    let totalAmount := subtotal + taxAmount - discountAmount in
    create env newId
      {| invoiceId := None;
         patientId := cr_patientId req;
         appointmentId := cr_appointmentId req;
         ipdRecordId := cr_ipdRecordId req;
         invoiceDate := now env;
         dueDate := cr_dueDate req;
         services := processedServices;
         subtotal := subtotal;
         tax_percentage := orElse (cr_tax_percentage req) 0;
         tax_amount := taxAmount;
         discount_percentage := orElse (cr_discount_percentage req) 0;
         discount_amount := discountAmount;
         discount_reason := cr_discount_reason req;
         totalAmount := totalAmount;
         paidAmount := 0;
         balanceAmount := totalAmount;
         paymentStatus := PENDING;
         payments := [];
         bill_notes := cr_notes req;
         createdBy := Some user |} st.

(** The body of [PUT /api/billing/:id] is handed to [findByIdAndUpdate] as
    it comes: the derived paths may be set like the others.  [None] is a
    path the body leaves out.  The paths of [tax] and [discount] are those a
    body names with dotted keys ([tax.percentage]); a body that names
    [payments], [invoiceId] or another path that is not listed here, or
    that gives [tax] or [discount] as a whole object, is not one of these
    bodies. *)
Record UpdateBody : Type := {
  u_services : option (list Service);
  u_tax_percentage : option Qc;
  u_discount_percentage : option Qc;
  u_discount_amount : option Qc;
  u_discount_reason : option string;
  u_dueDate : option Z;
  u_notes : option string;
  u_subtotal : option Qc;
  u_tax_amount : option Qc;
  u_totalAmount : option Qc;
  u_paidAmount : option Qc;
  u_balanceAmount : option Qc;
  u_paymentStatus : option PaymentStatus
}.

Definition optValid {A} (P : A → bool) (x : option A) : bool :=
  match x with Some a => P a | None => true end.

Definition nonNegative (q : Qc) : bool := bool_decide (0 ≤ q).

(** [runValidators: true]: the validators of the paths the body sets. *)
Definition validUpdate (u : UpdateBody) : bool :=
  optValid (forallb validService) (u_services u)
  && optValid nonNegative (u_subtotal u)
  && optValid nonNegative (u_totalAmount u)
  && optValid nonNegative (u_paidAmount u).

(** [findByIdAndUpdate] writes the paths of the body and nothing else: no
    [save], hence no hook. *)
Definition applyUpdate (u : UpdateBody) (b : Bill) : Bill :=
  {| invoiceId := invoiceId b;
     patientId := patientId b;
     appointmentId := appointmentId b;
     ipdRecordId := ipdRecordId b;
     invoiceDate := invoiceDate b;
     dueDate := match u_dueDate u with Some d => Some d | None => dueDate b end;
     services := default (services b) (u_services u);
     subtotal := default (subtotal b) (u_subtotal u);
     tax_percentage := default (tax_percentage b) (u_tax_percentage u);
     tax_amount := default (tax_amount b) (u_tax_amount u);
     discount_percentage := default (discount_percentage b) (u_discount_percentage u);
     discount_amount := default (discount_amount b) (u_discount_amount u);
     discount_reason :=
       match u_discount_reason u with Some r => Some r | None => discount_reason b end;
     totalAmount := default (totalAmount b) (u_totalAmount u);
     paidAmount := default (paidAmount b) (u_paidAmount u);
     balanceAmount := default (balanceAmount b) (u_balanceAmount u);
     paymentStatus := default (paymentStatus b) (u_paymentStatus u);
     payments := payments b;
     bill_notes := match u_notes u with Some n => Some n | None => bill_notes b end;
     createdBy := createdBy b |}.

Definition updateBill (id : Id) (body : UpdateBody) (st : State) : Result State :=
  match bills st !! id with
  | None => Err BillNotFound
  | Some bill =>
    if bool_decide (paymentStatus bill = PAID) then Err CannotUpdatePaidBill
    else if negb (validUpdate body) then Err ValidationFailed
    else Ok {| patients := patients st;
               bills := <[id := applyUpdate body bill]> (bills st) |}
  end.

Definition deleteBill (id : Id) (st : State) : Result State :=
  match bills st !! id with
  | None => Err BillNotFound
  | Some bill =>
    if bool_decide (0 < paidAmount bill) then Err CannotDeleteBillWithPayments
    else Ok {| patients := patients st; bills := delete id (bills st) |}
  end.

(** The body of [POST /api/billing/:id/payment]. *)
Record PaymentRequest : Type := {
  pr_amount : Qc;
  pr_method : Method;
  pr_transactionId : option string;
  pr_notes : option string
}.

(** The document as the handler leaves it just before [bill.save()]. *)
Definition recordPayment (env : Env) (user : Id) (req : PaymentRequest) (bill : Bill) : Bill :=
  let paidAmount' := paidAmount bill + pr_amount req in
  let balanceAmount' := totalAmount bill - paidAmount' in
  {| invoiceId := invoiceId bill;
     patientId := patientId bill;
     appointmentId := appointmentId bill;
     ipdRecordId := ipdRecordId bill;
     invoiceDate := invoiceDate bill;
     dueDate := dueDate bill;
     services := services bill;
     subtotal := subtotal bill;
     tax_percentage := tax_percentage bill;
     tax_amount := tax_amount bill;
     discount_percentage := discount_percentage bill;
     discount_amount := discount_amount bill;
     discount_reason := discount_reason bill;
     totalAmount := totalAmount bill;
     paidAmount := paidAmount';
     balanceAmount := balanceAmount';
     paymentStatus := if bool_decide (balanceAmount' ≤ 0) then PAID else PARTIAL;
     payments := payments bill ++
       [{| amount := pr_amount req; method := pr_method req;
           transactionId := pr_transactionId req; date := now env;
           receivedBy := user; notes := pr_notes req |}];
     bill_notes := bill_notes bill;
     createdBy := createdBy bill |}.

Definition addPayment (env : Env) (id user : Id) (req : PaymentRequest)
    (st : State) : Result State :=
  match bills st !! id with
  | None => Err BillNotFound
  | Some bill =>
    if bool_decide (paymentStatus bill = PAID) then Err BillAlreadyPaid
    else if bool_decide (balanceAmount bill < pr_amount req)
    then Err (AmountExceedsBalance (balanceAmount bill))
    else save env id (recordPayment env user req bill) st
  end.

(** *** Runs of the controller *)

Inductive Op : Type :=
| CreateBill (newId user : Id) (req : CreateRequest)
| UpdateBill (id : Id) (body : UpdateBody)
| DeleteBill (id : Id)
| AddPayment (id user : Id) (req : PaymentRequest).

Definition run (env : Env) (op : Op) (st : State) : Result State :=
  match op with
  | CreateBill newId user req => createBill env newId user req st
  | UpdateBill id body => updateBill id body st
  | DeleteBill id => deleteBill id st
  | AddPayment id user req => addPayment env id user req st
  end.

(** A sequence of requests, each completed before the next. *)
Fixpoint runAll (env : Env) (ops : list Op) (st : State) : Result State :=
  match ops with
  | [] => Ok st
  | op :: ops' =>
    match run env op st with
    | Ok st' => runAll env ops' st'
    | Err f => Err f
    end
  end.

Definition initial (ps : gset nat) : State := {| patients := ps; bills := ∅ |}.

(** *** The statements of the specification *)

(** Rule 7 of section 4.2, in the words of the specification:
    [status = paid<=0 ? PENDING : (paid>=total ? PAID : PARTIAL)]. *)
Definition status_rule7 (paid total : Qc) : PaymentStatus :=
  if bool_decide (paid ≤ 0) then PENDING
  else if bool_decide (total ≤ paid) then PAID
  else PARTIAL.





(** An update that edits line items, discount, tax or the free-text paths
    and sets none of the derived paths. *)
Definition editsInputsOnly (u : UpdateBody) : bool :=
  bool_decide (u_subtotal u = None) && bool_decide (u_tax_amount u = None)
  && bool_decide (u_totalAmount u = None) && bool_decide (u_paidAmount u = None)
  && bool_decide (u_balanceAmount u = None) && bool_decide (u_paymentStatus u = None).

(** The mutations the invariant is claimed for. *)
Definition mutation (op : Op) : bool :=
  match op with
  | UpdateBill _ body => editsInputsOnly body
  | _ => true
  end.


(** The derived fields of an invoice. *)
Record Derived : Type := {
  d_lineTotals : list Qc;
  d_subtotal : Qc;
  d_taxAmount : Qc;
  d_discountAmount : Qc;
  d_total : Qc;
  d_balance : Qc
}.

Definition derivedOf (b : Bill) : Derived :=
  {| d_lineTotals := total <$> services b;
     d_subtotal := subtotal b;
     d_taxAmount := tax_amount b;
     d_discountAmount := discount_amount b;
     d_total := totalAmount b;
     d_balance := balanceAmount b |}.

Definition atLeastZero (x : Qc) : Qc := if bool_decide (0 ≤ x) then x else 0.

(** The reference algorithm of section 4.2, steps 1 to 6, in the words of
    the specification: line totals clamped at zero, the total floored at
    zero. *)
Definition recompute_reference (b : Bill) : Derived :=
  let lineTotals :=
    (λ s, atLeastZero (unitPrice s * quantity s - discount s)) <$> services b in
  let subtotal := fold_left Qcplus lineTotals 0 in
  let taxAmount := subtotal * tax_percentage b / hundred in
  let discountAmount :=
    if bool_decide (0 < discount_percentage b)
    then subtotal * discount_percentage b / hundred
    else discount_amount b in
  let total := atLeastZero (subtotal + taxAmount - discountAmount) in
  {| d_lineTotals := lineTotals;
     d_subtotal := subtotal;
     d_taxAmount := taxAmount;
     d_discountAmount := discountAmount;
     d_total := total;
     d_balance := total - paidAmount b |}.

(** *** Scenarios *)

Definition qz (z : Z) : Qc := Qc_of_Z z.

Definition env2611 : Env := {| now := 1794182400000; year2 := "26"; month := 11 |}.

Definition line (d : string) (q price disc : Z) : ServiceInput :=
  {| si_description := d; si_category := Some Consultation;
     si_quantity := Some (qz q); si_unitPrice := qz price;
     si_discount := Some (qz disc) |}.

Definition invoiceRequest (l : list ServiceInput) (taxPct : Z) : CreateRequest :=
  {| cr_patientId := 1; cr_services := l;
     cr_tax_percentage := Some (qz taxPct);
     cr_discount_percentage := None; cr_discount_amount := None;
     cr_discount_reason := None; cr_appointmentId := None;
     cr_ipdRecordId := None; cr_notes := None; cr_dueDate := None |}.

Definition cash (a : Z) : PaymentRequest :=
  {| pr_amount := qz a; pr_method := Cash; pr_transactionId := None;
     pr_notes := None |}.

Definition stateAfter (ops : list Op) : State :=
  match runAll env2611 ops (initial {[1%nat]}) with
  | Ok st => st
  | Err _ => initial {[1%nat]}
  end.

Definition billAfter (ops : list Op) (id : Id) (dflt : Bill) : Bill :=
  default dflt (bills (stateAfter ops) !! id).

(** Scenario A of section 8: one consultation of 500, tax 10%. *)
Definition consultation : list Op :=
  [CreateBill 7 99 (invoiceRequest [line "Consultation" 1 500 0] 10)].

(** Scenario B: the invoice of A paid in full. *)
Definition consultationPaid : list Op := consultation ++ [AddPayment 7 99 (cash 550)].

(** A consultation waived in full by its line discount. *)
Definition waived : list Op :=
  [CreateBill 7 99 (invoiceRequest [line "Consultation" 1 500 500] 10)].

(** A payment of nothing on the invoice of A. *)
Definition consultationZeroPayment : list Op :=
  consultation ++ [AddPayment 7 99 (cash 0)].

Definition emptyBill : Bill :=
  {| invoiceId := None; patientId := 1; appointmentId := None;
     ipdRecordId := None; invoiceDate := 0; dueDate := None; services := [];
     subtotal := 0; tax_percentage := 0; tax_amount := 0;
     discount_percentage := 0; discount_amount := 0; discount_reason := None;
     totalAmount := 0; paidAmount := 0; balanceAmount := 0;
     paymentStatus := PENDING; payments := []; bill_notes := None;
     createdBy := None |}.

(** An edit of the only line of the invoice that gives it a discount larger
    than its price; every path of the body passes its own validator. *)
Definition overDiscountEdit : UpdateBody :=
  {| u_services := Some [{| description := "Consultation";
                            category := Some Consultation;
                            quantity := 1; unitPrice := qz 500;
                            discount := qz 600; total := 0 |}];
     u_tax_percentage := None; u_discount_percentage := None;
     u_discount_amount := None; u_discount_reason := None; u_dueDate := None;
     u_notes := None; u_subtotal := None; u_tax_amount := None;
     u_totalAmount := None; u_paidAmount := None; u_balanceAmount := None;
     u_paymentStatus := None |}.

Definition consultationEdited : list Op := consultation ++ [UpdateBill 7 overDiscountEdit].

(** The invoice of A after that edit and a payment of 50, as [addPayment]
    hands it to [save]. *)
Definition overDiscounted : Bill :=
  recordPayment env2611 99 (cash 50) (billAfter consultationEdited 7 emptyBill).

End Billing.

(** ** Beds and inpatient stays: the bed and IPD controllers *)

Module Ward.
Local Open Scope Qc_scope.

Inductive BedStatus : Type := AVAILABLE | OCCUPIED | MAINTENANCE | RESERVED.

Global Instance BedStatus_eq_dec : EqDecision BedStatus.
Proof. solve_decision. Defined.

Inductive IPDStatus : Type := ADMITTED | DISCHARGED | TRANSFERRED.

Global Instance IPDStatus_eq_dec : EqDecision IPDStatus.
Proof. solve_decision. Defined.

Inductive WardType : Type :=
| General | Private | SemiPrivate | ICU | Emergency | Pediatric | Maternity.

(** A [Bed] document. *)
Record Bed : Type := {
  bedNumber : string;
  ward : string;
  wardType : WardType;
  floor : Z;
  status : BedStatus;
  currentPatient : option Id;
  dailyRate : Qc;
  facilities : list string;
  lastCleanedAt : option Z;
  notes : option string
}.

Record TreatmentNote : Type := {
  tn_date : Z;
  note : string;
  addedBy : Id
}.

Record Diagnosis : Type := {
  primary : option string;
  secondary : list string
}.

Record DischargeSummary : Type := {
  condition : option string;
  instructions : option string;
  followUpDate : option Z
}.

(** An [IPDRecord] document.  [medications], [surgeries] and [vitalRecords]
    are not read or written by admission, discharge or transfer and are left
    out. *)
Record IPDRecord : Type := {
  recordId : option string;
  patientId : Id;
  doctorId : Id;
  bedId : Id;
  admissionDate : Z;
  dischargeDate : option Z;
  admissionReason : string;
  diagnosis : option Diagnosis;
  ipdStatus : IPDStatus;
  treatmentNotes : list TreatmentNote;
  dischargeSummary : option DischargeSummary
}.

Record State : Type := {
  patients : gset nat;
  beds : gmap nat Bed;
  records : gmap nat IPDRecord
}.

Definition withBeds (st : State) (m : gmap nat Bed) : State :=
  {| patients := patients st; beds := m; records := records st |}.

(** *** Writes to a bed *)

(** Every write path of the two controllers validates what it stores
    ([create], [runValidators]) or sets [status] and [currentPatient] only,
    so a stored bed or stay passes the validators of its schema; [bed.save()]
    and [record.save()] below, which change paths without a validator of
    their own, therefore do not fail. *)

(** The update [{ status: AVAILABLE, currentPatient: null }]. *)
Definition release (b : Bed) : Bed :=
  {| bedNumber := bedNumber b; ward := ward b; wardType := wardType b;
     floor := floor b; status := AVAILABLE; currentPatient := None;
     dailyRate := dailyRate b; facilities := facilities b;
     lastCleanedAt := lastCleanedAt b; notes := notes b |}.

(** [bed.status = OCCUPIED; bed.currentPatient = p]. *)
Definition assign (p : Id) (b : Bed) : Bed :=
  {| bedNumber := bedNumber b; ward := ward b; wardType := wardType b;
     floor := floor b; status := OCCUPIED; currentPatient := Some p;
     dailyRate := dailyRate b; facilities := facilities b;
     lastCleanedAt := lastCleanedAt b; notes := notes b |}.

(** [bed.status = MAINTENANCE; bed.notes = req.body.notes || 'Under maintenance']. *)
Definition maintain (n : option string) (b : Bed) : Bed :=
  {| bedNumber := bedNumber b; ward := ward b; wardType := wardType b;
     floor := floor b; status := MAINTENANCE; currentPatient := currentPatient b;
     dailyRate := dailyRate b; facilities := facilities b;
     lastCleanedAt := lastCleanedAt b;
     notes := match n with
              | Some s => if nonEmpty s then Some s else Some "Under maintenance"
              | None => Some "Under maintenance"
              end |}.

(** *** The bed controller *)

(** The body of [POST /api/beds] and [PUT /api/beds/:id], handed to the model
    as it comes.  [bb_currentPatient = Some None] is an explicit [null]. *)
Record BedBody : Type := {
  bb_bedNumber : option string;
  bb_ward : option string;
  bb_wardType : option WardType;
  bb_floor : option Z;
  bb_status : option BedStatus;
  bb_currentPatient : option (option Id);
  bb_dailyRate : option Qc;
  bb_facilities : option (list string);
  bb_lastCleanedAt : option Z;
  bb_notes : option string
}.

Definition bedNumberTaken (n : string) (m : gmap nat Bed) : bool :=
  bool_decide (map_Exists (λ _ b, bedNumber b = n) m).

(** [Bed.create(req.body)]: required paths, [min] of [dailyRate], the schema
    defaults of [status] and [currentPatient], the unique indexes. *)
Definition createBed (newId : Id) (body : BedBody) (st : State) : Result State :=
  match bb_bedNumber body, bb_ward body, bb_wardType body, bb_floor body,
        bb_dailyRate body with
  | Some n, Some w, Some wt, Some f, Some r =>
    if negb (nonEmpty n && nonEmpty w && bool_decide (0 ≤ r)) then Err ValidationFailed
    else if bool_decide (is_Some (beds st !! newId)) || bedNumberTaken n (beds st)
    then Err DuplicateKey
    else Ok (withBeds st (<[newId :=
           {| bedNumber := n; ward := w; wardType := wt; floor := f;
              status := default AVAILABLE (bb_status body);
              currentPatient := default None (bb_currentPatient body);
              dailyRate := r;
              facilities := default [] (bb_facilities body);
              lastCleanedAt := bb_lastCleanedAt body;
              notes := bb_notes body |}]> (beds st)))
  | _, _, _, _, _ => Err ValidationFailed
  end.

Definition applyBedBody (body : BedBody) (b : Bed) : Bed :=
  {| bedNumber := default (bedNumber b) (bb_bedNumber body);
     ward := default (ward b) (bb_ward body);
     wardType := default (wardType b) (bb_wardType body);
     floor := default (floor b) (bb_floor body);
     status := default (status b) (bb_status body);
     currentPatient := default (currentPatient b) (bb_currentPatient body);
     dailyRate := default (dailyRate b) (bb_dailyRate body);
     facilities := default (facilities b) (bb_facilities body);
     lastCleanedAt :=
       match bb_lastCleanedAt body with Some t => Some t | None => lastCleanedAt b end;
     notes := match bb_notes body with Some s => Some s | None => notes b end |}.

Definition validBedBody (body : BedBody) : bool :=
  match bb_bedNumber body with Some n => nonEmpty n | None => true end
  && match bb_ward body with Some w => nonEmpty w | None => true end
  && match bb_dailyRate body with Some r => bool_decide (0 ≤ r) | None => true end.

(** [findByIdAndUpdate(id, req.body, { runValidators: true })]. *)
Definition updateBed (id : Id) (body : BedBody) (st : State) : Result State :=
  match beds st !! id with
  | None => Err BedNotFound
  | Some bed =>
    if negb (validBedBody body) then Err ValidationFailed
    else if match bb_bedNumber body with
            | Some n => bedNumberTaken n (delete id (beds st))
            | None => false
            end
    then Err DuplicateKey
    else Ok (withBeds st (<[id := applyBedBody body bed]> (beds st)))
  end.

Definition deleteBed (id : Id) (st : State) : Result State :=
  match beds st !! id with
  | None => Err BedNotFound
  | Some bed =>
    if bool_decide (status bed = OCCUPIED) then Err CannotDeleteOccupiedBed
    else Ok (withBeds st (delete id (beds st)))
  end.

Definition markMaintenance (id : Id) (bodyNotes : option string) (st : State)
    : Result State :=
  match beds st !! id with
  | None => Err BedNotFound
  | Some bed =>
    if bool_decide (status bed = OCCUPIED) then Err CannotMaintainOccupiedBed
    else Ok (withBeds st (<[id := maintain bodyNotes bed]> (beds st)))
  end.

(** *** The IPD controller *)

(** The handlers below are the requests served with no other request between
    their round trips to the store; [WardInFlight] takes them round trip by
    round trip. *)

Definition generateRecordId (count : nat) : string :=
  "IPD" +:+ padStart 6 "0"%char (pretty (count + 1)%nat).

(** The [pre('save')] hook of the IPD model. *)
Definition ipdPreSave (count : nat) (r : IPDRecord) : IPDRecord :=
  {| recordId :=
       match recordId r with
       | Some i => if nonEmpty i then Some i else Some (generateRecordId count)
       | None => Some (generateRecordId count)
       end;
     patientId := patientId r; doctorId := doctorId r; bedId := bedId r;
     admissionDate := admissionDate r; dischargeDate := dischargeDate r;
     admissionReason := admissionReason r; diagnosis := diagnosis r;
     ipdStatus := ipdStatus r; treatmentNotes := treatmentNotes r;
     dischargeSummary := dischargeSummary r |}.

(** [IPDRecord.findOne({ patientId, status: ADMITTED })] finds a document. *)
Definition admittedStayOf (p : Id) (m : gmap nat IPDRecord) : Prop :=
  map_Exists (λ _ r, patientId r = p ∧ ipdStatus r = ADMITTED) m.

Definition recordIdTaken (i : option string) (m : gmap nat IPDRecord) : bool :=
  bool_decide (map_Exists (λ _ r, recordId r = i) m).

(** The body of [POST /api/ipd/admit]. *)
Record AdmitRequest : Type := {
  ar_patientId : Id;
  ar_doctorId : option Id;
  ar_bedId : Id;
  ar_admissionReason : option string;
  ar_diagnosis : option Diagnosis
}.

Definition admitPatient (now : Z) (newId : Id) (req : AdmitRequest) (st : State)
    : Result State :=
  if negb (bool_decide (ar_patientId req ∈ patients st)) then Err PatientNotFound
  else
    match beds st !! ar_bedId req with
    | None => Err BedNotFound
    | Some bed =>
      if negb (bool_decide (status bed = AVAILABLE)) then Err BedNotAvailable
      else if bool_decide (admittedStayOf (ar_patientId req) (records st))
      then Err PatientAlreadyAdmitted
      else
        (* IPDRecord.create: required paths, the hook, the unique indexes *)
        match ar_doctorId req, ar_admissionReason req with
        | Some doctor, Some reason =>
          if negb (nonEmpty reason) then Err ValidationFailed
          else
            let record := ipdPreSave (size (records st))
              {| recordId := None;
                 patientId := ar_patientId req;
                 doctorId := doctor;
                 bedId := ar_bedId req;
                 admissionDate := now;
                 dischargeDate := None;
                 admissionReason := reason;
                 diagnosis := ar_diagnosis req;
                 ipdStatus := ADMITTED;
                 treatmentNotes := [];
                 dischargeSummary := None |} in
            if bool_decide (is_Some (records st !! newId))
               || recordIdTaken (recordId record) (records st)
            then Err DuplicateKey
            else
              Ok {| patients := patients st;
                    beds := <[ar_bedId req := assign (ar_patientId req) bed]> (beds st);
                    records := <[newId := record]> (records st) |}
        | _, _ => Err ValidationFailed
        end
    end.

Definition discharged (now : Z) (summary : option DischargeSummary) (r : IPDRecord)
    : IPDRecord :=
  {| recordId := recordId r; patientId := patientId r; doctorId := doctorId r;
     bedId := bedId r; admissionDate := admissionDate r;
     dischargeDate := Some now;
     admissionReason := admissionReason r; diagnosis := diagnosis r;
     ipdStatus := DISCHARGED; treatmentNotes := treatmentNotes r;
     dischargeSummary := summary |}.

(** [Bed.findByIdAndUpdate(id, ..)] changes nothing when no bed has the id. *)
Definition dischargePatient (now : Z) (id : Id) (summary : option DischargeSummary)
    (st : State) : Result State :=
  match records st !! id with
  | None => Err IPDRecordNotFound
  | Some record =>
    if negb (bool_decide (ipdStatus record = ADMITTED)) then Err NotCurrentlyAdmitted
    else
      let record' := ipdPreSave (size (records st)) (discharged now summary record) in
      Ok {| patients := patients st;
            beds := alter release (bedId record) (beds st);
            records := <[id := record']> (records st) |}
  end.

(** [record.bedId = newBedId] comes before the note is built, so both ids in
    the note are the new one. *)
Definition transferred (now : Z) (user newBedId : Id) (r : IPDRecord) : IPDRecord :=
  {| recordId := recordId r; patientId := patientId r; doctorId := doctorId r;
     bedId := newBedId; admissionDate := admissionDate r;
     dischargeDate := dischargeDate r;
     admissionReason := admissionReason r; diagnosis := diagnosis r;
     ipdStatus := ipdStatus r;
     treatmentNotes := treatmentNotes r ++
       [{| tn_date := now;
           note := "Patient transferred from bed " +:+ pretty newBedId
                   +:+ " to bed " +:+ pretty newBedId;
           addedBy := user |}];
     dischargeSummary := dischargeSummary r |}.

(** [newBed.save()] writes the two modified paths of the bed read before the
    old bed was freed. *)
Definition transferPatient (now : Z) (id user newBedId : Id) (st : State)
    : Result State :=
  match records st !! id with
  | None => Err IPDRecordNotFound
  | Some record =>
    match beds st !! newBedId with
    | None => Err NewBedNotAvailable
    | Some newBed =>
      if negb (bool_decide (status newBed = AVAILABLE)) then Err NewBedNotAvailable
      else
        let freed := alter release (bedId record) (beds st) in
        let record' :=
          ipdPreSave (size (records st)) (transferred now user newBedId record) in
        Ok {| patients := patients st;
              beds := alter (assign (patientId record)) newBedId freed;
              records := <[id := record']> (records st) |}
    end
  end.

(** *** Runs of the two controllers *)

Inductive Op : Type :=
| CreateBed (newId : Id) (body : BedBody)
| UpdateBed (id : Id) (body : BedBody)
| DeleteBed (id : Id)
| MarkMaintenance (id : Id) (bodyNotes : option string)
| AdmitPatient (now : Z) (newId : Id) (req : AdmitRequest)
| DischargePatient (now : Z) (id : Id) (summary : option DischargeSummary)
| TransferPatient (now : Z) (id user newBedId : Id).

Definition run (op : Op) (st : State) : Result State :=
  match op with
  | CreateBed newId body => createBed newId body st
  | UpdateBed id body => updateBed id body st
  | DeleteBed id => deleteBed id st
  | MarkMaintenance id bodyNotes => markMaintenance id bodyNotes st
  | AdmitPatient now newId req => admitPatient now newId req st
  | DischargePatient now id summary => dischargePatient now id summary st
  | TransferPatient now id user newBedId => transferPatient now id user newBedId st
  end.

Fixpoint runAll (ops : list Op) (st : State) : Result State :=
  match ops with
  | [] => Ok st
  | op :: ops' =>
    match run op st with
    | Ok st' => runAll ops' st'
    | Err f => Err f
    end
  end.

Definition initial (ps : gset nat) : State :=
  {| patients := ps; beds := ∅; records := ∅ |}.

(** *** The statements of the specification *)

(** A bed is OCCUPIED exactly when it has an occupant. *)
Definition occupancyConsistent (st : State) : Prop :=
  ∀ id b, beds st !! id = Some b →
    (status b = OCCUPIED ↔ currentPatient b ≠ None).

(** The bed of an ADMITTED stay is OCCUPIED by the patient of the stay. *)
Definition staysCoupled (st : State) : Prop :=
  ∀ rid r, records st !! rid = Some r → ipdStatus r = ADMITTED →
    ∃ b, beds st !! bedId r = Some b
         ∧ status b = OCCUPIED ∧ currentPatient b = Some (patientId r).

Definition coupled (st : State) : Prop := occupancyConsistent st ∧ staysCoupled st.

(** No patient has two ADMITTED stays. *)
Definition singleAdmission (st : State) : Prop :=
  ∀ i j r r', records st !! i = Some r → records st !! j = Some r' →
    ipdStatus r = ADMITTED → ipdStatus r' = ADMITTED →
    patientId r = patientId r' → i = j.

Definition wardInvariant (st : State) : Prop :=
  occupancyConsistent st ∧ staysCoupled st ∧ singleAdmission st.

(** The operations the coupling invariant is claimed for. *)
Definition listed (op : Op) : bool :=
  match op with
  | MarkMaintenance _ _ => false
  | _ => true
  end.

(** A body that sets neither [status] nor [currentPatient]. *)
Definition keepsOccupancy (body : BedBody) : bool :=
  bool_decide (bb_status body = None) && bool_decide (bb_currentPatient body = None).

(** Bed bodies that keep occupancy, and transfers of ADMITTED stays. *)
Definition guarded (st : State) (op : Op) : bool :=
  match op with
  | CreateBed _ body | UpdateBed _ body => keepsOccupancy body
  | TransferPatient _ id _ _ =>
    match records st !! id with
    | Some r => bool_decide (ipdStatus r = ADMITTED)
    | None => true
    end
  | _ => true
  end.

Fixpoint guardedAll (ops : list Op) (st : State) : bool :=
  match ops with
  | [] => true
  | op :: ops' =>
    guarded st op
    && match run op st with
       | Ok st' => guardedAll ops' st'
       | Err _ => true
       end
  end.

(** *** Scenarios *)

Definition bedBody (n : string) (s : option BedStatus) : BedBody :=
  {| bb_bedNumber := Some n; bb_ward := Some "Ward A"; bb_wardType := Some General;
     bb_floor := Some 1%Z; bb_status := s; bb_currentPatient := None;
     bb_dailyRate := Some (Qc_of_Z 1500); bb_facilities := None;
     bb_lastCleanedAt := None; bb_notes := None |}.

Definition admission (p bed : Id) : AdmitRequest :=
  {| ar_patientId := p; ar_doctorId := Some 3; ar_bedId := bed;
     ar_admissionReason := Some "Observation"; ar_diagnosis := None |}.

Definition stateAfter (ops : list Op) : State :=
  match runAll ops (initial {[1%nat; 2%nat]}) with
  | Ok st => st
  | Err _ => initial {[1%nat; 2%nat]}
  end.

(** Bed B-1, AVAILABLE by the schema default. *)
Definition bedCreated : list Op := [CreateBed 10 (bedBody "B-1" None)].

(** Scenario C of section 8: bed B-1 is created, patient 1 is admitted to it. *)
Definition stayOpened : list Op :=
  [CreateBed 10 (bedBody "B-1" None); AdmitPatient 1000 50 (admission 1 10)].

(** Scenario D: the stay of C is discharged. *)
Definition stayClosed : list Op := stayOpened ++ [DischargePatient 2000 50 None].

(** A second bed, and the stay of C moved to it. *)
Definition moved : list Op :=
  [CreateBed 10 (bedBody "B-1" None); CreateBed 11 (bedBody "B-2" None);
   AdmitPatient 1000 50 (admission 1 10); TransferPatient 1500 50 99 11].

(** A bed created with [status: 'OCCUPIED'] in the body. *)
Definition createdOccupied : list Op := [CreateBed 10 (bedBody "B-1" (Some OCCUPIED))].

(** A bed put under maintenance. *)
Definition underMaintenance : list Op :=
  [CreateBed 10 (bedBody "B-1" None); MarkMaintenance 10 None].

Definition noBed : Bed :=
  {| bedNumber := ""; ward := ""; wardType := General; floor := 0;
     status := AVAILABLE; currentPatient := None; dailyRate := 0;
     facilities := []; lastCleanedAt := None; notes := None |}.

Definition noRecord : IPDRecord :=
  {| recordId := None; patientId := 0; doctorId := 0; bedId := 0;
     admissionDate := 0; dischargeDate := None; admissionReason := "";
     diagnosis := None; ipdStatus := DISCHARGED; treatmentNotes := [];
     dischargeSummary := None |}.

Definition bedAfter (ops : list Op) (id : Id) : Bed :=
  default noBed (beds (stateAfter ops) !! id).

Definition recordAfter (ops : list Op) (id : Id) : IPDRecord :=
  default noRecord (records (stateAfter ops) !! id).

End Ward.

(** ** Appointments and slots: the appointment and doctor controllers *)

Module Scheduling.
Local Open Scope Z_scope.

Inductive AppointmentStatus : Type :=
| SCHEDULED | CONFIRMED | COMPLETED | CANCELLED | NO_SHOW.

Global Instance AppointmentStatus_eq_dec : EqDecision AppointmentStatus.
Proof. solve_decision. Defined.

Inductive Day : Type :=
| Monday | Tuesday | Wednesday | Thursday | Friday | Saturday | Sunday.

Global Instance Day_eq_dec : EqDecision Day.
Proof. solve_decision. Defined.

Inductive AppointmentType : Type :=
| ConsultationVisit | FollowUp | EmergencyVisit | RoutineCheckup.

(** An element of [doctor.availability]. *)
Record Availability : Type := {
  day : Day;
  startTime : string;
  endTime : string;
  maxPatients : nat
}.

(** The paths of a [Doctor] document that the two handlers read.
    [slotDuration] is a whole number of minutes. *)
Record Doctor : Type := {
  consultationFee : Qc;
  availability : list Availability;
  slotDuration : Z
}.

(** An [Appointment] document; [date] is in milliseconds since the epoch. *)
Record Appointment : Type := {
  appointmentId : option string;
  patientId : Id;
  doctorId : Id;
  date : Z;
  time : string;
  type : AppointmentType;
  status : AppointmentStatus;
  symptoms : option string;
  notes : option string;
  fee : Qc;
  isPaid : bool;
  cancelReason : option string;
  cancelledBy : option Id
}.

Record State : Type := {
  patients : gset nat;
  doctors : gmap nat Doctor;
  appointments : gmap nat Appointment
}.

(** *** Dates *)

(** The server's time zone, as a fixed offset in milliseconds east of UTC. *)
Record Env : Type := { utcOffset : Z }.

Definition dayMs : Z := 86400000.

(** [d.setHours(0, 0, 0, 0)] and [d.setHours(23, 59, 59, 999)]. *)
Definition startOfDay (env : Env) (d : Z) : Z := d - (d + utcOffset env) `mod` dayMs.
Definition endOfDay (env : Env) (d : Z) : Z := startOfDay env d + (dayMs - 1).

(** [d.toLocaleDateString('en-US', { weekday: 'long' })]; the first of
    January 1970 was a Thursday. *)
Definition weekday (env : Env) (d : Z) : Day :=
  match ((d + utcOffset env) `div` dayMs + 4) `mod` 7 with
  | 0 => Sunday
  | 1 => Monday
  | 2 => Tuesday
  | 3 => Wednesday
  | 4 => Thursday
  | 5 => Friday
  | _ => Saturday
  end.

(** [status: { $in: [SCHEDULED, CONFIRMED] }] *)
Definition active (s : AppointmentStatus) : bool :=
  match s with
  | SCHEDULED | CONFIRMED => true
  | _ => false
  end.

(** The query [{ doctorId, date: { $gte: startOfDay, $lte: endOfDay },
    status: { $in: [..] } }] of both handlers, for the day of [d]. *)
Definition bookedOn (env : Env) (doctor : Id) (d : Z) (a : Appointment) : Prop :=
  doctorId a = doctor
  ∧ startOfDay env d ≤ date a ∧ date a ≤ endOfDay env d
  ∧ active (status a) = true.

Global Instance bookedOn_dec env doctor d a : Decision (bookedOn env doctor d a).
Proof. unfold bookedOn. apply _. Defined.

(** *** Time tokens *)

Definition digitValue (c : Ascii.ascii) : option Z :=
  let n := Z.of_nat (Ascii.nat_of_ascii c) in
  if bool_decide (48 ≤ n ∧ n ≤ 57) then Some (n - 48) else None.

Fixpoint digitsValue (s : string) (acc : Z) : option Z :=
  match s with
  | EmptyString => Some acc
  | String c s' =>
    match digitValue c with
    | Some d => digitsValue s' (10 * acc + d)
    | None => None
    end
  end.

(** [Number(s)] for a string of decimal digits ([Number('')] is [0]), which
    is what the tokens of [formatTime] and well-formed HH:MM bounds are made
    of.  Any other string gives [None] here; the statements below keep to
    bounds in decimal digits. *)
Definition Number (s : string) : option Z := digitsValue s 0.

(** [s.split(':')] *)
Fixpoint splitColon (s : string) : list string :=
  match s with
  | EmptyString => [EmptyString]
  | String c s' =>
    if bool_decide (c = ":"%char) then EmptyString :: splitColon s'
    else match splitColon s' with
         | h :: t => String c h :: t
         | [] => [String c EmptyString]
         end
  end.

(** [hours * 60 + minutes]; a missing or non-numeric part makes it [NaN]. *)
Definition parseTime (timeStr : string) : option Z :=
  match splitColon timeStr with
  | hours :: minutes :: _ =>
    match Number hours, Number minutes with
    | Some h, Some m => Some (h * 60 + m)
    | _, _ => None
    end
  | _ => None
  end.

Definition formatTime (minutes : Z) : string :=
  padStart 2 "0"%char (pretty (minutes `div` 60)) +:+ ":"
  +:+ padStart 2 "0"%char (pretty (minutes `rem` 60)).

(** The [while (current < end)] loop; [None] when the fuel runs out before
    the loop ends. *)
Fixpoint slotLoop (fuel : nat) (current finish duration : Z) (slots : list string)
    : option (list string) :=
  if bool_decide (current < finish) then
    match fuel with
    | O => None
    | S fuel' =>
      slotLoop fuel' (current + duration) finish duration (slots ++ [formatTime current])
    end
  else Some slots.

(** A comparison with [NaN] is false, so the loop body never runs. *)
Definition generateTimeSlots (fuel : nat) (startTime endTime : string) (duration : Z)
    : option (list string) :=
  match parseTime startTime, parseTime endTime with
  | Some current, Some finish => slotLoop fuel current finish duration []
  | _, _ => Some []
  end.

(** *** [getAvailableSlots] *)

Record Slot : Type := {
  slot_time : string;
  slot_available : bool
}.

(** The [data] of the answer: [available: false] with an empty [slots] on a
    day without a window, [available: true] with the marked slots otherwise. *)
Record SlotsData : Type := {
  sd_available : bool;
  sd_day : Day;
  sd_slots : list Slot
}.

Definition bookedTimes (env : Env) (doctor : Id) (d : Z) (m : gmap nat Appointment)
    : list string :=
  time <$> filter (bookedOn env doctor d) (snd <$> map_to_list m).

Definition getAvailableSlots (env : Env) (fuel : nat) (doctor : Id) (queryDate : option Z)
    (st : State) : option (Result SlotsData) :=
  match queryDate with
  | None => Some (Err DateMissing)
  | Some d =>
    match doctors st !! doctor with
    | None => Some (Err DoctorNotFound)
    | Some doc =>
      let dayName := weekday env d in
      match List.find (λ a, bool_decide (day a = dayName)) (availability doc) with
      | None => Some (Ok {| sd_available := false; sd_day := dayName; sd_slots := [] |})
      | Some dayAvailability =>
        match generateTimeSlots fuel (startTime dayAvailability)
                (endTime dayAvailability) (slotDuration doc) with
        | None => None
        | Some slots =>
          let booked := bookedTimes env doctor d (appointments st) in
          Some (Ok {| sd_available := true; sd_day := dayName;
                      sd_slots := (λ slot, {| slot_time := slot;
                                              slot_available := negb (bool_decide (slot ∈ booked)) |})
                                  <$> slots |})
        end
      end
    end
  end.

(** *** [createAppointment], [cancelAppointment], [completeAppointment] *)

(** The handlers below are the requests served with no other request between
    their round trips to the store; [BookingInFlight] takes [createAppointment]
    round trip by round trip. *)

Definition generateAppointmentId (count : nat) : string :=
  "APT" +:+ padStart 6 "0"%char (pretty (count + 1)%nat).

Definition appointmentIdTaken (i : option string) (m : gmap nat Appointment) : bool :=
  bool_decide (map_Exists (λ _ a, appointmentId a = i) m).

(** The body of [POST /api/appointments]. *)
Record CreateRequest : Type := {
  cr_patientId : Id;
  cr_doctorId : Id;
  cr_date : Z;
  cr_time : string;
  cr_type : option AppointmentType;
  cr_symptoms : option string;
  cr_notes : option string
}.

(** [Appointment.findOne({ doctorId, date: {..}, time, status: {..} })] finds
    a document. *)
Definition slotTaken (env : Env) (doctor : Id) (d : Z) (t : string)
    (m : gmap nat Appointment) : Prop :=
  map_Exists (λ _ a, bookedOn env doctor d a ∧ time a = t) m.

Definition createAppointment (env : Env) (newId : Id) (req : CreateRequest) (st : State)
    : Result State :=
  if negb (bool_decide (cr_patientId req ∈ patients st)) then Err PatientNotFound
  else
    match doctors st !! cr_doctorId req with
    | None => Err DoctorNotFound
    | Some doctor =>
      if bool_decide (slotTaken env (cr_doctorId req) (cr_date req) (cr_time req)
                        (appointments st))
      then Err SlotAlreadyBooked
      else if negb (nonEmpty (cr_time req)) then Err ValidationFailed
      else
        let i := Some (generateAppointmentId (size (appointments st))) in
        if bool_decide (is_Some (appointments st !! newId))
           || appointmentIdTaken i (appointments st)
        then Err DuplicateKey
        else
          Ok {| patients := patients st; doctors := doctors st;
                appointments := <[newId :=
                  {| appointmentId := i;
                     patientId := cr_patientId req;
                     doctorId := cr_doctorId req;
                     date := cr_date req;
                     time := cr_time req;
                     type := default ConsultationVisit (cr_type req);
                     status := SCHEDULED;
                     symptoms := cr_symptoms req;
                     notes := cr_notes req;
                     fee := consultationFee doctor;
                     isPaid := false;
                     cancelReason := None;
                     cancelledBy := None |}]> (appointments st) |}
    end.

Definition withStatus (s : AppointmentStatus) (reason : option string)
    (by_ : option Id) (a : Appointment) : Appointment :=
  {| appointmentId := appointmentId a; patientId := patientId a;
     doctorId := doctorId a; date := date a; time := time a; type := type a;
     status := s; symptoms := symptoms a; notes := notes a; fee := fee a;
     isPaid := isPaid a; cancelReason := reason; cancelledBy := by_ |}.

Definition completeAppointment (id : Id) (st : State) : Result State :=
  match appointments st !! id with
  | None => Err AppointmentNotFound
  | Some a =>
    Ok {| patients := patients st; doctors := doctors st;
          appointments :=
            <[id := withStatus COMPLETED (cancelReason a) (cancelledBy a) a]>
              (appointments st) |}
  end.

(** *** Runs of the appointment controller *)

Inductive Op : Type :=
| Book (newId : Id) (req : CreateRequest)
| Complete (id : Id).

Definition run (env : Env) (op : Op) (st : State) : Result State :=
  match op with
  | Book newId req => createAppointment env newId req st
  | Complete id => completeAppointment id st
  end.

Fixpoint runAll (env : Env) (ops : list Op) (st : State) : Result State :=
  match ops with
  | [] => Ok st
  | op :: ops' =>
    match run env op st with
    | Ok st' => runAll env ops' st'
    | Err f => Err f
    end
  end.

(** *** The statements of the specification *)

(** Two instants of the same calendar day of the server. *)
Definition sameDay (env : Env) (d1 d2 : Z) : Prop :=
  (d1 + utcOffset env) `div` dayMs = (d2 + utcOffset env) `div` dayMs.

(** At most one SCHEDULED or CONFIRMED appointment per doctor, day and time
    token. *)
Definition uniqueActive (env : Env) (st : State) : Prop :=
  ∀ i j a b,
    appointments st !! i = Some a → appointments st !! j = Some b →
    active (status a) = true → active (status b) = true →
    doctorId a = doctorId b → sameDay env (date a) (date b) →
    time a = time b → i = j.

(** [start], [start + duration], .. : the first [n] steps. *)
Fixpoint steps (start duration : Z) (n : nat) : list Z :=
  match n with
  | O => []
  | S n' => start :: steps (start + duration) duration n'
  end.

(** *** Scenarios *)

Definition utc : Env := {| utcOffset := 0 |}.

(** Monday the 9th of November 2026, 00:00 UTC. *)
Definition monday : Z := 1794182400000.

(** Scenario E of section 8: Monday 09:00 to 10:00, slots of 30 minutes. *)
Definition doctorE : Doctor :=
  {| consultationFee := Qc_of_Z 500;
     availability := [{| day := Monday; startTime := "09:00"; endTime := "10:00";
                         maxPatients := 20 |}];
     slotDuration := 30 |}.

Definition clinic : State :=
  {| patients := {[1%nat; 2%nat]}; doctors := {[5%nat := doctorE]};
     appointments := ∅ |}.

Definition nineOClock (p : Id) : CreateRequest :=
  {| cr_patientId := p; cr_doctorId := 5; cr_date := monday; cr_time := "09:00";
     cr_type := None; cr_symptoms := None; cr_notes := None |}.

Definition stateAfter (ops : list Op) : State :=
  match runAll utc ops clinic with
  | Ok st => st
  | Err _ => clinic
  end.

(** Patient 1 books 09:00. *)
Definition booked : list Op := [Book 100 (nineOClock 1)].

(** The appointment takes place and is completed. *)
Definition completed : list Op := booked ++ [Complete 100].

Definition noAppointment : Appointment :=
  {| appointmentId := None; patientId := 0; doctorId := 0; date := 0;
     time := ""; type := ConsultationVisit; status := CANCELLED;
     symptoms := None; notes := None; fee := Qc_of_Z 0; isPaid := false;
     cancelReason := None; cancelledBy := None |}.

Definition appointmentAfter (ops : list Op) (id : Id) : Appointment :=
  default noAppointment (appointments (stateAfter ops) !! id).

End Scheduling.

(** ** Billing: the ledger and the history of a patient *)

Module Ledger.
Import Billing.
Local Open Scope Qc_scope.

(** The sum of the amounts of the recorded payments. *)
Definition paymentsTotal (b : Bill) : Qc :=
  fold_left (λ sum p, sum + amount p) (payments b) 0.

(** What every stored invoice satisfies along a run of mutations. *)
Definition ledgerKept (st : State) : Prop :=
  ∀ id b, bills st !! id = Some b →
    balanceAmount b = totalAmount b - paidAmount b
    ∧ paidAmount b = paymentsTotal b.



(** [.sort({ invoiceDate: -1 })] *)
Definition newestFirst (a b : Bill) : Prop := (invoiceDate b ≤ invoiceDate a)%Z.

Global Instance newestFirst_dec a b : Decision (newestFirst a b).
Proof. unfold newestFirst. apply _. Defined.



(** *** Scenarios *)

Definition secondInvoice : list Op :=
  consultationPaid
  ++ [CreateBill 8 99 (invoiceRequest [line "X-ray" 2 300 50] 0);
      AddPayment 8 99 (cash 200)].



(** *** Amounts that binary64 adds exactly *)



End Ledger.

(** ** Inpatient stays: treatment notes, and what runs keep *)

Module Clinical.
Import Ward.

(** [record.treatmentNotes.push({ note, addedBy })], for a body that has a
    [note]; the schema default dates the note. *)
Definition noted (now : Z) (user : Id) (text : string) (r : IPDRecord) : IPDRecord :=
  {| recordId := recordId r; patientId := patientId r; doctorId := doctorId r;
     bedId := bedId r; admissionDate := admissionDate r;
     dischargeDate := dischargeDate r;
     admissionReason := admissionReason r; diagnosis := diagnosis r;
     ipdStatus := ipdStatus r;
     treatmentNotes := treatmentNotes r ++
       [{| tn_date := now; note := text; addedBy := user |}];
     dischargeSummary := dischargeSummary r |}.

(** [addTreatmentNote]: no test of the state of the stay. *)
Definition addTreatmentNote (now : Z) (id user : Id) (text : string) (st : State)
    : Result State :=
  match records st !! id with
  | None => Err IPDRecordNotFound
  | Some record =>
    Ok {| patients := patients st; beds := beds st;
          records := <[id := ipdPreSave (size (records st)) (noted now user text record)]>
                       (records st) |}
  end.

(** A request to the bed controller or to the IPD controller. *)
Inductive Request : Type :=
| Handler (op : Op)
| AddTreatmentNote (now : Z) (id user : Id) (text : string).

Definition serve (r : Request) (st : State) : Result State :=
  match r with
  | Handler op => run op st
  | AddTreatmentNote now id user text => addTreatmentNote now id user text st
  end.

Fixpoint serveAll (rs : list Request) (st : State) : Result State :=
  match rs with
  | [] => Ok st
  | r :: rs' =>
    match serve r st with
    | Ok st' => serveAll rs' st'
    | Err f => Err f
    end
  end.

(** [r'] is a later version of the stay [r]: the same admission, the notes
    of [r] and maybe more after them, and the discharge of [r] if it had one. *)
Definition laterVersion (r r' : IPDRecord) : Prop :=
  patientId r' = patientId r
  ∧ doctorId r' = doctorId r
  ∧ admissionDate r' = admissionDate r
  ∧ admissionReason r' = admissionReason r
  ∧ treatmentNotes r `prefix_of` treatmentNotes r'
  ∧ (ipdStatus r = DISCHARGED →
     ipdStatus r' = DISCHARGED
     ∧ dischargeDate r' = dischargeDate r
     ∧ dischargeSummary r' = dischargeSummary r).

(** Every OCCUPIED bed is the bed of an ADMITTED stay. *)
Definition occupiedHasStay (st : State) : Prop :=
  ∀ id b, beds st !! id = Some b → status b = OCCUPIED →
    ∃ rid r, records st !! rid = Some r ∧ ipdStatus r = ADMITTED ∧ bedId r = id.

(** Every stay is of a known patient and carries one of the record ids
    generated so far. *)
Definition recordsNumbered (st : State) : Prop :=
  ∀ id r, records st !! id = Some r →
    patientId r ∈ patients st
    ∧ ∃ k : nat, k < size (records st) ∧ recordId r = Some (generateRecordId k).

(** No two stays share a record id. *)
Definition recordIdsDistinct (st : State) : Prop :=
  ∀ i j r r', records st !! i = Some r → records st !! j = Some r' →
    recordId r = recordId r' → i = j.

(** *** Scenarios *)


Definition stateServed (rs : list Request) : State :=
  match serveAll rs (initial {[1%nat; 2%nat]}) with
  | Ok st => st
  | Err _ => initial {[1%nat; 2%nat]}
  end.

End Clinical.

(** ** Appointments: cancelling and rescheduling *)

Module Calendar.
Import Scheduling.
Local Open Scope Z_scope.

(** The answers of [cancelAppointment]; its 400 has a message of its own. *)
Inductive Cancellation : Type :=
| Cancelled (st : State)
| NoSuchAppointment          (* 404, 'Appointment not found' *)
| CannotCancelCompleted.     (* 400, 'Cannot cancel a completed appointment' *)

(** [appointment.save()] validates a stored appointment, which passes its
    schema as in the bed and IPD controllers, and runs the hook, which keeps
    the id the appointment was created with. *)
Definition cancelAppointment (id user : Id) (reason : option string) (st : State)
    : Cancellation :=
  match appointments st !! id with
  | None => NoSuchAppointment
  | Some appointment =>
    if bool_decide (status appointment = COMPLETED) then CannotCancelCompleted
    else
      Cancelled {| patients := patients st; doctors := doctors st;
                   appointments :=
                     <[id := withStatus CANCELLED reason (Some user) appointment]>
                       (appointments st) |}
  end.

(** The bodies of [PUT /api/appointments/:id] that name no other paths than
    these, with [date] given as a date string that parses, which is truthy,
    and [time] as a string.  The handler hands any body to the model as it
    comes; a body that names [appointmentId], [endTime], [prescription] or
    [cancelledBy], or that gives [date] or [time] as a number, is not one of
    these, and the statements about updates do not cover it. *)
Record UpdateBody : Type := {
  ub_patientId : option Id;
  ub_doctorId : option Id;
  ub_date : option Z;
  ub_time : option string;
  ub_type : option AppointmentType;
  ub_status : option AppointmentStatus;
  ub_symptoms : option string;
  ub_notes : option string;
  ub_fee : option Qc;
  ub_isPaid : option bool;
  ub_cancelReason : option string
}.

(** [req.body.date || req.body.time] *)
Definition reschedules (body : UpdateBody) : bool :=
  bool_decide (is_Some (ub_date body))
  || match ub_time body with Some t => nonEmpty t | None => false end.

(** [req.body.time || appointment.time] *)
Definition newTime (body : UpdateBody) (a : Appointment) : string :=
  match ub_time body with
  | Some t => if nonEmpty t then t else time a
  | None => time a
  end.

(** The [findOne] of [updateAppointment]: as in [createAppointment], with
    [_id: { $ne: req.params.id }] and the doctor of the stored appointment. *)
Definition slotTakenByOther (env : Env) (id doctor : Id) (d : Z) (t : string)
    (m : gmap nat Appointment) : Prop :=
  map_Exists (λ j a, j ≠ id ∧ bookedOn env doctor d a ∧ time a = t) m.

(** [runValidators]: the paths the body sets; [time] is required. *)
Definition validUpdate (body : UpdateBody) : bool :=
  match ub_time body with Some t => nonEmpty t | None => true end.

Definition applyUpdate (body : UpdateBody) (a : Appointment) : Appointment :=
  {| appointmentId := appointmentId a;
     patientId := default (patientId a) (ub_patientId body);
     doctorId := default (doctorId a) (ub_doctorId body);
     date := default (date a) (ub_date body);
     time := default (time a) (ub_time body);
     type := default (type a) (ub_type body);
     status := default (status a) (ub_status body);
     symptoms := match ub_symptoms body with Some s => Some s | None => symptoms a end;
     notes := match ub_notes body with Some s => Some s | None => notes a end;
     fee := default (fee a) (ub_fee body);
     isPaid := default (isPaid a) (ub_isPaid body);
     cancelReason :=
       match ub_cancelReason body with Some s => Some s | None => cancelReason a end;
     cancelledBy := cancelledBy a |}.

Definition updateAppointment (env : Env) (id : Id) (body : UpdateBody) (st : State)
    : Result State :=
  match appointments st !! id with
  | None => Err AppointmentNotFound
  | Some appointment =>
    if reschedules body
       && bool_decide (slotTakenByOther env id (doctorId appointment)
                         (default (date appointment) (ub_date body))
                         (newTime body appointment) (appointments st))
    then Err SlotAlreadyBooked
    else if negb (validUpdate body) then Err ValidationFailed
    else
      Ok {| patients := patients st; doctors := doctors st;
            appointments := <[id := applyUpdate body appointment]> (appointments st) |}
  end.

(** *** Runs of the four handlers *)

Inductive Request : Type :=
| Create (newId : Id) (req : CreateRequest)
| Update (id : Id) (body : UpdateBody)
| Cancel (id user : Id) (reason : option string)
| Finish (id : Id).

(** The state after a request, when the request completes. *)
Definition serve (env : Env) (rq : Request) (st : State) : option State :=
  match rq with
  | Create newId req =>
    match createAppointment env newId req st with Ok st' => Some st' | Err _ => None end
  | Update id body =>
    match updateAppointment env id body st with Ok st' => Some st' | Err _ => None end
  | Cancel id user reason =>
    match cancelAppointment id user reason st with
    | Cancelled st' => Some st'
    | _ => None
    end
  | Finish id =>
    match completeAppointment id st with Ok st' => Some st' | Err _ => None end
  end.

Fixpoint serveAll (env : Env) (rqs : list Request) (st : State) : option State :=
  match rqs with
  | [] => Some st
  | rq :: rqs' =>
    match serve env rq st with
    | Some st' => serveAll env rqs' st'
    | None => None
    end
  end.

(** An update that leaves [status] and [doctorId] alone; any other request. *)
Definition keepsSlotOwner (rq : Request) : bool :=
  match rq with
  | Update _ body =>
    bool_decide (ub_status body = None) && bool_decide (ub_doctorId body = None)
  | _ => true
  end.

(** Every appointment carries one of the ids generated so far. *)
Definition appointmentsNumbered (st : State) : Prop :=
  ∀ id a, appointments st !! id = Some a →
    ∃ k : nat, (k < size (appointments st))%nat
               ∧ appointmentId a = Some (generateAppointmentId k).

(** *** Scenarios *)

Definition noChange : UpdateBody :=
  {| ub_patientId := None; ub_doctorId := None; ub_date := None; ub_time := None;
     ub_type := None; ub_status := None; ub_symptoms := None; ub_notes := None;
     ub_fee := None; ub_isPaid := None; ub_cancelReason := None |}.

(** A body that sets [status] and nothing else. *)
Definition statusOnly (s : AppointmentStatus) : UpdateBody :=
  {| ub_patientId := None; ub_doctorId := None; ub_date := None; ub_time := None;
     ub_type := None; ub_status := Some s; ub_symptoms := None; ub_notes := None;
     ub_fee := None; ub_isPaid := None; ub_cancelReason := None |}.

(** A body that sets [time] and nothing else. *)
Definition timeOnly (t : string) : UpdateBody :=
  {| ub_patientId := None; ub_doctorId := None; ub_date := None; ub_time := Some t;
     ub_type := None; ub_status := None; ub_symptoms := None; ub_notes := None;
     ub_fee := None; ub_isPaid := None; ub_cancelReason := None |}.

Definition stateServed (rqs : list Request) : State :=
  match serveAll utc rqs clinic with
  | Some st => st
  | None => clinic
  end.

(** Patient 1 books 09:00 and cancels; patient 2 books 09:00. *)
Definition rebooked : list Request :=
  [Create 100 (nineOClock 1); Cancel 100 1 (Some "Travelling");
   Create 101 (nineOClock 2)].

(** Patient 2 then moves to 09:30. *)
Definition movedLater : list Request := rebooked ++ [Update 101 (timeOnly "09:30")].

Definition appointmentServed (rqs : list Request) (id : Id) : Appointment :=
  default noAppointment (appointments (stateServed rqs) !! id).

End Calendar.

(** ** The counts of the bed and IPD controllers *)

Module Census.
Import Ward.

(** [Bed.countDocuments({ status })] *)
Definition bedsWith (s : BedStatus) (m : gmap nat Bed) : nat :=
  size (filter (λ kb, status kb.2 = s) m).

(** The counts in the answer of [getBedStats]; [occupancyRate] and
    [byWardType], which are made from the same documents, are left out. *)
Record BedStats : Type := {
  bs_total : nat;
  bs_available : nat;
  bs_occupied : nat;
  bs_maintenance : nat
}.

Definition getBedStats (st : State) : BedStats :=
  {| bs_total := size (beds st);
     bs_available := bedsWith AVAILABLE (beds st);
     bs_occupied := bedsWith OCCUPIED (beds st);
     bs_maintenance := bedsWith MAINTENANCE (beds st) |}.

(** [{ $gte: new Date(new Date().setHours(0, 0, 0, 0)),
       $lte: new Date(new Date().setHours(23, 59, 59, 999)) }], all taken at
    the instant [now]. *)
Definition today (env : Scheduling.Env) (now d : Z) : bool :=
  bool_decide (Scheduling.startOfDay env now ≤ d ∧ d ≤ Scheduling.endOfDay env now)%Z.

Definition dischargedToday_query (env : Scheduling.Env) (now : Z) (r : IPDRecord) : bool :=
  bool_decide (ipdStatus r = DISCHARGED)
  && match dischargeDate r with
     | Some d => today env now d
     | None => false
     end.

Record IPDStats : Type := {
  currentlyAdmitted : nat;
  admittedToday : nat;
  dischargedToday : nat
}.

Definition getIPDStats (env : Scheduling.Env) (now : Z) (st : State) : IPDStats :=
  {| currentlyAdmitted := size (filter (λ kr, ipdStatus kr.2 = ADMITTED) (records st));
     admittedToday :=
       size (filter (λ kr, today env now (admissionDate kr.2) = true) (records st));
     dischargedToday :=
       size (filter (λ kr, dischargedToday_query env now kr.2 = true) (records st)) |}.

End Census.

(** ** Requests in flight *)

(** A handler is a sequence of round trips to the store, one per [await].
    The store serves a round trip at once; between two round trips of one
    request it may serve round trips of other requests. *)

Module InFlight.

(** What the client is told: the handler's 2xx answer, one of its refusals,
    or what the error middleware makes of an error of the library that the
    handler does not catch. *)
Inductive Reply : Type :=
| Success
| Refusal (f : Failure)
| ServerError.

Section Task.
Context {S : Type}.

(** A request in flight: its answer, or its next round trip.  On a store
    [st] the round trip leaves the store [write st] and the request goes on
    as [next st]. *)
Inductive Task : Type :=
| Answer (r : Reply)
| Await (write : S → S) (next : S → Task).

(** A query. *)
Definition read (next : S → Task) : Task := Await (λ st, st) next.

(** A write that the store accepts or refuses. *)
Definition commit (w : S → Result S) (next : Task) : Task :=
  Await (λ st, match w st with Ok st' => st' | Err _ => st end)
        (λ st, match w st with Ok _ => next | Err f => Answer (Refusal f) end).

(** A write that fails with an error of the library. *)
Definition attempt (w : S → option S) (next : Task) : Task :=
  Await (λ st, default st (w st))
        (λ st, match w st with Some _ => next | None => Answer ServerError end).

(** The request served with no round trip of another request in between. *)
Fixpoint alone (t : Task) (st : S) : S * Reply :=
  match t with
  | Answer r => (st, r)
  | Await write next => alone (next st) (write st)
  end.

(** Requests served one at a time, in the order given. *)
Fixpoint inTurn (ts : list Task) (st : S) : S * list Reply :=
  match ts with
  | [] => (st, [])
  | t :: ts' =>
    let '(st1, r) := alone t st in
    let '(st2, rs) := inTurn ts' st1 in
    (st2, r :: rs)
  end.

(** One round trip of the [i]-th request in flight. *)
Definition tick (i : nat) (ts : list Task) (st : S) : S * list Task :=
  match ts !! i with
  | Some (Await write next) => (write st, <[i := next st]> ts)
  | _ => (st, ts)
  end.

(** The round trips served in the order of [schedule]. *)
Fixpoint interleave (schedule : list nat) (ts : list Task) (st : S) : S * list Task :=
  match schedule with
  | [] => (st, ts)
  | i :: schedule' => let '(st', ts') := tick i ts st in interleave schedule' ts' st'
  end.

Definition answer (t : Task) : option Reply :=
  match t with
  | Answer r => Some r
  | Await _ _ => None
  end.

(** The answer and the store of a handler of the model in which a request
    is one step. *)
Definition served (r : Result S) (st : S) : S * Reply :=
  match r with
  | Ok st' => (st', Success)
  | Err f => (st, Refusal f)
  end.

End Task.
Global Arguments Task : clear implicits.

End InFlight.

(** ** The bed and IPD controllers, round trip by round trip *)

Module WardInFlight.
Import Ward InFlight.

#[local] Instance DischargeSummary_eq_dec : EqDecision DischargeSummary.
Proof. solve_decision. Defined.

(** [doc.save()] of a loaded document writes the paths whose value the
    handler has changed, and leaves the others as they are stored. *)
Definition modified {A} `{EqDecision A} (loaded assigned stored : A) : A :=
  if decide (assigned = loaded) then stored else assigned.

(** The handlers assign [status], [currentPatient] and [notes] of a bed. *)
Definition savedBed (loaded assigned stored : Bed) : Bed :=
  {| bedNumber := bedNumber stored; ward := ward stored;
     wardType := wardType stored; floor := floor stored;
     status := modified (status loaded) (status assigned) (status stored);
     currentPatient :=
       modified (currentPatient loaded) (currentPatient assigned)
         (currentPatient stored);
     dailyRate := dailyRate stored; facilities := facilities stored;
     lastCleanedAt := lastCleanedAt stored;
     notes := modified (notes loaded) (notes assigned) (notes stored) |}.

(** [bed.save()]; an error of the library when the bed is stored no more. *)
Definition saveBed (id : Id) (loaded assigned : Bed) (st : State) : option State :=
  match beds st !! id with
  | Some stored =>
    Some (withBeds st (<[id := savedBed loaded assigned stored]> (beds st)))
  | None => None
  end.

(** The handlers assign [status], [dischargeDate], [dischargeSummary] and
    [bedId] of a stay, the hook its [recordId]; what they push goes to the
    end of the stored notes. *)
Definition savedRecord (loaded assigned stored : IPDRecord)
    (pushed : list TreatmentNote) : IPDRecord :=
  {| recordId := modified (recordId loaded) (recordId assigned) (recordId stored);
     patientId := patientId stored; doctorId := doctorId stored;
     bedId := modified (bedId loaded) (bedId assigned) (bedId stored);
     admissionDate := admissionDate stored;
     dischargeDate :=
       modified (dischargeDate loaded) (dischargeDate assigned) (dischargeDate stored);
     admissionReason := admissionReason stored; diagnosis := diagnosis stored;
     ipdStatus := modified (ipdStatus loaded) (ipdStatus assigned) (ipdStatus stored);
     treatmentNotes := treatmentNotes stored ++ pushed;
     dischargeSummary :=
       modified (dischargeSummary loaded) (dischargeSummary assigned)
         (dischargeSummary stored) |}.

Definition saveRecord (id : Id) (loaded assigned : IPDRecord)
    (pushed : list TreatmentNote) (st : State) : option State :=
  match records st !! id with
  | Some stored =>
    Some {| patients := patients st; beds := beds st;
            records := <[id := savedRecord loaded assigned stored pushed]> (records st) |}
  | None => None
  end.

(** [if (!this.recordId)] of the hook. *)
Definition lacksRecordId (r : IPDRecord) : bool :=
  match recordId r with
  | Some i => negb (nonEmpty i)
  | None => true
  end.

(** [record.save()]: the hook counts the stays, in a round trip of its own,
    only for a stay without record id. *)
Definition saveRecordTask (id : Id) (loaded assigned : IPDRecord)
    (pushed : list TreatmentNote) (next : Task State) : Task State :=
  if lacksRecordId assigned
  then read (λ st,
         attempt (saveRecord id loaded (ipdPreSave (size (records st)) assigned) pushed)
           next)
  else attempt (saveRecord id loaded assigned pushed) next.

(** [Bed.create(req.body)]: the validators, then the insert. *)
Definition createBedTask (newId : Id) (body : BedBody) : Task State :=
  commit (createBed newId body) (Answer Success).

(** [Bed.findByIdAndUpdate(id, req.body, { runValidators: true })]: the
    validators run first; no bed under the id is no error, [data] is null
    then. *)
Definition findBedAndUpdate (id : Id) (body : BedBody) (st : State) : Result State :=
  if negb (validBedBody body) then Err ValidationFailed
  else
    match beds st !! id with
    | None => Ok st
    | Some bed =>
      if match bb_bedNumber body with
         | Some n => bedNumberTaken n (delete id (beds st))
         | None => false
         end
      then Err DuplicateKey
      else Ok (withBeds st (<[id := applyBedBody body bed]> (beds st)))
    end.

Definition updateBedTask (id : Id) (body : BedBody) : Task State :=
  (* Bed.findById *)
  read (λ st,
    match beds st !! id with
    | None => Answer (Refusal BedNotFound)
    | Some _ => commit (findBedAndUpdate id body) (Answer Success)
    end).

Definition deleteBedTask (id : Id) : Task State :=
  (* Bed.findById *)
  read (λ st,
    match beds st !! id with
    | None => Answer (Refusal BedNotFound)
    | Some bed =>
      if bool_decide (status bed = OCCUPIED)
      then Answer (Refusal CannotDeleteOccupiedBed)
      else
        (* bed.deleteOne() *)
        Await (λ st, withBeds st (delete id (beds st))) (λ _, Answer Success)
    end).

Definition markMaintenanceTask (id : Id) (bodyNotes : option string) : Task State :=
  (* Bed.findById *)
  read (λ st,
    match beds st !! id with
    | None => Answer (Refusal BedNotFound)
    | Some bed =>
      if bool_decide (status bed = OCCUPIED)
      then Answer (Refusal CannotMaintainOccupiedBed)
      else attempt (saveBed id bed (maintain bodyNotes bed)) (Answer Success)
    end).

(** The document [IPDRecord.create] builds. *)
Definition newRecord (now : Z) (req : AdmitRequest) (doctor : Id) (reason : string)
    : IPDRecord :=
  {| recordId := None;
     patientId := ar_patientId req;
     doctorId := doctor;
     bedId := ar_bedId req;
     admissionDate := now;
     dischargeDate := None;
     admissionReason := reason;
     diagnosis := ar_diagnosis req;
     ipdStatus := ADMITTED;
     treatmentNotes := [];
     dischargeSummary := None |}.

(** The insert, with the unique indexes on [_id] and [recordId]. *)
Definition insertRecord (newId : Id) (record : IPDRecord) (st : State) : Result State :=
  if bool_decide (is_Some (records st !! newId))
     || recordIdTaken (recordId record) (records st)
  then Err DuplicateKey
  else Ok {| patients := patients st; beds := beds st;
             records := <[newId := record]> (records st) |}.

Definition admitPatientTask (now : Z) (newId : Id) (req : AdmitRequest) : Task State :=
  (* Patient.findById *)
  read (λ st,
    if negb (bool_decide (ar_patientId req ∈ patients st))
    then Answer (Refusal PatientNotFound)
    else
  (* Bed.findById *)
  read (λ st,
    match beds st !! ar_bedId req with
    | None => Answer (Refusal BedNotFound)
    | Some bed =>
      if negb (bool_decide (status bed = AVAILABLE))
      then Answer (Refusal BedNotAvailable)
      else
  (* IPDRecord.findOne *)
  read (λ st,
    if bool_decide (admittedStayOf (ar_patientId req) (records st))
    then Answer (Refusal PatientAlreadyAdmitted)
    else
      (* IPDRecord.create: the validators, *)
      match ar_doctorId req, ar_admissionReason req with
      | Some doctor, Some reason =>
        if negb (nonEmpty reason) then Answer (Refusal ValidationFailed)
        else
  (* the hook, which counts the stays, *)
  read (λ st,
    let record := ipdPreSave (size (records st)) (newRecord now req doctor reason) in
  (* and the insert *)
  commit (insertRecord newId record)
  (* bed.save() *)
  (attempt (saveBed (ar_bedId req) bed (assign (ar_patientId req) bed))
  (* IPDRecord.findById(record._id).populate(..) *)
  (read (λ _, Answer Success))))
      | _, _ => Answer (Refusal ValidationFailed)
      end)
    end)).

Definition dischargePatientTask (now : Z) (id : Id) (summary : option DischargeSummary)
    : Task State :=
  (* IPDRecord.findById *)
  read (λ st,
    match records st !! id with
    | None => Answer (Refusal IPDRecordNotFound)
    | Some record =>
      if negb (bool_decide (ipdStatus record = ADMITTED))
      then Answer (Refusal NotCurrentlyAdmitted)
      else
        (* record.save() *)
        saveRecordTask id record (discharged now summary record) []
        (* Bed.findByIdAndUpdate(record.bedId, ..) *)
        (Await (λ st, withBeds st (alter release (bedId record) (beds st)))
               (λ _, Answer Success))
    end).

(** The note [transferPatient] pushes; see [transferred]. *)
Definition transferNote (now : Z) (user newBedId : Id) : TreatmentNote :=
  {| tn_date := now;
     note := "Patient transferred from bed " +:+ pretty newBedId
             +:+ " to bed " +:+ pretty newBedId;
     addedBy := user |}.

Definition transferPatientTask (now : Z) (id user newBedId : Id) : Task State :=
  (* IPDRecord.findById *)
  read (λ st,
    match records st !! id with
    | None => Answer (Refusal IPDRecordNotFound)
    | Some record =>
  (* Bed.findById *)
  read (λ st,
    match beds st !! newBedId with
    | None => Answer (Refusal NewBedNotAvailable)
    | Some newBed =>
      if negb (bool_decide (status newBed = AVAILABLE))
      then Answer (Refusal NewBedNotAvailable)
      else
  (* Bed.findByIdAndUpdate(record.bedId, ..) *)
  Await (λ st, withBeds st (alter release (bedId record) (beds st)))
    (λ _,
  (* newBed.save() *)
  attempt (saveBed newBedId newBed (assign (patientId record) newBed))
  (* record.save() *)
  (saveRecordTask id record (transferred now user newBedId record)
     [transferNote now user newBedId] (Answer Success)))
    end)
    end).

Definition task (op : Op) : Task State :=
  match op with
  | CreateBed newId body => createBedTask newId body
  | UpdateBed id body => updateBedTask id body
  | DeleteBed id => deleteBedTask id
  | MarkMaintenance id bodyNotes => markMaintenanceTask id bodyNotes
  | AdmitPatient now newId req => admitPatientTask now newId req
  | DischargePatient now id summary => dischargePatientTask now id summary
  | TransferPatient now id user newBedId => transferPatientTask now id user newBedId
  end.

(** The store after the requests [ops], served one at a time. *)
Definition afterInTurn (ops : list Op) (st : State) : State :=
  (inTurn (task <$> ops) st).1.

(** [allow] holds of every request of [ops] on the store it is served on. *)
Fixpoint allowedInTurn (allow : State → Op → bool) (ops : list Op) (st : State) : bool :=
  match ops with
  | [] => true
  | op :: ops' => allow st op && allowedInTurn allow ops' (alone (task op) st).1
  end.

(** *** The requests that keep beds and stays coupled *)

(** A bed that is OCCUPIED exactly when it names an occupant. *)
Definition occupancyOk (b : Bed) : bool :=
  bool_decide (status b = OCCUPIED ↔ currentPatient b ≠ None).

(** Written under [id], the bed [b] is OCCUPIED by the patient of every
    ADMITTED stay on the bed [id]. *)
Definition keepsStays (id : Id) (b : Bed) (m : gmap nat IPDRecord) : bool :=
  bool_decide (map_Forall (λ _ r, ipdStatus r = ADMITTED → bedId r = id →
                             status b = OCCUPIED
                             ∧ currentPatient b = Some (patientId r)) m).

(** No ADMITTED stay but the stay [id] itself lies on the bed [bed]. *)
Definition onlyStayOn (id bed : Id) (m : gmap nat IPDRecord) : bool :=
  bool_decide (map_Forall (λ j r, ipdStatus r = ADMITTED → bedId r = bed → j = id) m).

(** createBed and updateBed write a bed that is OCCUPIED exactly when it
    names an occupant, updateBed leaves the bed of an ADMITTED stay OCCUPIED
    by its patient, and transfer does not free a bed that another ADMITTED
    stay lies on. *)
Definition allowed (st : State) (op : Op) : bool :=
  match op with
  | CreateBed _ body =>
    bool_decide (default AVAILABLE (bb_status body) = OCCUPIED
                 ↔ default None (bb_currentPatient body) ≠ None)
  | UpdateBed id body =>
    match beds st !! id with
    | Some bed =>
      occupancyOk (applyBedBody body bed)
      && keepsStays id (applyBedBody body bed) (records st)
    | None => true
    end
  | TransferPatient _ id _ _ =>
    match records st !! id with
    | Some r => onlyStayOn id (bedId r) (records st)
    | None => true
    end
  | _ => true
  end.

(** *** Scenarios *)

(** A body that sets [status] and nothing else. *)
Definition statusBody (s : BedStatus) : BedBody :=
  {| bb_bedNumber := None; bb_ward := None; bb_wardType := None; bb_floor := None;
     bb_status := Some s; bb_currentPatient := None; bb_dailyRate := None;
     bb_facilities := None; bb_lastCleanedAt := None; bb_notes := None |}.

(** Bed B-1 is created under maintenance and put in service by an update;
    patient 1 is admitted to it, moved to B-2 and discharged; the closed
    stay is then moved back to B-1. *)
Definition wardRound : list Op :=
  [CreateBed 10 (bedBody "B-1" (Some MAINTENANCE));
   UpdateBed 10 (statusBody AVAILABLE);
   CreateBed 11 (bedBody "B-2" (Some AVAILABLE));
   AdmitPatient 1000 50 (admission 1 10);
   TransferPatient 1500 50 99 11;
   DischargePatient 2000 50 None;
   TransferPatient 2500 50 99 10].

(** Two admissions to bed B-1, of patients 1 and 2. *)
Definition twoAdmissions : list Op :=
  [AdmitPatient 1000 50 (admission 1 10); AdmitPatient 1001 51 (admission 2 10)].

(** Both requests read the bed and look for a stay of their patient before
    either creates its stay. *)
Definition overlapping : list nat :=
  [0; 0; 0; 1; 1; 1; 0; 0; 1; 1; 0; 1; 0; 1]%nat.

Definition afterOverlap : State * list (Task State) :=
  interleave overlapping (task <$> twoAdmissions) (stateAfter bedCreated).

End WardInFlight.

(** ** [createAppointment], round trip by round trip *)

Module BookingInFlight.
Import Scheduling InFlight.

(** The document [Appointment.create] builds, with the id of the hook. *)
Definition newAppointment (count : nat) (req : CreateRequest) (doctor : Doctor)
    : Appointment :=
  {| appointmentId := Some (generateAppointmentId count);
     patientId := cr_patientId req;
     doctorId := cr_doctorId req;
     date := cr_date req;
     time := cr_time req;
     type := default ConsultationVisit (cr_type req);
     status := SCHEDULED;
     symptoms := cr_symptoms req;
     notes := cr_notes req;
     fee := consultationFee doctor;
     isPaid := false;
     cancelReason := None;
     cancelledBy := None |}.

(** The insert, with the unique indexes on [_id] and [appointmentId]; there
    is no index on the doctor, the date and the time. *)
Definition insertAppointment (newId : Id) (a : Appointment) (st : State)
    : Result State :=
  if bool_decide (is_Some (appointments st !! newId))
     || appointmentIdTaken (appointmentId a) (appointments st)
  then Err DuplicateKey
  else Ok {| patients := patients st; doctors := doctors st;
             appointments := <[newId := a]> (appointments st) |}.

Definition createAppointmentTask (env : Env) (newId : Id) (req : CreateRequest)
    : Task State :=
  (* Patient.findById *)
  read (λ st,
    if negb (bool_decide (cr_patientId req ∈ patients st))
    then Answer (Refusal PatientNotFound)
    else
  (* Doctor.findById *)
  read (λ st,
    match doctors st !! cr_doctorId req with
    | None => Answer (Refusal DoctorNotFound)
    | Some doctor =>
  (* Appointment.findOne *)
  read (λ st,
    if bool_decide (slotTaken env (cr_doctorId req) (cr_date req) (cr_time req)
                      (appointments st))
    then Answer (Refusal SlotAlreadyBooked)
    (* Appointment.create: the validators, *)
    else if negb (nonEmpty (cr_time req)) then Answer (Refusal ValidationFailed)
    else
  (* the hook, which counts the appointments, *)
  read (λ st,
  (* and the insert *)
  commit (insertAppointment newId
            (newAppointment (size (appointments st)) req doctor))
  (* Appointment.findById(appointment._id).populate(..) *)
  (read (λ _, Answer Success))))
    end)).

(** *** Scenarios *)

(** Patients 1 and 2 ask for the 09:00 slot of scenario E. *)
Definition twoBookings : list (Task State) :=
  [createAppointmentTask utc 100 (nineOClock 1);
   createAppointmentTask utc 101 (nineOClock 2)].

(** Both requests look for an appointment on the slot before either creates
    its appointment. *)
Definition overlapping : list nat := [0; 0; 0; 1; 1; 1; 0; 0; 1; 1; 0; 1]%nat.

Definition afterOverlap : State * list (Task State) :=
  interleave overlapping twoBookings clinic.

End BookingInFlight.

(** ** Well-formed time tokens *)

Module Tokens.
Import Scheduling.

(** A string of decimal digits, on which [Number] is the number JavaScript
    reads. *)
Fixpoint digits (s : string) : bool :=
  match s with
  | EmptyString => true
  | String c s' => bool_decide (is_Some (digitValue c)) && digits s'
  end.

(** A token of the form HH:MM: hours and minutes in decimal digits. *)
Definition wellFormed (timeStr : string) : bool :=
  match splitColon timeStr with
  | hours :: minutes :: _ => digits hours && digits minutes
  | _ => false
  end.

End Tokens.

(** * Properties *)

(** ** Billing *)

Module BillingTheory.
Import Billing.
Local Open Scope Qc_scope.

(** Closes an equation between two closed rationals. *)
Ltac qc_compute := apply Qc_is_canon; vm_compute; reflexivity.

(** Decides a closed rational equation or comparison by evaluation. *)
Ltac by_evaluation :=
  match goal with
  | |- ?P => apply (bool_decide_unpack P); vm_compute; exact I
  end.

(** *** What the hook stores *)

Lemma preSave_paidAmount env n b : paidAmount (preSave env n b) = paidAmount b.
Proof. reflexivity. Qed.

Lemma preSave_balance env n b :
  balanceAmount (preSave env n b) = totalAmount (preSave env n b) - paidAmount b.
Proof. reflexivity. Qed.



(** *** The invariant of the collection *)













Example waived_invoice_is_stored_paid :
  let b := billAfter waived 7 emptyBill in
  bills (stateAfter waived) !! 7 = Some b
  ∧ totalAmount b = 0 ∧ paidAmount b = 0 ∧ balanceAmount b = 0
  ∧ paymentStatus b = PAID
  ∧ status_rule7 (paidAmount b) (totalAmount b) = PENDING.
Proof.
  cbv zeta. split; [vm_compute; reflexivity |].
  repeat split; try by_evaluation; vm_compute; reflexivity.
Qed.

(** *** The hook against the reference algorithm *)

Lemma sumTotals_fold l acc :
  fold_left (λ sum service, sum + total service) l acc
  = fold_left Qcplus (total <$> l) acc.
Proof. revert acc. induction l as [| s l IH]; intros acc; cbn; [done | apply IH]. Qed.

Lemma atLeastZero_nonneg x : 0 ≤ x → atLeastZero x = x.
Proof. intros Hx. unfold atLeastZero. by rewrite bool_decide_eq_true_2. Qed.

Lemma lineTotals_unclamped l :
  Forall (λ s, 0 ≤ total s) (map setTotal l) →
  (λ s, atLeastZero (unitPrice s * quantity s - discount s)) <$> l
  = total <$> map setTotal l.
Proof.
  induction l as [| s l IH]; cbn; [done |].
  intros Hl. apply Forall_cons in Hl as [Hs Hl]. cbn in Hs.
  by rewrite atLeastZero_nonneg, IH.
Qed.

(** What the hook stores, with nothing clamped or floored. *)
Lemma preSave_derived env n b :
  let lineTotals := (λ s, unitPrice s * quantity s - discount s) <$> services b in
  let subtotal := fold_left Qcplus lineTotals 0 in
  let taxAmount := subtotal * tax_percentage b / hundred in
  let discountAmount :=
    if bool_decide (0 < discount_percentage b)
    then subtotal * discount_percentage b / hundred
    else discount_amount b in
  derivedOf (preSave env n b)
  = {| d_lineTotals := lineTotals;
       d_subtotal := subtotal;
       d_taxAmount := taxAmount;
       d_discountAmount := discountAmount;
       d_total := subtotal + taxAmount - discountAmount;
       d_balance := subtotal + taxAmount - discountAmount - paidAmount b |}.
Proof.
  cbv zeta. unfold derivedOf, preSave, sumTotals. cbn.
  rewrite sumTotals_fold.
  assert (total <$> map setTotal (services b)
          = (λ s, unitPrice s * quantity s - discount s) <$> services b) as ->.
  { induction (services b) as [| s l IH]; cbn; [done | by rewrite IH]. }
  reflexivity.
Qed.

(** C2, as amended.  Whenever the line totals and the total that the hook
    stores are not negative, the derived fields it stores are those of the
    reference algorithm of section 4.2: line total = unit price x quantity -
    line discount, subtotal = their sum, tax = subtotal x tax percentage /
    100, discount = subtotal x discount percentage / 100 when that percentage
    is positive and the stored discount amount otherwise, total = subtotal +
    tax - discount, balance = total - paid.  The hook itself clamps and
    floors nothing. *)
Theorem preSave_is_reference_when_nothing_is_negative env n b :
  Forall (λ s, 0 ≤ total s) (services (preSave env n b)) →
  0 ≤ totalAmount (preSave env n b) →
  derivedOf (preSave env n b) = recompute_reference b.
Proof.
  intros Hlines Htotal. unfold derivedOf, recompute_reference.
  cbn [preSave services subtotal tax_amount discount_amount totalAmount
       balanceAmount] in *.
  rewrite (lineTotals_unclamped _ Hlines).
  unfold sumTotals in *. rewrite !sumTotals_fold in *.
  by rewrite (atLeastZero_nonneg _ Htotal).
Qed.

(** C2, witness: the invoice of scenario A. *)
Lemma preSave_is_reference_witness :
  derivedOf (preSave env2611 1 (billAfter consultation 7 emptyBill))
  = recompute_reference (billAfter consultation 7 emptyBill).
Proof.
  apply (preSave_is_reference_when_nothing_is_negative env2611 1
           (billAfter consultation 7 emptyBill)).
  - apply (bool_decide_unpack _). vm_compute. exact I.
  - apply (bool_decide_unpack _). vm_compute. exact I.
Defined.

(** C2, counterexample.  On the invoice of scenario A, edited to carry a
    line discount of 600 on a price of 500 and then paid 50, the hook stores
    a line total of -100 where the reference algorithm has 0. *)
Lemma preSave_differs_from_reference_on_over_discount :
  derivedOf (preSave env2611 1 overDiscounted) ≠ recompute_reference overDiscounted.
Proof.
  intros H. apply (f_equal (λ d, this (d_subtotal d))) in H.
  vm_compute in H. discriminate.
Qed.

Example over_discounted_invoice_is_stored_negative :
  ∃ st b,
    runAll env2611 (consultationEdited ++ [AddPayment 7 99 (cash 50)])
      (initial {[1%nat]}) = Ok st
    ∧ bills st !! 7 = Some b
    ∧ b = preSave env2611 1 overDiscounted
    ∧ total <$> services b = [qz (-100)]
    ∧ totalAmount b = qz (-110)
    ∧ d_total (recompute_reference overDiscounted) = 0.
Proof.
  eexists _, _. split; [vm_compute; reflexivity |].
  split; [vm_compute; reflexivity |].
  split; [vm_compute; reflexivity |].
  split; [| split]; try by_evaluation.
Qed.

(** *** [addPayment] *)

Lemma addPayment_rejects_paid env id user req st bill :
  bills st !! id = Some bill → paymentStatus bill = PAID →
  addPayment env id user req st = Err BillAlreadyPaid
  ∧ kind BillAlreadyPaid = InvalidState.
Proof.
  intros Hbill Hpaid. unfold addPayment. rewrite Hbill.
  by rewrite bool_decide_eq_true_2.
Qed.

Lemma addPayment_rejects_excess env id user req st bill :
  bills st !! id = Some bill → paymentStatus bill ≠ PAID →
  balanceAmount bill < pr_amount req →
  addPayment env id user req st = Err (AmountExceedsBalance (balanceAmount bill))
  ∧ kind (AmountExceedsBalance (balanceAmount bill)) = OutOfRange.
Proof.
  intros Hbill Hpaid Hexcess. unfold addPayment. rewrite Hbill.
  rewrite bool_decide_eq_false_2 by done. by rewrite bool_decide_eq_true_2.
Qed.

(** The only bound the handler puts on the amount is the balance; the
    validators then ask, of the amount, only that [paid] stays non-negative. *)
Lemma addPayment_accepts env id user req st bill :
  bills st !! id = Some bill → paymentStatus bill ≠ PAID →
  pr_amount req ≤ balanceAmount bill →
  validBill (recordPayment env user req bill) = true →
  addPayment env id user req st
  = Ok {| patients := patients st;
          bills := <[id := preSave env (size (bills st))
                             (recordPayment env user req bill)]> (bills st) |}.
Proof.
  intros Hbill Hpaid Hle Hvalid. unfold addPayment, save. rewrite Hbill.
  rewrite bool_decide_eq_false_2 by done.
  rewrite bool_decide_eq_false_2 by by apply Qcle_ngt.
  by rewrite Hvalid.
Qed.

Lemma validBill_recordPayment env user req bill :
  validBill (recordPayment env user req bill)
  = forallb validService (services bill)
    && bool_decide (0 ≤ subtotal bill)
    && bool_decide (0 ≤ totalAmount bill)
    && bool_decide (0 ≤ paidAmount bill + pr_amount req).
Proof. reflexivity. Qed.

(** What the handler accepts, exactly. *)
Lemma addPayment_succeeds_iff env id user req st :
  isOk (addPayment env id user req st) = true
  ↔ ∃ bill, bills st !! id = Some bill
            ∧ paymentStatus bill ≠ PAID
            ∧ pr_amount req ≤ balanceAmount bill
            ∧ validBill (recordPayment env user req bill) = true.
Proof.
  unfold addPayment, save. split.
  - destruct (bills st !! id) as [bill |]; [| discriminate].
    case_bool_decide as Hpaid; [discriminate |].
    case_bool_decide as Hexcess; [discriminate |].
    destruct (validBill _) eqn:Hvalid; [| discriminate].
    intros _. exists bill. repeat split; try done. by apply Qcle_ngt.
  - intros (bill & -> & Hpaid & Hle & ->).
    rewrite bool_decide_eq_false_2 by done.
    by rewrite bool_decide_eq_false_2 by by apply Qcle_ngt.
Qed.

(** On an invoice whose stored balance is [total - paid] and whose total the
    hook leaves as it is, an accepted payment of exactly the balance stores a
    balance of 0 and the status PAID. *)
Lemma addPayment_of_the_balance env id user req st st' bill :
  bills st !! id = Some bill →
  balanceAmount bill = totalAmount bill - paidAmount bill →
  pr_amount req = balanceAmount bill →
  totalAmount (preSave env (size (bills st)) (recordPayment env user req bill))
  = totalAmount bill →
  addPayment env id user req st = Ok st' →
  ∃ b', bills st' !! id = Some b'
        ∧ paidAmount b' = totalAmount bill
        ∧ balanceAmount b' = 0
        ∧ paymentStatus b' = PAID.
Proof.
  intros Hbill Hbalance Hamount Hstable. unfold addPayment, save. rewrite Hbill.
  destruct (bool_decide (paymentStatus bill = PAID)); [discriminate |].
  destruct (bool_decide (balanceAmount bill < _)); [discriminate |].
  destruct (negb _); [discriminate |].
  intros [= <-]. eexists. cbn [bills]. rewrite lookup_insert_eq.
  split; [reflexivity |].
  assert (paidAmount bill + pr_amount req = totalAmount bill) as Hpaid.
  { rewrite Hamount, Hbalance. ring. }
  split; [| split].
  - by rewrite preSave_paidAmount.
  - rewrite preSave_balance, Hstable. cbn [recordPayment paidAmount].
    rewrite Hpaid. ring.
  - cbn [preSave totalAmount] in Hstable. cbn [preSave paymentStatus].
    rewrite Hstable. cbn [recordPayment paidAmount]. rewrite Hpaid.
    by rewrite bool_decide_eq_true_2.
Qed.

(** C3, at the failing input.  On the invoice of scenario A (total 550,
    nothing paid, PENDING) a payment of amount 0 is accepted: the payment is
    appended, [paid] stays 0, the balance stays 550 and the status becomes
    PARTIAL. *)
Theorem addPayment_accepts_zero_amount :
  ∃ st' b',
    addPayment env2611 7 99 (cash 0) (stateAfter consultation) = Ok st'
    ∧ bills st' !! 7 = Some b'
    ∧ length (payments b') = 1%nat
    ∧ Forall (λ p, amount p = 0) (payments b')
    ∧ paidAmount b' = 0
    ∧ balanceAmount b' = qz 550
    ∧ paymentStatus b' = PARTIAL.
Proof.
  eexists _, _. split; [vm_compute; reflexivity |].
  split; [vm_compute; reflexivity |].
  split; [reflexivity |].
  split; [| split; [| split]]; by_evaluation.
Qed.

(** Scenario B: paying exactly the balance gives PAID and a balance of 0,
    and the next payment, of any amount, is refused. *)
Example exact_balance_pays_in_full :
  let b := billAfter consultationPaid 7 emptyBill in
  bills (stateAfter consultationPaid) !! 7 = Some b
  ∧ paidAmount b = qz 550 ∧ balanceAmount b = 0 ∧ paymentStatus b = PAID
  ∧ ∀ user req, addPayment env2611 7 user req (stateAfter consultationPaid)
                = Err BillAlreadyPaid.
Proof.
  cbv zeta. split; [vm_compute; reflexivity |].
  split; [by_evaluation |]. split; [by_evaluation |].
  split; [vm_compute; reflexivity |].
  intros user req.
  by apply (addPayment_rejects_paid env2611 7 user req _
              (billAfter consultationPaid 7 emptyBill)); vm_compute.
Qed.

End BillingTheory.

(** ** Beds and inpatient stays *)

Module WardTheory.
Import Ward.

(** *** Reading a bed after a write *)

Lemma ipdPreSave_fields n r :
  patientId (ipdPreSave n r) = patientId r
  ∧ bedId (ipdPreSave n r) = bedId r
  ∧ ipdStatus (ipdPreSave n r) = ipdStatus r
  ∧ dischargeDate (ipdPreSave n r) = dischargeDate r
  ∧ dischargeSummary (ipdPreSave n r) = dischargeSummary r
  ∧ treatmentNotes (ipdPreSave n r) = treatmentNotes r.
Proof. by repeat split. Qed.

(** The bed of an ADMITTED stay is not a bed that is not OCCUPIED. *)
Lemma admitted_bed_is_occupied st rid r i b :
  staysCoupled st → records st !! rid = Some r → ipdStatus r = ADMITTED →
  beds st !! i = Some b → status b ≠ OCCUPIED → bedId r ≠ i.
Proof.
  intros Hc Hr Ha Hb Hs Heq. destruct (Hc _ _ Hr Ha) as (b' & Hb' & Hs' & _).
  rewrite Heq in Hb'. congruence.
Qed.

(** Two ADMITTED stays never share a bed. *)
Lemma admitted_beds_differ st i j r r' :
  staysCoupled st → singleAdmission st →
  records st !! i = Some r → records st !! j = Some r' →
  ipdStatus r = ADMITTED → ipdStatus r' = ADMITTED → i ≠ j →
  bedId r ≠ bedId r'.
Proof.
  intros Hc Hs Hr Hr' Ha Ha' Hij Hbed.
  destruct (Hc _ _ Hr Ha) as (b & Hb & _ & Hp).
  destruct (Hc _ _ Hr' Ha') as (b' & Hb' & _ & Hp').
  apply Hij, (Hs i j r r'); try done. congruence.
Qed.

(** *** Each handler keeps the invariant *)

Lemma initial_invariant ps : wardInvariant (initial ps).
Proof.
  split; [| split].
  - intros id b Hb. cbn in Hb. by rewrite lookup_empty in Hb.
  - intros rid r Hr. cbn in Hr. by rewrite lookup_empty in Hr.
  - intros i j r r' Hr. cbn in Hr. by rewrite lookup_empty in Hr.
Qed.

Lemma createBed_invariant newId body st st' :
  wardInvariant st → keepsOccupancy body = true →
  createBed newId body st = Ok st' → wardInvariant st'.
Proof.
  intros (Ho & Hc & Hs) Hbody. unfold createBed.
  apply andb_true_iff in Hbody as [Hstatus Hpatient].
  apply bool_decide_eq_true in Hstatus, Hpatient.
  destruct (bb_bedNumber body), (bb_ward body), (bb_wardType body),
    (bb_floor body), (bb_dailyRate body); try discriminate.
  destruct (negb _); [discriminate |].
  destruct (bool_decide (is_Some (beds st !! newId))) eqn:Hfresh; [discriminate |].
  apply bool_decide_eq_false in Hfresh. rewrite <- eq_None_not_Some in Hfresh.
  destruct (bedNumberTaken _ _); [discriminate |].
  intros [= <-]. rewrite Hstatus, Hpatient. split; [| split].
  - intros id b Hb. cbn in Hb.
    apply lookup_insert_Some in Hb as [[<- <-] | [Hne Hb]]; [done |].
    by apply (Ho id).
  - intros rid r Hr Ha. cbn in *.
    destruct (Hc _ _ Hr Ha) as (b & Hb & Hrest). exists b. split; [| done].
    rewrite lookup_insert_ne; [done |]. congruence.
  - exact Hs.
Qed.

Lemma applyBedBody_occupancy body b :
  keepsOccupancy body = true →
  status (applyBedBody body b) = status b
  ∧ currentPatient (applyBedBody body b) = currentPatient b.
Proof.
  intros Hbody. apply andb_true_iff in Hbody as [Hstatus Hpatient].
  apply bool_decide_eq_true in Hstatus, Hpatient. cbn.
  by rewrite Hstatus, Hpatient.
Qed.

(** Rewriting the bed under [id] without touching its status or occupant. *)
Lemma rewrite_bed_invariant st id bed bed' :
  wardInvariant st → beds st !! id = Some bed →
  status bed' = status bed → currentPatient bed' = currentPatient bed →
  wardInvariant (withBeds st (<[id := bed']> (beds st))).
Proof.
  intros (Ho & Hc & Hs) Hbed Hstatus Hpatient. split; [| split].
  - intros i b Hb. cbn in Hb.
    apply lookup_insert_Some in Hb as [[<- <-] | [Hne Hb]].
    + rewrite Hstatus, Hpatient. by apply (Ho id).
    + by apply (Ho i).
  - intros rid r Hr Ha. cbn in *.
    destruct (Hc _ _ Hr Ha) as (b & Hb & Hsb & Hpb).
    destruct (decide (id = bedId r)) as [Heq | Hne].
    + exists bed'. rewrite Heq, lookup_insert_eq. split; [done |].
      rewrite Heq in Hbed. assert (b = bed) as -> by congruence.
      by rewrite Hstatus, Hpatient.
    + exists b. by rewrite lookup_insert_ne.
  - exact Hs.
Qed.

Lemma updateBed_invariant id body st st' :
  wardInvariant st → keepsOccupancy body = true →
  updateBed id body st = Ok st' → wardInvariant st'.
Proof.
  intros Hinv Hbody. unfold updateBed.
  destruct (beds st !! id) as [bed |] eqn:Hbed; [| discriminate].
  destruct (negb _); [discriminate |].
  destruct (match bb_bedNumber body with Some _ => _ | None => _ end);
    [discriminate |].
  intros [= <-].
  destruct (applyBedBody_occupancy body bed Hbody) as [Hstatus Hpatient].
  by apply rewrite_bed_invariant with (bed := bed).
Qed.

Lemma deleteBed_invariant id st st' :
  wardInvariant st → deleteBed id st = Ok st' → wardInvariant st'.
Proof.
  intros (Ho & Hc & Hs). unfold deleteBed.
  destruct (beds st !! id) as [bed |] eqn:Hbed; [| discriminate].
  case_bool_decide as Hocc; [discriminate |].
  intros [= <-]. split; [| split].
  - intros i b Hb. cbn in Hb. apply lookup_delete_Some in Hb as [_ Hb].
    by apply (Ho i).
  - intros rid r Hr Ha. cbn in *.
    destruct (Hc _ _ Hr Ha) as (b & Hb & Hrest). exists b. split; [| done].
    rewrite lookup_delete_ne; [done |].
    intros Heq. by apply (admitted_bed_is_occupied st rid r id bed).
  - exact Hs.
Qed.

Lemma markMaintenance_invariant id bodyNotes st st' :
  wardInvariant st → markMaintenance id bodyNotes st = Ok st' → wardInvariant st'.
Proof.
  intros (Ho & Hc & Hs). unfold markMaintenance.
  destruct (beds st !! id) as [bed |] eqn:Hbed; [| discriminate].
  case_bool_decide as Hocc; [discriminate |].
  intros [= <-].
  assert (currentPatient bed = None) as Hnone.
  { destruct (currentPatient bed) as [p |] eqn:Hp; [| done].
    exfalso. apply Hocc, (Ho id bed Hbed). by rewrite Hp. }
  split; [| split].
  - intros i b Hb. cbn in Hb.
    apply lookup_insert_Some in Hb as [[<- <-] | [Hne Hb]].
    + cbn. rewrite Hnone. done.
    + by apply (Ho i).
  - intros rid r Hr Ha. cbn in *.
    destruct (Hc _ _ Hr Ha) as (b & Hb & Hrest). exists b. split; [| done].
    rewrite lookup_insert_ne; [done |].
    intros Heq. by apply (admitted_bed_is_occupied st rid r id bed).
  - exact Hs.
Qed.

Lemma admitPatient_invariant now newId req st st' :
  wardInvariant st → admitPatient now newId req st = Ok st' → wardInvariant st'.
Proof.
  intros (Ho & Hc & Hs). unfold admitPatient.
  destruct (negb (bool_decide (_ ∈ _))); [discriminate |].
  destruct (beds st !! ar_bedId req) as [bed |] eqn:Hbed; [| discriminate].
  destruct (bool_decide (status bed = AVAILABLE)) eqn:Hav; cbn [negb];
    [| discriminate].
  apply bool_decide_eq_true in Hav.
  destruct (bool_decide (admittedStayOf _ _)) eqn:Hadm; [discriminate |].
  apply bool_decide_eq_false in Hadm.
  destruct (ar_doctorId req) as [doctor |]; [| discriminate].
  destruct (ar_admissionReason req) as [reason |]; [| discriminate].
  destruct (negb (nonEmpty reason)); [discriminate |].
  destruct (bool_decide (is_Some (records st !! newId))); [discriminate |].
  cbn [orb]. destruct (recordIdTaken _ _); [discriminate |].
  intros [= <-].
  assert (∀ rid r, records st !! rid = Some r → ipdStatus r = ADMITTED →
            patientId r ≠ ar_patientId req) as Hother.
  { intros rid r Hr Ha Hp. apply Hadm. by exists rid, r. }
  split; [| split].
  - intros i b Hb. cbn in Hb.
    apply lookup_insert_Some in Hb as [[<- <-] | [Hne Hb]]; [done |].
    by apply (Ho i).
  - intros rid r Hr Ha. cbn in Hr.
    apply lookup_insert_Some in Hr as [[<- <-] | [Hne Hr]]; cbn.
    + exists (assign (ar_patientId req) bed). by rewrite lookup_insert_eq.
    + destruct (Hc _ _ Hr Ha) as (b & Hb & Hrest). exists b. split; [| done].
      rewrite lookup_insert_ne; [done |].
      intros Heq.
      apply (admitted_bed_is_occupied st rid r (ar_bedId req) bed);
        [done | done | done | done | by rewrite Hav | done].
  - intros i j r r' Hr Hr' Ha Ha' Hp. cbn in Hr, Hr'.
    apply lookup_insert_Some in Hr as [[<- <-] | [Hi Hr]];
      apply lookup_insert_Some in Hr' as [[<- <-] | [Hj Hr']]; cbn in *.
    + done.
    + by destruct (Hother _ _ Hr' Ha').
    + by destruct (Hother _ _ Hr Ha).
    + by apply (Hs i j r r').
Qed.

Lemma dischargePatient_invariant now id summary st st' :
  wardInvariant st → dischargePatient now id summary st = Ok st' → wardInvariant st'.
Proof.
  intros (Ho & Hc & Hs). unfold dischargePatient.
  destruct (records st !! id) as [record |] eqn:Hrec; [| discriminate].
  destruct (bool_decide (ipdStatus record = ADMITTED)) eqn:Hadm; cbn [negb];
    [| discriminate].
  apply bool_decide_eq_true in Hadm.
  intros [= <-]. split; [| split].
  - intros i b Hb. cbn in Hb.
    apply lookup_alter_Some in Hb as [[<- (b0 & Hb0 & ->)] | [Hne Hb]]; [done |].
    by apply (Ho i).
  - intros rid r Hr Ha. cbn in Hr.
    apply lookup_insert_Some in Hr as [[<- <-] | [Hne Hr]]; [done |].
    destruct (Hc _ _ Hr Ha) as (b & Hb & Hrest). exists b. split; [| done].
    cbn. rewrite lookup_alter_ne; [done |].
    by apply (admitted_beds_differ st id rid record r).
  - intros i j r r' Hr Hr' Ha Ha' Hp. cbn in Hr, Hr'.
    apply lookup_insert_Some in Hr as [[<- <-] | [Hi Hr]]; [done |].
    apply lookup_insert_Some in Hr' as [[<- <-] | [Hj Hr']]; [done |].
    by apply (Hs i j r r').
Qed.

Lemma transferPatient_invariant now id user newBedId st st' record :
  wardInvariant st → records st !! id = Some record →
  ipdStatus record = ADMITTED →
  transferPatient now id user newBedId st = Ok st' → wardInvariant st'.
Proof.
  intros (Ho & Hc & Hs) Hrec Hadm. unfold transferPatient. rewrite Hrec.
  destruct (beds st !! newBedId) as [newBed |] eqn:Hnew; [| discriminate].
  destruct (bool_decide (status newBed = AVAILABLE)) eqn:Hav; cbn [negb];
    [| discriminate].
  apply bool_decide_eq_true in Hav.
  assert (status newBed ≠ OCCUPIED) as Hfree by by rewrite Hav.
  assert (bedId record ≠ newBedId) as Hmove
    by by apply (admitted_bed_is_occupied st id record newBedId newBed).
  intros [= <-]. split; [| split].
  - intros i b Hb. cbn in Hb.
    apply lookup_alter_Some in Hb as [[<- (b0 & Hb0 & ->)] | [Hne Hb]]; [done |].
    apply lookup_alter_Some in Hb as [[<- (b0 & Hb0 & ->)] | [Hne' Hb]]; [done |].
    by apply (Ho i).
  - intros rid r Hr Ha. cbn in Hr.
    apply lookup_insert_Some in Hr as [[<- <-] | [Hne Hr]]; cbn.
    + exists (assign (patientId record) newBed). split; [| done].
      by rewrite lookup_alter_eq, lookup_alter_ne, Hnew.
    + destruct (Hc _ _ Hr Ha) as (b & Hb & Hrest). exists b. split; [| done].
      rewrite !lookup_alter_ne; [done | |].
      * by apply (admitted_beds_differ st id rid record r).
      * intros Heq. by apply (admitted_bed_is_occupied st rid r newBedId newBed).
  - intros i j r r' Hr Hr' Ha Ha' Hp. cbn in Hr, Hr'.
    apply lookup_insert_Some in Hr as [[<- <-] | [Hi Hr]];
      apply lookup_insert_Some in Hr' as [[<- <-] | [Hj Hr']]; cbn in *.
    + done.
    + by apply (Hs id j record r').
    + by apply (Hs i id r record).
    + by apply (Hs i j r r').
Qed.

Lemma run_invariant op st st' :
  wardInvariant st → guarded st op = true → run op st = Ok st' → wardInvariant st'.
Proof.
  intros Hinv Hop.
  destruct op as [newId body | id body | id | id bodyNotes | now newId req
                 | now id summary | now id user newBedId]; cbn in *.
  - by apply createBed_invariant.
  - by apply updateBed_invariant.
  - by apply deleteBed_invariant.
  - by apply markMaintenance_invariant.
  - by apply admitPatient_invariant.
  - by apply dischargePatient_invariant.
  - destruct (records st !! id) as [record |] eqn:Hrec.
    + apply bool_decide_eq_true in Hop. by apply transferPatient_invariant with record.
    + unfold transferPatient. by rewrite Hrec.
Qed.

Lemma runAll_invariant ops st st' :
  wardInvariant st → guardedAll ops st = true → runAll ops st = Ok st' →
  wardInvariant st'.
Proof.
  revert st. induction ops as [| op ops IH]; intros st Hinv Hops; cbn.
  - by intros [= <-].
  - cbn in Hops. apply andb_true_iff in Hops as [Hop Hops].
    destruct (run op st) as [st1 |] eqn:Hrun; [| discriminate].
    apply IH; [| done]. by eapply run_invariant.
Qed.

(** Completed requests among createBed and updateBed with a body that sets
    neither [status] nor [currentPatient], deleteBed, markMaintenance,
    admission, discharge, and transfer of a stay that is ADMITTED keep every
    patient to a single ADMITTED stay. *)
Lemma single_admission_on_guarded_runs ops ps st :
  guardedAll ops (initial ps) = true →
  runAll ops (initial ps) = Ok st →
  singleAdmission st.
Proof.
  intros Hops Hrun.
  by destruct (runAll_invariant ops (initial ps) st (initial_invariant ps) Hops Hrun)
    as (_ & _ & Hs).
Qed.

(** C5, counterexample.  [createBed] hands the body to the model as it
    comes: a bed created with [status: 'OCCUPIED'] is OCCUPIED with a null
    occupant. *)
Lemma coupling_fails_on_bed_created_occupied :
  ¬ (∀ ops ps st,
       forallb listed ops = true →
       runAll ops (initial ps) = Ok st →
       coupled st).
Proof.
  intros H.
  destruct (H createdOccupied {[1%nat; 2%nat]} (stateAfter createdOccupied))
    as [Ho _].
  - reflexivity.
  - vm_compute; reflexivity.
  - assert (beds (stateAfter createdOccupied) !! 10%nat
            = Some (bedAfter createdOccupied 10)) as Hbed
      by (vm_compute; reflexivity).
    apply Ho in Hbed as [Hocc _]. by apply Hocc.
Qed.

(** *** The guards and effects of the handlers *)

(** C4.  For an existing patient and an existing bed, [admitPatient] answers
    'Bed is not available' (a Conflict) when the bed is not AVAILABLE, and
    answers with a Conflict when the patient already has an ADMITTED stay
    ('Patient is already admitted' when the bed is AVAILABLE); otherwise, for
    a body that names a doctor and a non-empty reason and an insert that the
    unique indexes accept, it stores a stay in ADMITTED state for that
    patient, doctor and bed, and the bed is OCCUPIED with the patient as
    occupant. *)
Theorem admitPatient_guards_and_effect now newId req st bed :
  ar_patientId req ∈ patients st →
  beds st !! ar_bedId req = Some bed →
  (status bed ≠ AVAILABLE →
     admitPatient now newId req st = Err BedNotAvailable
     ∧ kind BedNotAvailable = Conflict)
  ∧ (admittedStayOf (ar_patientId req) (records st) →
     ∃ f, admitPatient now newId req st = Err f ∧ kind f = Conflict
          ∧ (status bed = AVAILABLE → f = PatientAlreadyAdmitted))
  ∧ (status bed = AVAILABLE →
     ¬ admittedStayOf (ar_patientId req) (records st) →
     ∀ doctor reason,
       ar_doctorId req = Some doctor →
       ar_admissionReason req = Some reason → reason ≠ "" →
       records st !! newId = None →
       recordIdTaken (Some (generateRecordId (size (records st)))) (records st)
       = false →
       ∃ st' r b,
         admitPatient now newId req st = Ok st'
         ∧ records st' !! newId = Some r
         ∧ ipdStatus r = ADMITTED
         ∧ patientId r = ar_patientId req
         ∧ doctorId r = doctor
         ∧ bedId r = ar_bedId req
         ∧ admissionReason r = reason
         ∧ beds st' !! ar_bedId req = Some b
         ∧ status b = OCCUPIED
         ∧ currentPatient b = Some (ar_patientId req)).
Proof.
  intros Hpatient Hbed. unfold admitPatient.
  rewrite (bool_decide_eq_true_2 _ Hpatient), Hbed. cbn [negb].
  split; [| split].
  - intros Hav. by rewrite bool_decide_eq_false_2.
  - intros Hadm. destruct (decide (status bed = AVAILABLE)) as [Hav | Hav].
    + exists PatientAlreadyAdmitted.
      rewrite (bool_decide_eq_true_2 _ Hav). cbn [negb].
      by rewrite (bool_decide_eq_true_2 _ Hadm).
    + exists BedNotAvailable. by rewrite bool_decide_eq_false_2.
  - intros Hav Hadm doctor reason -> -> Hreason Hfresh Hrecord.
    rewrite (bool_decide_eq_true_2 _ Hav). cbn [negb].
    rewrite (bool_decide_eq_false_2 _ Hadm).
    unfold nonEmpty. rewrite (bool_decide_eq_false_2 _ Hreason). cbn [negb].
    rewrite bool_decide_eq_false_2 by (rewrite Hfresh; by intros [? ?]).
    cbn [orb ipdPreSave recordId]. rewrite Hrecord.
    eexists _, _, _. split; [reflexivity |]. cbn.
    rewrite !lookup_insert_eq. by repeat split.
Qed.

(** C4, witness: scenario C, patient 1 admitted to the AVAILABLE bed B-1. *)
Lemma admitPatient_witness :
  ∃ st' r b,
    admitPatient 1000 50 (admission 1 10) (stateAfter bedCreated) = Ok st'
    ∧ records st' !! 50%nat = Some r
    ∧ ipdStatus r = ADMITTED
    ∧ patientId r = 1%nat
    ∧ doctorId r = 3%nat
    ∧ bedId r = 10%nat
    ∧ admissionReason r = "Observation"
    ∧ beds st' !! 10%nat = Some b
    ∧ status b = OCCUPIED
    ∧ currentPatient b = Some 1%nat.
Proof.
  destruct (admitPatient_guards_and_effect 1000 50 (admission 1 10)
              (stateAfter bedCreated) (bedAfter bedCreated 10))
    as (_ & _ & Hadmit).
  - apply (bool_decide_unpack _). vm_compute. exact I.
  - vm_compute; reflexivity.
  - apply (Hadmit eq_refl) with (doctor := 3%nat) (reason := "Observation").
    + intros (i & r & Hr & _). vm_compute in Hr. discriminate.
    + reflexivity.
    + reflexivity.
    + discriminate.
    + vm_compute; reflexivity.
    + vm_compute; reflexivity.
Defined.

(** Scenario C, the second admission to the same bed is refused. *)
Example second_admission_to_the_bed_is_refused :
  admitPatient 1001 51 (admission 2 10) (stateAfter stayOpened) = Err BedNotAvailable.
Proof. vm_compute; reflexivity. Qed.

(** C6.  [dischargePatient] on an existing stay answers 'Patient is not
    currently admitted' (an InvalidState) when the stay is not ADMITTED;
    otherwise the stay becomes DISCHARGED with the discharge date and the
    summary of the request, and the bed it refers to is AVAILABLE with a
    null occupant. *)
Theorem dischargePatient_guard_and_effect now id summary st record :
  records st !! id = Some record →
  (ipdStatus record ≠ ADMITTED →
     dischargePatient now id summary st = Err NotCurrentlyAdmitted
     ∧ kind NotCurrentlyAdmitted = InvalidState)
  ∧ (ipdStatus record = ADMITTED →
     ∃ st' record',
       dischargePatient now id summary st = Ok st'
       ∧ records st' !! id = Some record'
       ∧ ipdStatus record' = DISCHARGED
       ∧ dischargeDate record' = Some now
       ∧ dischargeSummary record' = summary
       ∧ patientId record' = patientId record
       ∧ bedId record' = bedId record
       ∧ (∀ bed, beds st !! bedId record = Some bed →
            ∃ bed', beds st' !! bedId record = Some bed'
                    ∧ status bed' = AVAILABLE ∧ currentPatient bed' = None)).
Proof.
  intros Hrec. unfold dischargePatient. rewrite Hrec. split.
  - intros Hadm. by rewrite bool_decide_eq_false_2.
  - intros Hadm. rewrite (bool_decide_eq_true_2 _ Hadm). cbn [negb].
    eexists _, _. split; [reflexivity |]. cbn.
    rewrite lookup_insert_eq. repeat split; try done.
    intros bed Hbed. exists (release bed).
    by rewrite lookup_alter_eq, Hbed.
Qed.

(** C6, witness: scenario D, the stay of scenario C is discharged. *)
Lemma dischargePatient_witness :
  ∃ st' record',
    dischargePatient 2000 50 None (stateAfter stayOpened) = Ok st'
    ∧ records st' !! 50%nat = Some record'
    ∧ ipdStatus record' = DISCHARGED
    ∧ dischargeDate record' = Some 2000%Z
    ∧ (∃ bed', beds st' !! 10%nat = Some bed'
               ∧ status bed' = AVAILABLE ∧ currentPatient bed' = None).
Proof.
  destruct (dischargePatient_guard_and_effect 2000 50 None (stateAfter stayOpened)
              (recordAfter stayOpened 50)) as [_ Hdischarge].
  - vm_compute; reflexivity.
  - destruct (Hdischarge eq_refl)
      as (st' & record' & Hrun & Hrec & Hst & Hdate & _ & _ & _ & Hbed).
    exists st', record'. repeat split; try done.
    apply (Hbed (bedAfter stayOpened 10)). vm_compute; reflexivity.
Defined.




(** Scenario F: the bed is deleted once the stay is discharged. *)
Example bed_is_deleted_after_discharge :
  deleteBed 10 (stateAfter stayOpened) = Err CannotDeleteOccupiedBed
  ∧ isOk (deleteBed 10 (stateAfter stayClosed)) = true.
Proof. split; vm_compute; reflexivity. Qed.




End WardTheory.

(** ** Appointments and slots *)

Module SchedulingTheory.
Import Scheduling.
Local Open Scope Z_scope.

(** *** Days *)

Lemma in_day_iff env d x :
  startOfDay env d ≤ x ∧ x ≤ endOfDay env d ↔ sameDay env x d.
Proof.
  unfold endOfDay, startOfDay, sameDay, dayMs.
  pose proof (Z.div_mod (d + utcOffset env) 86400000 ltac:(lia)) as Hd.
  pose proof (Z.mod_pos_bound (d + utcOffset env) 86400000 ltac:(lia)) as Hdr.
  pose proof (Z.div_mod (x + utcOffset env) 86400000 ltac:(lia)) as Hx.
  pose proof (Z.mod_pos_bound (x + utcOffset env) 86400000 ltac:(lia)) as Hxr.
  split; intros H; lia.
Qed.

Lemma bookedOn_iff env doctor d a :
  bookedOn env doctor d a
  ↔ doctorId a = doctor ∧ sameDay env (date a) d ∧ active (status a) = true.
Proof.
  unfold bookedOn. rewrite <- in_day_iff. tauto.
Qed.

Lemma sameDay_sym env d1 d2 : sameDay env d1 d2 → sameDay env d2 d1.
Proof. unfold sameDay. congruence. Qed.

(** *** [createAppointment] *)

Lemma createAppointment_refuses env newId req st i a :
  cr_patientId req ∈ patients st →
  is_Some (doctors st !! cr_doctorId req) →
  appointments st !! i = Some a →
  active (status a) = true →
  doctorId a = cr_doctorId req →
  sameDay env (date a) (cr_date req) →
  time a = cr_time req →
  createAppointment env newId req st = Err SlotAlreadyBooked.
Proof.
  intros Hpatient [doctor Hdoctor] Ha Hactive Hdoc Hday Htime.
  unfold createAppointment.
  rewrite (bool_decide_eq_true_2 _ Hpatient), Hdoctor. cbn [negb].
  rewrite bool_decide_eq_true_2; [done |].
  exists i, a. split; [done |]. split; [| done]. by apply bookedOn_iff.
Qed.

Lemma createAppointment_unique env newId req st st' :
  uniqueActive env st → createAppointment env newId req st = Ok st' →
  uniqueActive env st'.
Proof.
  intros Hu. unfold createAppointment.
  destruct (negb (bool_decide (_ ∈ _))); [discriminate |].
  destruct (doctors st !! cr_doctorId req) as [doctor |]; [| discriminate].
  destruct (bool_decide (slotTaken _ _ _ _ _)) eqn:Htaken; [discriminate |].
  apply bool_decide_eq_false in Htaken.
  destruct (negb (nonEmpty _)); [discriminate |].
  destruct (bool_decide (is_Some _)); [discriminate |]. cbn [orb].
  destruct (appointmentIdTaken _ _); [discriminate |].
  intros [= <-].
  assert (∀ j b, appointments st !! j = Some b → active (status b) = true →
            doctorId b = cr_doctorId req → sameDay env (date b) (cr_date req) →
            time b = cr_time req → False) as Hfree.
  { intros j b Hb Hactive Hdoc Hday Htime. apply Htaken.
    exists j, b. split; [done |]. split; [| done]. by apply bookedOn_iff. }
  intros i j a b Ha Hb Hact Hact' Hdoc Hday Htime. cbn in Ha, Hb.
  apply lookup_insert_Some in Ha as [[<- <-] | [Hi Ha]];
    apply lookup_insert_Some in Hb as [[<- <-] | [Hj Hb]]; cbn in *.
  - done.
  - destruct (Hfree j b); try done; by apply sameDay_sym.
  - by destruct (Hfree i a).
  - by apply (Hu i j a b).
Qed.

(** Served alone, the request answers and writes as the handler does in
    one step. *)
Lemma createAppointment_alone env newId req st :
  InFlight.alone (BookingInFlight.createAppointmentTask env newId req) st
  = InFlight.served (createAppointment env newId req st) st.
Proof.
  cbn. unfold createAppointment.
  destruct (negb (bool_decide (_ ∈ _))); cbn; [done |].
  destruct (doctors st !! cr_doctorId req) as [doctor |]; cbn; [| done].
  destruct (bool_decide (slotTaken _ _ _ _ _)); cbn; [done |].
  destruct (negb (nonEmpty _)); cbn; [done |].
  unfold BookingInFlight.insertAppointment. cbn.
  by destruct (bool_decide (is_Some _) || _).
Qed.

(** C7, as amended.  For an existing patient and doctor, a
    [createAppointment] that is served with no round trip of another request
    between its own (i) is answered 'This time slot is already booked' (a
    Conflict), and writes nothing, whenever an appointment in SCHEDULED or
    CONFIRMED state exists for the same doctor, the same calendar day and the
    same time token; (ii) is not blocked by appointments in COMPLETED,
    NO_SHOW or CANCELLED state: when every appointment on the slot is in one
    of these states, a request with a time token, a fresh document id and a
    free generated id is booked as SCHEDULED; (iii) never adds a second
    SCHEDULED or CONFIRMED appointment to a doctor, day and time token: if
    such appointments are unique before, they are unique after. *)
Theorem createAppointment_keeps_active_slots_unique env newId req st doctor :
  cr_patientId req ∈ patients st →
  doctors st !! cr_doctorId req = Some doctor →
  (∀ i a,
     appointments st !! i = Some a →
     active (status a) = true →
     doctorId a = cr_doctorId req →
     sameDay env (date a) (cr_date req) →
     time a = cr_time req →
     InFlight.alone (BookingInFlight.createAppointmentTask env newId req) st
     = (st, InFlight.Refusal SlotAlreadyBooked)
     ∧ kind SlotAlreadyBooked = Conflict)
  ∧ ((∀ i a,
        appointments st !! i = Some a →
        doctorId a = cr_doctorId req →
        sameDay env (date a) (cr_date req) →
        time a = cr_time req →
        status a = COMPLETED ∨ status a = NO_SHOW ∨ status a = CANCELLED) →
     nonEmpty (cr_time req) = true →
     appointments st !! newId = None →
     appointmentIdTaken (Some (generateAppointmentId (size (appointments st))))
       (appointments st) = false →
     InFlight.alone (BookingInFlight.createAppointmentTask env newId req) st
     = ({| patients := patients st; doctors := doctors st;
           appointments :=
             <[newId := BookingInFlight.newAppointment (size (appointments st))
                          req doctor]> (appointments st) |},
        InFlight.Success))
  ∧ (∀ st' r,
       uniqueActive env st →
       InFlight.alone (BookingInFlight.createAppointmentTask env newId req) st
       = (st', r) →
       uniqueActive env st').
Proof.
  intros Hpatient Hdoctor. rewrite createAppointment_alone. split_and!.
  - intros i a Ha Hactive Hdoc Hday Htime. split; [| done].
    by rewrite (createAppointment_refuses env newId req st i a).
  - intros Hdone Htoken Hnew Hfree. unfold createAppointment.
    rewrite (bool_decide_eq_true_2 _ Hpatient), Hdoctor. cbn [negb].
    rewrite bool_decide_eq_false_2.
    + rewrite Htoken. cbn [negb].
      rewrite (bool_decide_eq_false_2 (is_Some _))
        by (rewrite Hnew; by intros [? ?]).
      cbn [orb]. by rewrite Hfree.
    + intros (i & a & Ha & Hbooked & Htime).
      apply bookedOn_iff in Hbooked as (Hdoc & Hday & Hactive).
      destruct (Hdone i a Ha Hdoc Hday Htime) as [Hs | [Hs | Hs]];
        by rewrite Hs in Hactive.
  - intros st' r Hu.
    destruct (createAppointment env newId req st) as [st1 |] eqn:Hrun; cbn.
    + intros [= <- _]. by apply (createAppointment_unique env newId req st).
    + by intros [= <- _].
Qed.

(** C7, witness: scenario E, the second booking of 09:00 is refused. *)
Lemma createAppointment_witness :
  InFlight.alone (BookingInFlight.createAppointmentTask utc 101 (nineOClock 2))
    (stateAfter booked)
  = (stateAfter booked, InFlight.Refusal SlotAlreadyBooked).
Proof.
  destruct (createAppointment_keeps_active_slots_unique utc 101 (nineOClock 2)
              (stateAfter booked) doctorE) as (Hrefuse & _ & _).
  - apply (bool_decide_unpack _). vm_compute. exact I.
  - vm_compute; reflexivity.
  - apply (Hrefuse 100%nat (appointmentAfter booked 100)).
    + vm_compute; reflexivity.
    + reflexivity.
    + reflexivity.
    + reflexivity.
    + reflexivity.
Defined.

(** C7, counterexample.  Once the 09:00 appointment is COMPLETED, which is
    not cancelled, a second appointment with the same doctor, date and time
    is created: the query of the handler only looks for SCHEDULED and
    CONFIRMED. *)
Lemma createAppointment_books_over_completed :
  ¬ (∀ env newId req st i a,
       cr_patientId req ∈ patients st →
       is_Some (doctors st !! cr_doctorId req) →
       appointments st !! i = Some a →
       status a ≠ CANCELLED →
       doctorId a = cr_doctorId req →
       date a = cr_date req →
       time a = cr_time req →
       ∃ f, createAppointment env newId req st = Err f ∧ kind f = Conflict).
Proof.
  intros H.
  destruct (H utc 101%nat (nineOClock 2) (stateAfter completed) 100%nat
              (appointmentAfter completed 100)) as (f & Hf & _).
  - apply (bool_decide_unpack _). vm_compute. exact I.
  - exists doctorE. vm_compute; reflexivity.
  - vm_compute; reflexivity.
  - vm_compute. discriminate.
  - reflexivity.
  - reflexivity.
  - reflexivity.
  - vm_compute in Hf. discriminate.
Qed.

(** Two bookings of the 09:00 slot of scenario E whose round trips overlap:
    both find the slot free, both are answered with the appointment they
    created, and the doctor has two SCHEDULED appointments on the slot. *)
Lemma overlapping_bookings_share_a_slot :
  InFlight.answer <$> BookingInFlight.afterOverlap.2
  = [Some InFlight.Success; Some InFlight.Success]
  ∧ (∃ a1 a2,
       appointments BookingInFlight.afterOverlap.1 !! 100%nat = Some a1
       ∧ appointments BookingInFlight.afterOverlap.1 !! 101%nat = Some a2
       ∧ status a1 = SCHEDULED ∧ status a2 = SCHEDULED
       ∧ doctorId a1 = doctorId a2 ∧ date a1 = date a2 ∧ time a1 = time a2)
  ∧ ¬ uniqueActive utc BookingInFlight.afterOverlap.1.
Proof.
  assert (∃ a1 a2,
            appointments BookingInFlight.afterOverlap.1 !! 100%nat = Some a1
            ∧ appointments BookingInFlight.afterOverlap.1 !! 101%nat = Some a2
            ∧ status a1 = SCHEDULED ∧ status a2 = SCHEDULED
            ∧ doctorId a1 = doctorId a2 ∧ date a1 = date a2 ∧ time a1 = time a2)
    as Hstate.
  { eexists _, _. split_and!; try (vm_compute; reflexivity). }
  split; [vm_compute; reflexivity |]. split; [exact Hstate |].
  destruct Hstate as (a1 & a2 & H1 & H2 & Hs1 & Hs2 & Hdoc & Hdate & Htime).
  intros Hu. assert (100%nat = 101%nat); [| done].
  apply (Hu _ _ a1 a2); try done.
  - by rewrite Hs1.
  - by rewrite Hs2.
  - unfold sameDay. by rewrite Hdate.
Qed.

(** *** Slots *)

Lemma steps_length start duration n : length (steps start duration n) = n.
Proof. revert start. induction n as [| n IH]; intros start; cbn; [done | by rewrite IH]. Qed.

(** The [k]-th step is [start + k * duration]. *)
Lemma steps_lookup start duration n k :
  (k < n)%nat → steps start duration n !! k = Some (start + Z.of_nat k * duration).
Proof.
  revert start k. induction n as [| n IH]; intros start k Hk; [lia |].
  destruct k as [| k]; cbn.
  - f_equal. lia.
  - rewrite IH by lia. f_equal. lia.
Qed.

(** With a positive duration and fuel for one iteration per minute of the
    window, the loop ends, having pushed the steps that lie before [finish]. *)
Lemma slotLoop_steps fuel current finish duration acc :
  0 < duration → (Z.to_nat (finish - current) ≤ fuel)%nat →
  ∃ n, slotLoop fuel current finish duration acc
       = Some (acc ++ (formatTime <$> steps current duration n))
       ∧ (∀ t, t ∈ steps current duration n → t < finish)
       ∧ finish ≤ current + Z.of_nat n * duration.
Proof.
  intros Hpos. revert current acc.
  induction fuel as [| fuel IH]; intros current acc Hfuel.
  - exists 0%nat. cbn. rewrite bool_decide_eq_false_2 by lia.
    rewrite app_nil_r. split; [done |]. split; [| lia].
    intros t Ht. by apply elem_of_nil in Ht.
  - cbn [slotLoop]. case_bool_decide as Hlt.
    + destruct (IH (current + duration) (acc ++ [formatTime current]))
        as (n & Hloop & Hbefore & Hafter); [lia |].
      exists (S n). rewrite Hloop. cbn. rewrite <- app_assoc. cbn.
      split; [done |]. split; [| lia].
      intros t Ht. apply elem_of_cons in Ht as [-> | Ht]; [done |].
      by apply Hbefore.
    + exists 0%nat. cbn. rewrite app_nil_r. split; [done |]. split; [| lia].
      intros t Ht. by apply elem_of_nil in Ht.
Qed.

Lemma bookedTimes_elem env doctor d m t :
  t ∈ bookedTimes env doctor d m
  ↔ ∃ i a, m !! i = Some a ∧ bookedOn env doctor d a ∧ time a = t.
Proof.
  unfold bookedTimes. rewrite list_elem_of_fmap. split.
  - intros (a & -> & Ha). apply list_elem_of_filter in Ha as [Hb Ha].
    apply list_elem_of_fmap in Ha as ([i a'] & -> & Hin).
    apply elem_of_map_to_list in Hin. by exists i, a'.
  - intros (i & a & Ha & Hb & <-). exists a. split; [done |].
    apply list_elem_of_filter. split; [done |].
    apply list_elem_of_fmap. exists (i, a). split; [done |].
    by apply elem_of_map_to_list.
Qed.

Lemma slot_times (booked : list string) (slots : list string) :
  slot_time <$> ((λ slot, {| slot_time := slot;
                            slot_available := negb (bool_decide (slot ∈ booked)) |})
                 <$> slots) = slots.
Proof. induction slots as [| s l IH]; cbn; [done | by rewrite IH]. Qed.

(** C8, as amended.  For a doctor whose first availability window for the
    weekday of the date parses to [s] and [e] minutes, with a positive slot
    duration and enough fuel for the loop, [getAvailableSlots] answers with
    the formatted steps [s], [s + duration], .. that lie strictly before [e],
    in order, each marked unavailable exactly when an appointment in
    SCHEDULED or CONFIRMED state of that doctor on that calendar day has
    that time token; for a doctor without a window for the weekday it answers
    [available: false] with an empty slot list. *)
Theorem availableSlots_lists_the_window env doctor d st doc :
  doctors st !! doctor = Some doc →
  (∀ w s e fuel,
     List.find (λ a, bool_decide (day a = weekday env d)) (availability doc) = Some w →
     parseTime (startTime w) = Some s →
     parseTime (endTime w) = Some e →
     0 < slotDuration doc →
     (Z.to_nat (e - s) ≤ fuel)%nat →
     ∃ n slots,
       getAvailableSlots env fuel doctor (Some d) st
       = Some (Ok {| sd_available := true; sd_day := weekday env d;
                     sd_slots := slots |})
       ∧ slot_time <$> slots = formatTime <$> steps s (slotDuration doc) n
       ∧ (∀ t, t ∈ steps s (slotDuration doc) n → t < e)
       ∧ e ≤ s + Z.of_nat n * slotDuration doc
       ∧ (∀ sl, sl ∈ slots →
            (slot_available sl = false
             ↔ ∃ i a, appointments st !! i = Some a
                      ∧ doctorId a = doctor
                      ∧ sameDay env (date a) d
                      ∧ active (status a) = true
                      ∧ time a = slot_time sl)))
  ∧ (List.find (λ a, bool_decide (day a = weekday env d)) (availability doc) = None →
     ∀ fuel, getAvailableSlots env fuel doctor (Some d) st
             = Some (Ok {| sd_available := false; sd_day := weekday env d;
                           sd_slots := [] |})).
Proof.
  intros Hdoc. unfold getAvailableSlots. rewrite Hdoc. split.
  - intros w s e fuel -> Hs He Hpos Hfuel. unfold generateTimeSlots.
    rewrite Hs, He.
    destruct (slotLoop_steps fuel s e (slotDuration doc) [] Hpos Hfuel)
      as (n & -> & Hbefore & Hafter).
    exists n. eexists. split; [reflexivity |]. cbn [app].
    split; [apply slot_times |]. split; [done |]. split; [done |].
    intros sl Hsl. apply list_elem_of_fmap in Hsl as (t & -> & _). cbn.
    rewrite negb_false_iff, bool_decide_eq_true, bookedTimes_elem.
    split.
    + intros (i & a & Ha & Hb & Ht). apply bookedOn_iff in Hb as (? & ? & ?).
      by exists i, a.
    + intros (i & a & Ha & Hd & Hday & Hact & Ht). exists i, a.
      split; [done |]. split; [| done]. by apply bookedOn_iff.
  - by intros ->.
Qed.

(** C8, witness: scenario E after the 09:00 booking. *)
Lemma availableSlots_witness :
  ∃ n slots,
    getAvailableSlots utc 60 5 (Some monday) (stateAfter booked)
    = Some (Ok {| sd_available := true; sd_day := Monday; sd_slots := slots |})
    ∧ slot_time <$> slots = formatTime <$> steps 540 30 n
    ∧ 600 ≤ 540 + Z.of_nat n * 30.
Proof.
  destruct (availableSlots_lists_the_window utc 5 monday (stateAfter booked) doctorE)
    as [Hwindow _].
  - vm_compute; reflexivity.
  - destruct (Hwindow {| day := Monday; startTime := "09:00"; endTime := "10:00";
                         maxPatients := 20 |} 540 600 60%nat)
      as (n & slots & Hrun & Htimes & _ & Hafter & _).
    + reflexivity.
    + reflexivity.
    + reflexivity.
    + reflexivity.
    + vm_compute. lia.
    + by exists n, slots.
Defined.

(** Scenario E: exactly 09:00 and 09:30, both free; 09:00 taken once booked;
    and no slots on a day without a window. *)
Example monday_slots :
  getAvailableSlots utc 60 5 (Some monday) clinic
  = Some (Ok {| sd_available := true; sd_day := Monday;
                sd_slots := [{| slot_time := "09:00"; slot_available := true |};
                             {| slot_time := "09:30"; slot_available := true |}] |})
  ∧ getAvailableSlots utc 60 5 (Some monday) (stateAfter booked)
    = Some (Ok {| sd_available := true; sd_day := Monday;
                  sd_slots := [{| slot_time := "09:00"; slot_available := false |};
                               {| slot_time := "09:30"; slot_available := true |}] |})
  ∧ getAvailableSlots utc 60 5 (Some (monday + dayMs)) clinic
    = Some (Ok {| sd_available := false; sd_day := Tuesday; sd_slots := [] |}).
Proof. repeat split; vm_compute; reflexivity. Qed.

(** C8, counterexample.  After the 09:00 appointment is COMPLETED, which is
    not cancelled, the 09:00 slot of that Monday is offered as available. *)
Lemma completed_appointment_frees_its_slot :
  ¬ (∀ env fuel doctor d st data sl,
       getAvailableSlots env fuel doctor (Some d) st = Some (Ok data) →
       sl ∈ sd_slots data →
       (slot_available sl = false
        ↔ ∃ i a, appointments st !! i = Some a
                 ∧ doctorId a = doctor
                 ∧ sameDay env (date a) d
                 ∧ status a ≠ CANCELLED
                 ∧ time a = slot_time sl)).
Proof.
  intros H.
  destruct (H utc 60%nat 5%nat monday (stateAfter completed)
              {| sd_available := true; sd_day := Monday;
                 sd_slots := [{| slot_time := "09:00"; slot_available := true |};
                              {| slot_time := "09:30"; slot_available := true |}] |}
              {| slot_time := "09:00"; slot_available := true |}) as [_ Hbooked].
  - vm_compute; reflexivity.
  - apply elem_of_cons. by left.
  - assert (true = false) as Habsurd; [| discriminate].
    apply Hbooked. exists 100%nat, (appointmentAfter completed 100).
    split; [vm_compute; reflexivity |]. split; [reflexivity |].
    split; [reflexivity |]. split; [| reflexivity].
    vm_compute. discriminate.
Qed.

End SchedulingTheory.

(** ** Billing: the ledger *)

Module LedgerTheory.
Import Billing Ledger.
Local Open Scope Qc_scope.

Ltac by_evaluation :=
  match goal with
  | |- ?P => apply (bool_decide_unpack P); vm_compute; exact I
  end.

(** *** [createBill] *)

Lemma orElse_discount d : orElse d 0 = withDefault d 0.
Proof.
  unfold orElse, withDefault. destruct d as [v |]; cbn; [| done].
  by case_bool_decide.
Qed.

Lemma orElse_quantity q : 1 ≤ withDefault q 1 → orElse q 1 = withDefault q 1.
Proof.
  unfold orElse, withDefault. destruct q as [v |]; cbn; [| done].
  case_bool_decide as Hv; [| done]. subst v. intros H. by exfalso.
Qed.

(** A line that passes validation carries the total the hook would give it. *)
Lemma valid_line_total si :
  validService (processService si) = true →
  setTotal (processService si) = processService si.
Proof.
  unfold validService. rewrite !andb_true_iff, !bool_decide_eq_true.
  intros [[[[_ Hq] _] _] _]. cbn in Hq. unfold setTotal, processService. cbn.
  by rewrite orElse_discount, (orElse_quantity _ Hq).
Qed.

Lemma valid_lines_total l :
  forallb validService (map processService l) = true →
  map setTotal (map processService l) = map processService l.
Proof.
  induction l as [| si l IH]; cbn; [done |].
  rewrite andb_true_iff. intros [Hsi Hl]. by rewrite valid_line_total, IH.
Qed.

Lemma percentage_of subtotal pct :
  (if truthy pct then subtotal * withDefault pct 0 / hundred else 0)
  = subtotal * orElse pct 0 / hundred.
Proof.
  unfold truthy, orElse, withDefault. destruct pct as [v |]; cbn.
  - case_bool_decide; cbn; [| done]. unfold Qcdiv. ring.
  - unfold Qcdiv. ring.
Qed.

Lemma discount_kept subtotal pct amt :
  (if bool_decide (0 < orElse pct 0)
   then subtotal * orElse pct 0 / hundred
   else if truthy pct then subtotal * withDefault pct 0 / hundred else orElse amt 0)
  = (if truthy pct then subtotal * withDefault pct 0 / hundred else orElse amt 0).
Proof.
  case_bool_decide as Hpos; [| done].
  unfold truthy, orElse, withDefault in *. destruct pct as [v |]; cbn in *.
  - case_bool_decide as Hv; cbn; [| done].
    exfalso. by apply (Qclt_not_eq _ _ Hpos).
  - exfalso. by apply (Qclt_not_eq _ _ Hpos).
Qed.

(** The state after a successful [createBill]. *)
Lemma createBill_shape env newId user req st st' :
  createBill env newId user req st = Ok st' →
  ∃ b,
    bills st !! newId = None
    ∧ st' = {| patients := patients st; bills := <[newId := b]> (bills st) |}
    ∧ invoiceId b = Some (generateInvoiceId env (size (bills st)))
    ∧ cr_patientId req ∈ patients st
    ∧ patientId b = cr_patientId req
    ∧ services b = map processService (cr_services req)
    ∧ Forall (λ s, total s = unitPrice s * quantity s - discount s ∧ 0 ≤ total s)
        (services b)
    ∧ subtotal b = sumTotals (services b) ∧ 0 ≤ subtotal b
    ∧ tax_amount b = subtotal b * tax_percentage b / hundred
    ∧ totalAmount b = subtotal b + tax_amount b - discount_amount b
    ∧ 0 ≤ totalAmount b
    ∧ paidAmount b = 0 ∧ payments b = [] ∧ balanceAmount b = totalAmount b
    ∧ paymentStatus b = (if bool_decide (totalAmount b = 0) then PAID else PENDING).
Proof.
  unfold createBill, create.
  destruct (bool_decide (cr_patientId req ∈ patients st)) eqn:Hpatient;
    cbn [negb]; [| discriminate].
  apply bool_decide_eq_true in Hpatient.
  destruct (validBill _) eqn:Hvalid; cbn [negb]; [| discriminate].
  destruct (bool_decide (is_Some (bills st !! newId))) eqn:Hfresh; [discriminate |].
  apply bool_decide_eq_false in Hfresh. rewrite <- eq_None_not_Some in Hfresh.
  cbn [orb]. destruct (invoiceIdTaken _ _); [discriminate |].
  intros [= <-]. eexists. split; [exact Hfresh |]. split; [reflexivity |].
  split; [reflexivity |]. split; [exact Hpatient |].
  unfold validBill in Hvalid. cbn in Hvalid.
  rewrite !andb_true_iff, !bool_decide_eq_true in Hvalid.
  destruct Hvalid as [[[Hlines Hsub] Htotal] _].
  cbn [preSave patientId services subtotal tax_amount tax_percentage
       discount_percentage discount_amount totalAmount paidAmount payments
       balanceAmount paymentStatus].
  rewrite (valid_lines_total _ Hlines), discount_kept.
  rewrite percentage_of in Htotal.
  repeat split; try done.
  - clear -Hlines. induction (cr_services req) as [| si l IH]; cbn in *; [done |].
    apply andb_true_iff in Hlines as [Hsi Hl]. constructor; [| by apply IH].
    pose proof (valid_line_total si Hsi) as Hline.
    apply (f_equal total) in Hline. cbn in Hline.
    split; [cbn; symmetry; exact Hline |].
    unfold validService in Hsi. rewrite !andb_true_iff, !bool_decide_eq_true in Hsi.
    by destruct Hsi as [_ Ht].
  - ring.
  - repeat case_bool_decide; try done.
    + exfalso. match goal with H : _ ≠ _ |- _ => apply H end.
      by apply Qcle_antisym.
    + exfalso. match goal with H : ¬ _ ≤ _ |- _ => apply H end.
      match goal with H : _ = 0 |- _ => rewrite H end. done.
Qed.


(** X1.  Whenever [createBill] succeeds, the invoice it stores under the new
    id carries the lines of the request with their totals, none negative; a
    subtotal, tax, total and balance that are the ones the hook derives from
    those lines and that are not negative; nothing paid and no payment; and
    the status PENDING, or PAID when the total is 0.  The other invoices are
    untouched. *)
Theorem createBill_stores_its_totals env newId user req st st' :
  createBill env newId user req st = Ok st' →
  ∃ b,
    bills st !! newId = None
    ∧ bills st' = <[newId := b]> (bills st)
    ∧ patientId b = cr_patientId req
    ∧ services b = map processService (cr_services req)
    ∧ Forall (λ s, total s = unitPrice s * quantity s - discount s ∧ 0 ≤ total s)
        (services b)
    ∧ subtotal b = sumTotals (services b) ∧ 0 ≤ subtotal b
    ∧ tax_amount b = subtotal b * tax_percentage b / hundred
    ∧ totalAmount b = subtotal b + tax_amount b - discount_amount b
    ∧ 0 ≤ totalAmount b
    ∧ paidAmount b = 0 ∧ payments b = [] ∧ balanceAmount b = totalAmount b
    ∧ paymentStatus b = (if bool_decide (totalAmount b = 0) then PAID else PENDING).
Proof.
  intros Hcreate.
  destruct (createBill_shape _ _ _ _ _ _ Hcreate)
    as (b & Hfresh & -> & _ & _ & Hrest).
  exists b. by repeat split; try apply Hrest.
Qed.

(** X1, witness: the invoice of scenario A. *)
Lemma createBill_stores_its_totals_witness :
  ∃ b, bills (stateAfter consultation) !! 7%nat = Some b
       ∧ paidAmount b = 0 ∧ balanceAmount b = totalAmount b ∧ 0 ≤ totalAmount b.
Proof.
  destruct (createBill_stores_its_totals env2611 7 99
              (invoiceRequest [line "Consultation" 1 500 0] 10)
              (initial {[1%nat]}) (stateAfter consultation))
    as (b & _ & Hb & _ & _ & _ & _ & _ & _ & _ & Htotal & Hpaid & _ & Hbal & _).
  - vm_compute; reflexivity.
  - exists b. rewrite Hb, lookup_insert_eq. by repeat split.
Defined.

(** X2.  [deleteBill] undoes [createBill]: deleting the invoice that was
    just created gives back the store as it was. *)
Theorem createBill_then_deleteBill env newId user req st st' :
  createBill env newId user req st = Ok st' →
  deleteBill newId st' = Ok st.
Proof.
  intros Hcreate.
  destruct (createBill_shape _ _ _ _ _ _ Hcreate)
    as (b & Hfresh & -> & _ & _ & _ & _ & _ & _ & _ & _ & _ & _ & Hpaid & _).
  unfold deleteBill. cbn [bills patients]. rewrite lookup_insert_eq, Hpaid.
  rewrite bool_decide_eq_false_2 by (intros H; by apply (Qclt_not_eq _ _ H)).
  rewrite delete_insert_eq, delete_id by done. by destruct st.
Qed.

(** X2, witness: the invoice of scenario A is deleted again. *)
Lemma createBill_then_deleteBill_witness :
  deleteBill 7 (stateAfter consultation) = Ok (initial {[1%nat]}).
Proof.
  apply (createBill_then_deleteBill env2611 7 99
           (invoiceRequest [line "Consultation" 1 500 0] 10)).
  vm_compute; reflexivity.
Defined.

(** *** What every run keeps *)





(** *** The ledger *)

Lemma paymentsTotal_snoc (l : list Payment) p acc :
  fold_left (λ sum p, sum + amount p) (l ++ [p]) acc
  = fold_left (λ sum p, sum + amount p) l acc + amount p.
Proof. by rewrite fold_left_app. Qed.

Lemma run_ledgerKept env op st st' :
  ledgerKept st → mutation op = true → run env op st = Ok st' → ledgerKept st'.
Proof.
  intros Hst Hop. destruct op as [newId user req | id body | id | id user req]; cbn in *.
  - intros Hcreate.
    destruct (createBill_shape _ _ _ _ _ _ Hcreate)
      as (b & _ & -> & _ & _ & _ & _ & _ & _ & _ & _ & _ & _ & Hpaid & Hpay & Hbal & _).
    intros i b' Hb'. cbn in Hb'.
    apply lookup_insert_Some in Hb' as [[_ <-] | [_ Hb']]; [| by apply (Hst i)].
    unfold paymentsTotal. rewrite Hpaid, Hpay, Hbal. split; [ring | done].
  - unfold updateBill.
    destruct (bills st !! id) as [bill |] eqn:Hbill; [| discriminate].
    destruct (bool_decide _); [discriminate |].
    destruct (negb _); [discriminate |].
    intros [= <-] i b Hb. cbn in Hb.
    apply lookup_insert_Some in Hb as [[_ <-] | [_ Hb]]; [| by apply (Hst i)].
    unfold editsInputsOnly in Hop.
    rewrite !andb_true_iff, !bool_decide_eq_true in Hop.
    destruct Hop as [[[[[_ _] Ht] Hp] Hb] _].
    destruct (Hst _ _ Hbill) as [Hbal Hpaid].
    unfold paymentsTotal in *. cbn. by rewrite Ht, Hp, Hb.
  - unfold deleteBill.
    destruct (bills st !! id) as [bill |]; [| discriminate].
    destruct (bool_decide _); [discriminate |].
    intros [= <-] i b Hb. cbn in Hb. apply lookup_delete_Some in Hb as [_ Hb].
    by apply (Hst i).
  - unfold addPayment, save.
    destruct (bills st !! id) as [bill |] eqn:Hbill; [| discriminate].
    destruct (bool_decide (paymentStatus bill = PAID)); [discriminate |].
    destruct (bool_decide (balanceAmount bill < _)); [discriminate |].
    destruct (negb _); [discriminate |].
    intros [= <-] i b Hb. cbn in Hb.
    apply lookup_insert_Some in Hb as [[_ <-] | [_ Hb]]; [| by apply (Hst i)].
    destruct (Hst _ _ Hbill) as [_ Hpaid]. split; [reflexivity |].
    unfold paymentsTotal in *. cbn. by rewrite paymentsTotal_snoc, Hpaid.
Qed.

Lemma runAll_ledgerKept env ops st st' :
  ledgerKept st → forallb mutation ops = true →
  runAll env ops st = Ok st' → ledgerKept st'.
Proof.
  revert st. induction ops as [| op ops IH]; intros st Hst Hops; cbn.
  - by intros [= <-].
  - cbn in Hops. apply andb_true_iff in Hops as [Hop Hops].
    destruct (run env op st) as [st1 |] eqn:Hrun; [| discriminate].
    apply IH; [| done]. by eapply run_ledgerKept.
Qed.

(** X4.  After creations, deletions, payments of any accepted amount and
    updates, served one at a time from an empty collection, where the body
    of an update names no other paths than [services], [tax.percentage],
    [discount.percentage], [discount.amount], [discount.reason], [dueDate]
    and [notes], the [paidAmount] of every stored invoice is the sum of the
    amounts of its recorded payments, added in the order they were recorded,
    and its balance is [total - paid].  A body that names [payments] or a
    derived path, and two payments whose round trips overlap, are not
    covered. *)
Theorem paid_is_the_sum_of_payments env ops ps st id b :
  forallb mutation ops = true →
  runAll env ops (initial ps) = Ok st →
  bills st !! id = Some b →
  paidAmount b = paymentsTotal b
  ∧ balanceAmount b = totalAmount b - paidAmount b.
Proof.
  intros Hops Hrun Hb.
  assert (ledgerKept (initial ps)) as Hinit.
  { intros i b' Hb'. cbn in Hb'. by rewrite lookup_empty in Hb'. }
  by destruct (runAll_ledgerKept env ops _ st Hinit Hops Hrun id b Hb).
Qed.

(** X4, witness: two invoices, both with payments. *)
Lemma paid_is_the_sum_of_payments_witness :
  paidAmount (billAfter secondInvoice 8 emptyBill)
  = paymentsTotal (billAfter secondInvoice 8 emptyBill).
Proof.
  apply (paid_is_the_sum_of_payments env2611 secondInvoice {[1%nat]}
           (stateAfter secondInvoice) 8).
  - vm_compute; reflexivity.
  - vm_compute; reflexivity.
  - vm_compute; reflexivity.
Defined.

(** *** Invoice numbers *)

(** X5.  The invoice number is made from the number of stored invoices.
    After two creations, once the first of the two invoices is deleted, the
    count is again what it was when the second was numbered: every later
    [createBill] of the same month generates the number of the second invoice
    and none succeeds. *)
Theorem invoice_number_reused_after_delete env st st1 st2 st3
    id1 user1 req1 id2 user2 req2 :
  createBill env id1 user1 req1 st = Ok st1 →
  createBill env id2 user2 req2 st1 = Ok st2 →
  deleteBill id1 st2 = Ok st3 →
  ∀ id3 user3 req3, isOk (createBill env id3 user3 req3 st3) = false.
Proof.
  intros Hc1 Hc2 Hdel id3 user3 req3.
  destruct (createBill_shape _ _ _ _ _ _ Hc1) as (b1 & Hf1 & -> & _).
  destruct (createBill_shape _ _ _ _ _ _ Hc2) as (b2 & Hf2 & -> & Hid2 & _).
  cbn [bills patients] in *.
  assert (id1 ≠ id2) as Hne.
  { intros ->. by rewrite lookup_insert_eq in Hf2. }
  unfold deleteBill in Hdel. cbn [bills patients] in Hdel.
  rewrite lookup_insert_ne, lookup_insert_eq in Hdel by done.
  destruct (bool_decide _) in Hdel; [discriminate |].
  injection Hdel as <-.
  unfold createBill, create. cbn [bills patients].
  destruct (negb (bool_decide _)); [done |].
  destruct (negb (validBill _)); [done |].
  assert (size (delete id1 (<[id2:=b2]> (<[id1:=b1]> (bills st))))
          = size (<[id1:=b1]> (bills st))) as ->.
  { rewrite map_size_delete_Some
      by (rewrite lookup_insert_ne, lookup_insert_eq by done; eauto).
    by rewrite (map_size_insert_None id2). }
  assert (invoiceIdTaken (Some (generateInvoiceId env (size (<[id1:=b1]> (bills st)))))
            (delete id1 (<[id2:=b2]> (<[id1:=b1]> (bills st)))) = true) as Htaken.
  { apply bool_decide_eq_true. exists id2, b2. split; [| done].
    by rewrite lookup_delete_ne, lookup_insert_eq. }
  cbn [preSave invoiceId]. rewrite Htaken. by rewrite orb_true_r.
Qed.

(** X5, witness: two invoices, the first deleted, a third refused. *)
Lemma invoice_number_reused_witness :
  isOk (createBill env2611 9 99 (invoiceRequest [line "Dressing" 1 100 0] 0)
          (stateAfter (consultation
                       ++ [CreateBill 8 99 (invoiceRequest [line "X-ray" 2 300 50] 0);
                           DeleteBill 7]))) = false.
Proof.
  apply (invoice_number_reused_after_delete env2611 (initial {[1%nat]})
           (stateAfter consultation)
           (stateAfter (consultation
                        ++ [CreateBill 8 99 (invoiceRequest [line "X-ray" 2 300 50] 0)]))
           _ 7 99 (invoiceRequest [line "Consultation" 1 500 0] 10)
           8 99 (invoiceRequest [line "X-ray" 2 300 50] 0)).
  - vm_compute; reflexivity.
  - vm_compute; reflexivity.
  - vm_compute; reflexivity.
Defined.

(** *** The history of a patient *)





(** *** Paid invoices *)



End LedgerTheory.

(** ** Time tokens *)

Module TimeTokens.
Import Scheduling.
Local Open Scope Z_scope.

(** *** Reading back what [pretty] prints *)

Lemma append_cons c (a b : string) : String c a +:+ b = String c (a +:+ b).
Proof. reflexivity. Qed.

Lemma append_assoc (a b c : string) : (a +:+ b) +:+ c = a +:+ (b +:+ c).
Proof.
  induction a as [| x a IH]; [done |]. by rewrite !append_cons, IH.
Qed.

Lemma digitValue_char (d : N) :
  (d < 10)%N → digitValue (pretty_N_char d) = Some (Z.of_N d).
Proof.
  intros Hd.
  assert (d = 0 ∨ d = 1 ∨ d = 2 ∨ d = 3 ∨ d = 4 ∨ d = 5 ∨ d = 6 ∨ d = 7
          ∨ d = 8 ∨ d = 9)%N as H by lia.
  repeat (destruct H as [-> | H]; [reflexivity |]). by subst.
Qed.

Lemma digitsValue_app a b acc :
  digitsValue (a +:+ b) acc
  = match digitsValue a acc with
    | Some v => digitsValue b v
    | None => None
    end.
Proof.
  revert acc. induction a as [| c a IH]; intros acc; [done |].
  rewrite append_cons. cbn. destruct (digitValue c); [apply IH | done].
Qed.

Lemma pretty_N_go_app x s : pretty_N_go x s = pretty_N_go x "" +:+ s.
Proof.
  revert s. induction (N.lt_wf_0 x) as [x _ IH]; intros s.
  assert (x = 0 ∨ 0 < x)%N as [-> | Hx] by lia; [done |].
  rewrite (pretty_N_go_step x s), (pretty_N_go_step x "") by done.
  assert (x `div` 10 < x)%N as Hlt by (by apply N.div_lt).
  rewrite (IH _ Hlt (String _ s)), (IH _ Hlt (String _ "")).
  by rewrite append_assoc.
Qed.

Lemma digitsValue_pretty_N_go x :
  digitsValue (pretty_N_go x "") 0 = Some (Z.of_N x).
Proof.
  induction (N.lt_wf_0 x) as [x _ IH].
  assert (x = 0 ∨ 0 < x)%N as [-> | Hx] by lia; [done |].
  rewrite pretty_N_go_step, pretty_N_go_app by done.
  rewrite digitsValue_app, IH by (by apply N.div_lt). cbn.
  rewrite digitValue_char by (by apply N.mod_lt).
  f_equal. pose proof (N.div_mod x 10 ltac:(done)). lia.
Qed.

Lemma Number_pretty_N (x : N) : Number (pretty x) = Some (Z.of_N x).
Proof.
  unfold Number, pretty, pretty_N. case_decide as Hx; [by subst |].
  apply digitsValue_pretty_N_go.
Qed.

Lemma Number_pretty_Z (z : Z) : 0 ≤ z → Number (pretty z) = Some z.
Proof.
  intros Hz. destruct z as [| p | p]; [done | | lia].
  change (pretty (Z.pos p)) with (pretty (N.pos p)). by rewrite Number_pretty_N.
Qed.

Lemma Number_pretty_nat (n : nat) : Number (pretty n) = Some (Z.of_nat n).
Proof.
  change (pretty n) with (pretty (N.of_nat n)). rewrite Number_pretty_N.
  f_equal. lia.
Qed.

(** Leading zeros do not change the number. *)
Lemma Number_padStart n s : Number (padStart n "0" s) = Number s.
Proof.
  unfold Number, padStart. induction (n - String.length s)%nat as [| k IH]; [done |].
  cbn [padding]. rewrite append_cons. exact IH.
Qed.

(** *** Splitting at the colon *)

Lemma digitValue_colon c : is_Some (digitValue c) → c ≠ ":"%char.
Proof. intros [d Hd] ->. discriminate. Qed.

Lemma splitColon_digits a acc :
  is_Some (digitsValue a acc) → splitColon a = [a].
Proof.
  revert acc. induction a as [| c a IH]; intros acc; cbn; [done |].
  destruct (digitValue c) as [d |] eqn:Hc; [| by intros [? ?]].
  intros Ha. rewrite bool_decide_eq_false_2 by (apply digitValue_colon; eauto).
  by rewrite (IH _ Ha).
Qed.

Lemma splitColon_app a b acc :
  is_Some (digitsValue a acc) →
  splitColon (a +:+ ":" +:+ b) = a :: splitColon b.
Proof.
  revert acc. induction a as [| c a IH]; intros acc; [done |].
  rewrite append_cons. cbn.
  destruct (digitValue c) as [d |] eqn:Hc; [| by intros [? ?]].
  intros Ha. rewrite bool_decide_eq_false_2 by (apply digitValue_colon; eauto).
  by rewrite (IH _ Ha).
Qed.

(** X8.  [parseTime] reads back what [formatTime] writes: for every number of
    minutes from 0 on, parsing the formatted token gives the minutes again. *)
Theorem parseTime_formatTime (minutes : Z) :
  0 ≤ minutes → parseTime (formatTime minutes) = Some minutes.
Proof.
  intros Hm. unfold parseTime, formatTime.
  assert (Number (padStart 2 "0" (pretty (minutes `div` 60)))
          = Some (minutes `div` 60)) as Hh.
  { rewrite Number_padStart. apply Number_pretty_Z. by apply Z.div_pos. }
  assert (Number (padStart 2 "0" (pretty (minutes `rem` 60)))
          = Some (minutes `rem` 60)) as Hr.
  { rewrite Number_padStart. apply Number_pretty_Z. by apply Z.rem_nonneg. }
  rewrite (splitColon_app _ _ 0) by (unfold Number in Hh; by rewrite Hh).
  rewrite (splitColon_digits _ 0) by (unfold Number in Hr; by rewrite Hr).
  rewrite Hh, Hr. f_equal.
  rewrite Z.rem_mod_nonneg by lia.
  pose proof (Z.div_mod minutes 60 ltac:(lia)). lia.
Qed.

(** X8, witness: half past nine. *)
Lemma parseTime_formatTime_witness : parseTime (formatTime 570) = Some 570.
Proof. apply (parseTime_formatTime 570). lia. Defined.

(** *** The tokens of a window *)

Lemma digitsValue_nonneg s acc v : digitsValue s acc = Some v → 0 ≤ acc → 0 ≤ v.
Proof.
  revert acc. induction s as [| c s IH]; intros acc; cbn.
  - by intros [= <-].
  - unfold digitValue. case_bool_decide as Hc; [| done].
    intros Hs Hacc. apply (IH _ Hs). lia.
Qed.

Lemma parseTime_nonneg t m : parseTime t = Some m → 0 ≤ m.
Proof.
  unfold parseTime, Number.
  destruct (splitColon t) as [| h [| mm l]]; try done.
  destruct (digitsValue h 0) as [hv |] eqn:Hh; [| done].
  destruct (digitsValue mm 0) as [mv |] eqn:Hm; [| done].
  intros [= <-].
  pose proof (digitsValue_nonneg _ _ _ Hh ltac:(lia)).
  pose proof (digitsValue_nonneg _ _ _ Hm ltac:(lia)). lia.
Qed.

Lemma steps_elem start duration n t :
  t ∈ steps start duration n
  ↔ ∃ k : nat, (k < n)%nat ∧ t = start + Z.of_nat k * duration.
Proof.
  revert start. induction n as [| n IH]; intros start; cbn.
  - rewrite elem_of_nil. split; [done |]. intros (k & Hk & _). lia.
  - rewrite elem_of_cons, IH. split.
    + intros [-> | (k & Hk & ->)]; [exists 0%nat | exists (S k)]; split; lia.
    + intros ([| k] & Hk & ->); [left; lia |].
      right. exists k. split; lia.
Qed.

Lemma steps_NoDup start duration n : 0 < duration → NoDup (steps start duration n).
Proof.
  intros Hd. revert start. induction n as [| n IH]; intros start; cbn.
  - constructor.
  - constructor; [| apply IH].
    rewrite steps_elem. intros (k & _ & Hk). lia.
Qed.

(** Whatever the loop returns is made of the steps before [finish]. *)
Lemma slotLoop_result fuel current finish duration acc l :
  slotLoop fuel current finish duration acc = Some l →
  ∃ n, l = acc ++ (formatTime <$> steps current duration n)
       ∧ (∀ t, t ∈ steps current duration n → t < finish)
       ∧ finish ≤ current + Z.of_nat n * duration.
Proof.
  revert current acc. induction fuel as [| fuel IH]; intros current acc;
    cbn [slotLoop]; case_bool_decide as Hlt; try done.
  - intros [= <-]. exists 0%nat. cbn. rewrite app_nil_r.
    split; [done |]. split; [| lia]. intros t Ht. by apply elem_of_nil in Ht.
  - intros Hloop. destruct (IH _ _ Hloop) as (n & -> & Hbefore & Hafter).
    exists (S n). cbn. rewrite <- app_assoc. split; [done |]. split; [| lia].
    intros t Ht. apply elem_of_cons in Ht as [-> | Ht]; [done |]. by apply Hbefore.
  - intros [= <-]. exists 0%nat. cbn. rewrite app_nil_r.
    split; [done |]. split; [| lia]. intros t Ht. by apply elem_of_nil in Ht.
Qed.

(** X9.  For a window whose bounds are well-formed HH:MM tokens, hours and
    minutes in decimal digits, that stand for [s] and [e] minutes, and a
    positive duration in whole minutes, the tokens that [generateTimeSlots]
    returns are pairwise distinct, and each of them parses back to a time
    [s + k * duration] that lies in the window, before [e]. *)
Theorem generateTimeSlots_tokens fuel startTime endTime duration s e slots :
  Tokens.wellFormed startTime = true →
  Tokens.wellFormed endTime = true →
  parseTime startTime = Some s →
  parseTime endTime = Some e →
  0 < duration →
  generateTimeSlots fuel startTime endTime duration = Some slots →
  NoDup slots
  ∧ ∀ t, t ∈ slots →
      ∃ k : nat, parseTime t = Some (s + Z.of_nat k * duration)
                 ∧ s ≤ s + Z.of_nat k * duration < e.
Proof.
  intros _ _ Hs He Hd. unfold generateTimeSlots. rewrite Hs, He. intros Hloop.
  destruct (slotLoop_result _ _ _ _ _ _ Hloop) as (n & -> & Hbefore & _).
  pose proof (parseTime_nonneg _ _ Hs) as Hs0. cbn [app].
  assert (∀ t, t ∈ steps s duration n → 0 ≤ t) as Hnonneg.
  { intros t Ht. apply steps_elem in Ht as (k & _ & ->). nia. }
  split.
  - apply NoDup_fmap_2_strong; [| by apply steps_NoDup].
    intros x y Hx Hy Hxy. apply (f_equal parseTime) in Hxy.
    rewrite !parseTime_formatTime in Hxy by auto. congruence.
  - intros t Ht. apply list_elem_of_fmap in Ht as (m & -> & Hm).
    pose proof (Hbefore _ Hm) as Hlt. pose proof (Hnonneg _ Hm) as Hm0.
    apply steps_elem in Hm as (k & _ & ->). exists k.
    split; [by apply parseTime_formatTime |]. nia.
Qed.

(** X9, witness: the window of scenario E. *)
Lemma generateTimeSlots_tokens_witness :
  NoDup ["09:00"; "09:30"]
  ∧ ∀ t, t ∈ ["09:00"; "09:30"] →
      ∃ k : nat, parseTime t = Some (540 + Z.of_nat k * 30)
                 ∧ 540 ≤ 540 + Z.of_nat k * 30 < 600.
Proof.
  apply (generateTimeSlots_tokens 60 "09:00" "10:00" 30 540 600).
  - reflexivity.
  - reflexivity.
  - reflexivity.
  - reflexivity.
  - lia.
  - vm_compute; reflexivity.
Defined.




(** *** Slots and bookings *)

Lemma sameDay_trans env d1 d2 d3 :
  sameDay env d1 d2 → sameDay env d2 d3 → sameDay env d1 d3.
Proof. unfold sameDay. congruence. Qed.

(** X11.  [getAvailableSlots] and [createAppointment] agree: for an existing
    patient, a slot of the answer is marked unavailable if and only if a
    booking of that doctor on that day at that time token is refused with
    'This time slot is already booked'. *)
Theorem unavailable_slot_is_refused env fuel doctor d st data sl newId req :
  getAvailableSlots env fuel doctor (Some d) st = Some (Ok data) →
  sl ∈ sd_slots data →
  cr_patientId req ∈ patients st →
  cr_doctorId req = doctor →
  sameDay env (cr_date req) d →
  cr_time req = slot_time sl →
  (slot_available sl = false
   ↔ createAppointment env newId req st = Err SlotAlreadyBooked).
Proof.
  unfold getAvailableSlots, createAppointment.
  intros Hslots Hsl Hpatient <- Hday Htime.
  rewrite (bool_decide_eq_true_2 _ Hpatient). cbn [negb].
  destruct (doctors st !! cr_doctorId req) as [doc |]; [| discriminate].
  destruct (List.find _ _) as [w |]; [| injection Hslots as <-; by apply elem_of_nil in Hsl].
  destruct (generateTimeSlots _ _ _ _) as [slots |]; [| discriminate].
  injection Hslots as <-. cbn in Hsl.
  apply list_elem_of_fmap in Hsl as (t & -> & _). cbn in *.
  rewrite negb_false_iff, bool_decide_eq_true, SchedulingTheory.bookedTimes_elem.
  assert ((∃ i a, appointments st !! i = Some a
                  ∧ bookedOn env (cr_doctorId req) d a ∧ time a = t)
          ↔ slotTaken env (cr_doctorId req) (cr_date req) (cr_time req)
              (appointments st)) as ->.
  { unfold slotTaken, map_Exists. rewrite Htime.
    split; intros (i & a & Ha & Hb & Ht); exists i, a; (split; [done |]);
      (split; [| done]); apply SchedulingTheory.bookedOn_iff;
      apply SchedulingTheory.bookedOn_iff in Hb as (Hdoc & Hd & Hact);
      (split; [done |]); (split; [| done]).
    - eapply sameDay_trans; [exact Hd |]. by apply SchedulingTheory.sameDay_sym.
    - by eapply sameDay_trans. }
  case_bool_decide as Htaken; [done |]. split; [done |].
  destruct (negb _); [discriminate |]. destruct (_ || _); discriminate.
Qed.

(** X11, witness: scenario E, the 09:00 slot after its booking. *)
Lemma unavailable_slot_is_refused_witness :
  createAppointment utc 101 (nineOClock 2) (stateAfter booked) = Err SlotAlreadyBooked.
Proof.
  apply (unavailable_slot_is_refused utc 60 5 monday (stateAfter booked)
           {| sd_available := true; sd_day := Monday;
              sd_slots := [{| slot_time := "09:00"; slot_available := false |};
                           {| slot_time := "09:30"; slot_available := true |}] |}
           {| slot_time := "09:00"; slot_available := false |} 101 (nineOClock 2)).
  - vm_compute; reflexivity.
  - apply elem_of_cons. by left.
  - apply (bool_decide_unpack _). vm_compute. exact I.
  - reflexivity.
  - reflexivity.
  - reflexivity.
  - reflexivity.
Defined.

End TimeTokens.

(** ** Requests served one at a time, and requests that overlap *)

Module WardInFlightTheory.
Import Ward InFlight WardInFlight.

(** *** A request served alone is a step of the handler *)

Lemma modified_same {A} `{EqDecision A} (loaded assigned : A) :
  modified loaded assigned loaded = assigned.
Proof. unfold modified. by case_decide. Qed.

Lemma savedBed_maintain n b : savedBed b (maintain n b) b = maintain n b.
Proof. unfold savedBed. by rewrite !modified_same. Qed.

Lemma savedBed_assign p b : savedBed b (assign p b) b = assign p b.
Proof. unfold savedBed. by rewrite !modified_same. Qed.

(** The bed read before the old bed was freed, saved after. *)
Lemma savedBed_assign_freed p b :
  status b = AVAILABLE → currentPatient b = None →
  savedBed b (assign p b) (release b) = assign p (release b).
Proof.
  intros Hs Hp. unfold savedBed, modified. cbn. rewrite Hs, Hp.
  repeat case_decide; done.
Qed.

Lemma ipdPreSave_kept n r : lacksRecordId r = false → ipdPreSave n r = r.
Proof.
  unfold lacksRecordId, ipdPreSave. destruct r as [[i |] ? ? ? ? ? ? ? ? ? ?]; cbn;
    [| discriminate].
  intros H. apply negb_false_iff in H. by rewrite H.
Qed.

Lemma savedRecord_discharged n now summary r :
  savedRecord r (ipdPreSave n (discharged now summary r)) r []
  = ipdPreSave n (discharged now summary r).
Proof.
  unfold savedRecord. rewrite !modified_same, app_nil_r. by destruct r.
Qed.

Lemma savedRecord_transferred n now user newBedId r :
  savedRecord r (ipdPreSave n (transferred now user newBedId r)) r
    [transferNote now user newBedId]
  = ipdPreSave n (transferred now user newBedId r).
Proof.
  unfold savedRecord. rewrite !modified_same. by destruct r.
Qed.

Lemma saveRecordTask_alone id r assigned pushed next st :
  records st !! id = Some r →
  alone (saveRecordTask id r assigned pushed next) st
  = alone next
      {| patients := patients st; beds := beds st;
         records := <[id := savedRecord r (ipdPreSave (size (records st)) assigned)
                               r pushed]> (records st) |}.
Proof.
  intros Hr. unfold saveRecordTask.
  destruct (lacksRecordId assigned) eqn:Hid; cbn; unfold saveRecord; rewrite Hr; cbn.
  - done.
  - by rewrite (ipdPreSave_kept _ _ Hid).
Qed.

Lemma createBed_alone newId body st :
  alone (createBedTask newId body) st = served (createBed newId body st) st.
Proof. cbn. by destruct (createBed newId body st). Qed.

Lemma updateBed_alone id body st :
  alone (updateBedTask id body) st = served (updateBed id body st) st.
Proof.
  cbn. unfold updateBed, findBedAndUpdate.
  destruct (beds st !! id) as [bed |] eqn:Hbed; cbn; [| done].
  rewrite Hbed. destruct (negb (validBedBody body)); cbn; [done |].
  by destruct (match bb_bedNumber body with Some _ => _ | None => _ end).
Qed.

Lemma deleteBed_alone id st :
  alone (deleteBedTask id) st = served (deleteBed id st) st.
Proof.
  cbn. unfold deleteBed. destruct (beds st !! id) as [bed |]; cbn; [| done].
  by destruct (bool_decide (status bed = OCCUPIED)).
Qed.

Lemma markMaintenance_alone id bodyNotes st :
  alone (markMaintenanceTask id bodyNotes) st
  = served (markMaintenance id bodyNotes st) st.
Proof.
  cbn. unfold markMaintenance.
  destruct (beds st !! id) as [bed |] eqn:Hbed; cbn; [| done].
  destruct (bool_decide (status bed = OCCUPIED)); cbn; [done |].
  unfold saveBed. rewrite Hbed. cbn. by rewrite savedBed_maintain.
Qed.

Lemma admitPatient_alone now newId req st :
  alone (admitPatientTask now newId req) st = served (admitPatient now newId req st) st.
Proof.
  cbn. unfold admitPatient.
  destruct (negb (bool_decide (_ ∈ _))); cbn; [done |].
  destruct (beds st !! ar_bedId req) as [bed |] eqn:Hbed; cbn; [| done].
  destruct (negb (bool_decide (status bed = AVAILABLE))); cbn; [done |].
  destruct (bool_decide (admittedStayOf _ _)); cbn; [done |].
  destruct (ar_doctorId req) as [doctor |]; cbn; [| done].
  destruct (ar_admissionReason req) as [reason |]; cbn; [| done].
  destruct (negb (nonEmpty reason)); cbn; [done |].
  unfold insertRecord, newRecord. cbn.
  destruct (bool_decide (is_Some (records st !! newId)) || _); cbn; [done |].
  unfold saveBed. cbn. rewrite Hbed. cbn. by rewrite savedBed_assign.
Qed.

Lemma dischargePatient_alone now id summary st :
  alone (dischargePatientTask now id summary) st
  = served (dischargePatient now id summary st) st.
Proof.
  cbn. unfold dischargePatient.
  destruct (records st !! id) as [record |] eqn:Hrec; cbn; [| done].
  destruct (negb (bool_decide (ipdStatus record = ADMITTED))); cbn; [done |].
  rewrite (saveRecordTask_alone _ _ _ _ _ _ Hrec). cbn.
  by rewrite savedRecord_discharged.
Qed.

Lemma transferPatient_alone now id user newBedId st :
  occupancyConsistent st →
  alone (transferPatientTask now id user newBedId) st
  = served (transferPatient now id user newBedId st) st.
Proof.
  intros Ho. cbn. unfold transferPatient.
  destruct (records st !! id) as [record |] eqn:Hrec; cbn; [| done].
  destruct (beds st !! newBedId) as [newBed |] eqn:Hnew; cbn; [| done].
  destruct (bool_decide (status newBed = AVAILABLE)) eqn:Hav; cbn; [| done].
  apply bool_decide_eq_true in Hav.
  assert (currentPatient newBed = None) as Hnone.
  { destruct (currentPatient newBed) as [p |] eqn:Hp; [| done].
    assert (status newBed = OCCUPIED) as Hocc
      by (apply (Ho newBedId newBed Hnew); by rewrite Hp).
    congruence. }
  unfold saveBed. cbn.
  destruct (decide (bedId record = newBedId)) as [Heq | Hne].
  - rewrite Heq, lookup_alter_eq, Hnew. cbn.
    rewrite saveRecordTask_alone by done. cbn.
    rewrite savedRecord_transferred, savedBed_assign_freed by done.
    f_equal. f_equal. apply map_eq. intros i.
    destruct (decide (i = newBedId)) as [-> |].
    + by rewrite lookup_insert_eq, !lookup_alter_eq, Hnew.
    + by rewrite lookup_insert_ne, !lookup_alter_ne.
  - rewrite lookup_alter_ne, Hnew by done. cbn.
    rewrite saveRecordTask_alone by done. cbn.
    rewrite savedRecord_transferred, savedBed_assign.
    f_equal. f_equal. apply map_eq. intros i.
    destruct (decide (i = newBedId)) as [-> |].
    + by rewrite lookup_insert_eq, lookup_alter_eq, lookup_alter_ne, Hnew.
    + by rewrite lookup_insert_ne, (lookup_alter_ne _ _ newBedId i).
Qed.

(** Served alone on a store whose beds are OCCUPIED exactly when they name
    an occupant, every request of the two controllers answers and writes as
    its handler does in one step. *)
Lemma served_alone op st :
  occupancyConsistent st → alone (task op) st = served (run op st) st.
Proof.
  intros Ho. destruct op; cbn [task run].
  - apply createBed_alone.
  - apply updateBed_alone.
  - apply deleteBed_alone.
  - apply markMaintenance_alone.
  - apply admitPatient_alone.
  - apply dischargePatient_alone.
  - by apply transferPatient_alone.
Qed.


(** Serving alone is one of the schedules. *)
Lemma alone_is_a_schedule {Store} (t : Task Store) (st : Store) :
  ∃ n, interleave (replicate n 0%nat) [t] st
       = ((alone t st).1, [Answer (alone t st).2]).
Proof.
  revert st. induction t as [r | write next IH]; intros st.
  - by exists 0%nat.
  - destruct (IH st (write st)) as [n Hn]. exists (S n). cbn. exact Hn.
Qed.

(** *** What holds of the store is kept in turn *)

Lemma afterInTurn_cons op ops st :
  afterInTurn (op :: ops) st = afterInTurn ops (alone (task op) st).1.
Proof.
  unfold afterInTurn. cbn.
  destruct (alone (task op) st) as [st1 r]. cbn.
  by destruct (inTurn (task <$> ops) st1).
Qed.

Lemma inTurn_keeps (allow : State → Op → bool) (P : State → Prop) :
  (∀ st, P st → occupancyConsistent st) →
  (∀ op st st', P st → allow st op = true → run op st = Ok st' → P st') →
  ∀ ops st, P st → allowedInTurn allow ops st = true → P (afterInTurn ops st).
Proof.
  intros Hcons Hstep ops. induction ops as [| op ops IH]; intros st HP Hops.
  - exact HP.
  - cbn in Hops. apply andb_true_iff in Hops as [Hop Hops].
    rewrite afterInTurn_cons. apply IH; [| done].
    rewrite served_alone by by apply Hcons.
    destruct (run op st) as [st' |] eqn:Hrun; cbn; [| done].
    by apply (Hstep op st).
Qed.

(** In turn, the completed requests of a run are the steps of the handlers. *)
Lemma inTurn_runAll ops st st' :
  wardInvariant st → allowedInTurn guarded ops st = true →
  runAll ops st = Ok st' → afterInTurn ops st = st'.
Proof.
  revert st. induction ops as [| op ops IH]; intros st Hinv Hops; cbn.
  - by intros [= <-].
  - cbn in Hops. apply andb_true_iff in Hops as [Hop Hops].
    rewrite afterInTurn_cons.
    rewrite served_alone in * by by destruct Hinv.
    destruct (run op st) as [st1 |] eqn:Hrun; [| discriminate]. cbn in *.
    apply IH; [| done]. by apply (WardTheory.run_invariant op st).
Qed.

(** *** The requests that keep the coupling *)

Lemma createBed_allowed newId body st st' :
  wardInvariant st → allowed st (CreateBed newId body) = true →
  createBed newId body st = Ok st' → wardInvariant st'.
Proof.
  intros (Ho & Hc & Hs) Hbody. cbn in Hbody. apply bool_decide_eq_true in Hbody.
  unfold createBed.
  destruct (bb_bedNumber body), (bb_ward body), (bb_wardType body),
    (bb_floor body), (bb_dailyRate body); try discriminate.
  destruct (negb _); [discriminate |].
  destruct (bool_decide (is_Some (beds st !! newId))) eqn:Hfresh; [discriminate |].
  apply bool_decide_eq_false in Hfresh. rewrite <- eq_None_not_Some in Hfresh.
  destruct (bedNumberTaken _ _); [discriminate |].
  intros [= <-]. split; [| split].
  - intros id b Hb. cbn in Hb.
    apply lookup_insert_Some in Hb as [[<- <-] | [Hne Hb]]; [done |].
    by apply (Ho id).
  - intros rid r Hr Ha. cbn in *.
    destruct (Hc _ _ Hr Ha) as (b & Hb & Hrest). exists b. split; [| done].
    rewrite lookup_insert_ne; [done |]. congruence.
  - exact Hs.
Qed.

Lemma updateBed_allowed id body st st' :
  wardInvariant st → allowed st (UpdateBed id body) = true →
  updateBed id body st = Ok st' → wardInvariant st'.
Proof.
  intros (Ho & Hc & Hs) Hbody. cbn in Hbody. unfold updateBed.
  destruct (beds st !! id) as [bed |] eqn:Hbed; [| discriminate].
  apply andb_true_iff in Hbody as [Hocc Hstays].
  apply bool_decide_eq_true in Hocc, Hstays.
  destruct (negb _); [discriminate |].
  destruct (match bb_bedNumber body with Some _ => _ | None => _ end);
    [discriminate |].
  intros [= <-]. split; [| split].
  - intros i b Hb. cbn in Hb.
    apply lookup_insert_Some in Hb as [[<- <-] | [Hne Hb]]; [done |].
    by apply (Ho i).
  - intros rid r Hr Ha. cbn in *.
    destruct (decide (bedId r = id)) as [Heq | Hne].
    + exists (applyBedBody body bed). rewrite Heq, lookup_insert_eq.
      split; [done |]. by apply (Hstays rid r).
    + destruct (Hc _ _ Hr Ha) as (b & Hb & Hrest). exists b.
      by rewrite lookup_insert_ne.
  - exact Hs.
Qed.

Lemma transferPatient_allowed now id user newBedId st st' :
  wardInvariant st → allowed st (TransferPatient now id user newBedId) = true →
  transferPatient now id user newBedId st = Ok st' → wardInvariant st'.
Proof.
  intros (Ho & Hc & Hs) Hop. cbn in Hop. unfold transferPatient.
  destruct (records st !! id) as [record |] eqn:Hrec; [| discriminate].
  apply bool_decide_eq_true in Hop.
  destruct (beds st !! newBedId) as [newBed |] eqn:Hnew; [| discriminate].
  destruct (bool_decide (status newBed = AVAILABLE)) eqn:Hav; cbn [negb];
    [| discriminate].
  apply bool_decide_eq_true in Hav.
  assert (status newBed ≠ OCCUPIED) as Hfree by by rewrite Hav.
  assert (∀ rid r, records st !! rid = Some r → ipdStatus r = ADMITTED →
            bedId r ≠ newBedId) as Hnew_free.
  { intros rid r Hr Ha.
    by apply (WardTheory.admitted_bed_is_occupied st rid r newBedId newBed). }
  intros [= <-]. split; [| split].
  - intros i b Hb. cbn in Hb.
    apply lookup_alter_Some in Hb as [[<- (b0 & Hb0 & ->)] | [Hne Hb]]; [done |].
    apply lookup_alter_Some in Hb as [[<- (b0 & Hb0 & ->)] | [Hne' Hb]]; [done |].
    by apply (Ho i).
  - intros rid r Hr Ha. cbn in Hr.
    apply lookup_insert_Some in Hr as [[<- <-] | [Hne Hr]]; cbn.
    + cbn in Ha. exists (assign (patientId record) newBed). split; [| done].
      rewrite lookup_alter_eq, lookup_alter_ne, Hnew; [done |].
      by apply (Hnew_free id record).
    + destruct (Hc _ _ Hr Ha) as (b & Hb & Hrest). exists b. split; [| done].
      rewrite !lookup_alter_ne; [done | |].
      * intros Heq. apply Hne. symmetry. by apply (Hop rid r).
      * intros Heq. by apply (Hnew_free rid r).
  - intros i j r r' Hr Hr' Ha Ha' Hp. cbn in Hr, Hr'.
    apply lookup_insert_Some in Hr as [[<- <-] | [Hi Hr]];
      apply lookup_insert_Some in Hr' as [[<- <-] | [Hj Hr']]; cbn in *.
    + done.
    + by apply (Hs id j record r').
    + by apply (Hs i id r record).
    + by apply (Hs i j r r').
Qed.

Lemma run_allowed op st st' :
  wardInvariant st → allowed st op = true → run op st = Ok st' → wardInvariant st'.
Proof.
  intros Hinv Hop.
  destruct op as [newId body | id body | id | id bodyNotes | now newId req
                 | now id summary | now id user newBedId]; cbn [run].
  - by apply createBed_allowed.
  - by apply updateBed_allowed.
  - by apply WardTheory.deleteBed_invariant.
  - by apply WardTheory.markMaintenance_invariant.
  - by apply WardTheory.admitPatient_invariant.
  - by apply WardTheory.dischargePatient_invariant.
  - by apply transferPatient_allowed.
Qed.

(** Nothing more can be allowed: on a store where beds and stays are
    coupled and no patient has two ADMITTED stays, a request that completes
    and leaves them coupled is one of the requests allowed. *)
Lemma allowed_is_forced op st st' :
  wardInvariant st → run op st = Ok st' → coupled st' → allowed st op = true.
Proof.
  intros (Ho & Hc & Hs) Hrun [Ho' Hc'].
  destruct op as [newId body | id body | id | id bodyNotes | now newId req
                 | now id summary | now id user newBedId]; cbn in *; try done.
  - unfold createBed in Hrun.
    destruct (bb_bedNumber body), (bb_ward body), (bb_wardType body),
      (bb_floor body), (bb_dailyRate body); try discriminate.
    destruct (negb _); [discriminate |].
    destruct (bool_decide (is_Some _) || _); [discriminate |].
    injection Hrun as <-. apply bool_decide_eq_true.
    specialize (Ho' newId). cbn in Ho'. rewrite lookup_insert_eq in Ho'.
    by apply (Ho' _ eq_refl).
  - unfold updateBed in Hrun.
    destruct (beds st !! id) as [bed |] eqn:Hbed; [| done].
    destruct (negb _); [discriminate |].
    destruct (match bb_bedNumber body with Some _ => _ | None => _ end);
      [discriminate |].
    injection Hrun as <-. apply andb_true_iff. split; apply bool_decide_eq_true.
    + specialize (Ho' id). cbn in Ho'. rewrite lookup_insert_eq in Ho'.
      by apply (Ho' _ eq_refl).
    + intros rid r Hr Ha Hbed'.
      destruct (Hc' rid r Hr Ha) as (b & Hb & Hrest). cbn in Hb.
      rewrite Hbed', lookup_insert_eq in Hb. by injection Hb as <-.
  - unfold transferPatient in Hrun.
    destruct (records st !! id) as [record |] eqn:Hrec; [| done].
    destruct (beds st !! newBedId) as [newBed |] eqn:Hnew; [| discriminate].
    destruct (bool_decide (status newBed = AVAILABLE)) eqn:Hav; cbn [negb] in Hrun;
      [| discriminate].
    apply bool_decide_eq_true in Hav. injection Hrun as <-.
    apply bool_decide_eq_true. intros rid r Hr Ha Hbed.
    destruct (decide (rid = id)) as [| Hne]; [done |]. exfalso.
    assert (bedId r ≠ newBedId) as Hother.
    { apply (WardTheory.admitted_bed_is_occupied st rid r newBedId newBed);
        try done. by rewrite Hav. }
    destruct (Hc' rid r) as (b & Hb & Hsb & _); [| done |].
    { cbn. by rewrite lookup_insert_ne. }
    cbn in Hb. rewrite lookup_alter_ne in Hb by done.
    rewrite <- Hbed in Hb.
    apply lookup_alter_Some in Hb as [[_ (b0 & _ & ->)] | [Hne' _]]; done.
Qed.

(** C5, as amended.  In every state reached from an empty ward by requests
    to the bed and IPD controllers that are served one at a time, each
    answered before the next is taken up, every bed is OCCUPIED if and only
    if its occupant is non-null, and the bed of every ADMITTED stay is
    OCCUPIED with the patient of the stay as occupant, provided that
    createBed and updateBed write a bed that is OCCUPIED exactly when it
    names an occupant, that updateBed leaves the bed of an ADMITTED stay
    OCCUPIED by the patient of the stay, and that transfer does not free a
    bed on which another ADMITTED stay lies.  Requests that are refused are
    part of the run. *)
Theorem beds_and_stays_coupled_when_served_in_turn ops ps :
  allowedInTurn allowed ops (initial ps) = true →
  coupled (afterInTurn ops (initial ps)).
Proof.
  intros Hops.
  destruct (inTurn_keeps allowed wardInvariant) with (ops := ops) (st := initial ps)
    as (Ho & Hc & _).
  - by intros st (Ho & _).
  - intros op st st'. apply run_allowed.
  - apply WardTheory.initial_invariant.
  - done.
  - by split.
Qed.

(** C5, witness: a bed created under maintenance and put in service by an
    update, an admission, a transfer, a discharge, and the closed stay moved
    to the free bed. *)
Lemma beds_and_stays_coupled_witness :
  coupled (afterInTurn wardRound (initial {[1%nat; 2%nat]})).
Proof.
  apply (beds_and_stays_coupled_when_served_in_turn wardRound {[1%nat; 2%nat]}).
  vm_compute. reflexivity.
Defined.

(** *** Requests that overlap *)

(** Two admissions to the AVAILABLE bed B-1, of patients 1 and 2, whose
    round trips overlap: both read the bed as AVAILABLE, both are answered
    with the stay they created, and both stays are ADMITTED on B-1, which
    names patient 2 as its occupant.  Beds and stays are no more coupled,
    and the one OCCUPIED bed is the bed of two ADMITTED stays. *)
Lemma overlapping_admissions_share_a_bed :
  answer <$> afterOverlap.2 = [Some Success; Some Success]
  ∧ (∃ r1 r2 b,
       records afterOverlap.1 !! 50%nat = Some r1
       ∧ records afterOverlap.1 !! 51%nat = Some r2
       ∧ beds afterOverlap.1 !! 10%nat = Some b
       ∧ ipdStatus r1 = ADMITTED ∧ bedId r1 = 10%nat ∧ patientId r1 = 1%nat
       ∧ ipdStatus r2 = ADMITTED ∧ bedId r2 = 10%nat ∧ patientId r2 = 2%nat
       ∧ status b = OCCUPIED ∧ currentPatient b = Some 2%nat)
  ∧ ¬ coupled afterOverlap.1.
Proof.
  assert (∃ r1 r2 b,
            records afterOverlap.1 !! 50%nat = Some r1
            ∧ records afterOverlap.1 !! 51%nat = Some r2
            ∧ beds afterOverlap.1 !! 10%nat = Some b
            ∧ ipdStatus r1 = ADMITTED ∧ bedId r1 = 10%nat ∧ patientId r1 = 1%nat
            ∧ ipdStatus r2 = ADMITTED ∧ bedId r2 = 10%nat ∧ patientId r2 = 2%nat
            ∧ status b = OCCUPIED ∧ currentPatient b = Some 2%nat) as Hstate.
  { eexists _, _, _. split_and!; try (vm_compute; reflexivity). }
  split; [vm_compute; reflexivity |]. split; [exact Hstate |].
  destruct Hstate as (r1 & r2 & b & Hr1 & _ & Hb & Ha1 & Hbed1 & Hp1 & _ & _ & _ & _ & Hp).
  intros [_ Hc]. destruct (Hc _ _ Hr1 Ha1) as (b' & Hb' & _ & Hp').
  rewrite Hbed1, Hb in Hb'. injection Hb' as <-. rewrite Hp, Hp1 in Hp'. done.
Qed.

End WardInFlightTheory.

(** ** Inpatient stays over runs *)

Module ClinicalTheory.
Import Ward Clinical.

(** *** Record ids *)

Lemma generateRecordId_inj j k : generateRecordId j = generateRecordId k → j = k.
Proof.
  unfold generateRecordId. intros H. apply (inj (String.app "IPD")) in H.
  apply (f_equal Scheduling.Number) in H.
  rewrite !TimeTokens.Number_padStart, !TimeTokens.Number_pretty_nat in H.
  injection H. lia.
Qed.

Lemma generateRecordId_nonEmpty k : nonEmpty (generateRecordId k) = true.
Proof.
  unfold nonEmpty, generateRecordId. rewrite TimeTokens.append_cons.
  by rewrite bool_decide_eq_false_2.
Qed.

(** *** What a completed request wrote *)

Lemma bedRequest_keeps_stays op st st' :
  match op with
  | AdmitPatient _ _ _ | DischargePatient _ _ _ | TransferPatient _ _ _ _ => False
  | _ => True
  end →
  run op st = Ok st' → records st' = records st ∧ patients st' = patients st.
Proof.
  destruct op; try done; intros _; cbn.
  - unfold createBed. repeat case_match; by intros [= <-].
  - unfold updateBed. repeat case_match; by intros [= <-].
  - unfold deleteBed. repeat case_match; by intros [= <-].
  - unfold markMaintenance. repeat case_match; by intros [= <-].
Qed.

Lemma admitPatient_shape now newId req st st' :
  admitPatient now newId req st = Ok st' →
  ∃ bed doctor reason,
    ar_patientId req ∈ patients st
    ∧ beds st !! ar_bedId req = Some bed ∧ status bed = AVAILABLE
    ∧ ¬ admittedStayOf (ar_patientId req) (records st)
    ∧ records st !! newId = None
    ∧ st' = {| patients := patients st;
               beds := <[ar_bedId req := assign (ar_patientId req) bed]> (beds st);
               records := <[newId :=
                 {| recordId := Some (generateRecordId (size (records st)));
                    patientId := ar_patientId req; doctorId := doctor;
                    bedId := ar_bedId req; admissionDate := now;
                    dischargeDate := None; admissionReason := reason;
                    diagnosis := ar_diagnosis req; ipdStatus := ADMITTED;
                    treatmentNotes := []; dischargeSummary := None |}]>
                 (records st) |}.
Proof.
  unfold admitPatient.
  destruct (bool_decide (_ ∈ _)) eqn:Hp; cbn [negb]; [| discriminate].
  destruct (beds st !! ar_bedId req) as [bed |] eqn:Hbed; [| discriminate].
  destruct (bool_decide (status bed = AVAILABLE)) eqn:Hav; cbn [negb];
    [| discriminate].
  destruct (bool_decide (admittedStayOf _ _)) eqn:Hadm; [discriminate |].
  destruct (ar_doctorId req) as [doctor |]; [| discriminate].
  destruct (ar_admissionReason req) as [reason |]; [| discriminate].
  destruct (negb (nonEmpty reason)); [discriminate |].
  destruct (bool_decide (is_Some (records st !! newId))) eqn:Hnew; [discriminate |].
  cbn [orb]. destruct (recordIdTaken _ _); [discriminate |].
  intros [= <-]. exists bed, doctor, reason. split_and!; try done.
  - by apply bool_decide_eq_true in Hp.
  - by apply bool_decide_eq_true in Hav.
  - by apply bool_decide_eq_false in Hadm.
  - apply bool_decide_eq_false in Hnew. by apply eq_None_not_Some.
Qed.

Lemma dischargePatient_shape now id summary st st' :
  dischargePatient now id summary st = Ok st' →
  ∃ record,
    records st !! id = Some record ∧ ipdStatus record = ADMITTED
    ∧ st' = {| patients := patients st;
               beds := alter release (bedId record) (beds st);
               records := <[id := ipdPreSave (size (records st))
                                    (discharged now summary record)]> (records st) |}.
Proof.
  unfold dischargePatient.
  destruct (records st !! id) as [record |]; [| discriminate].
  destruct (bool_decide (ipdStatus record = ADMITTED)) eqn:Hadm; cbn [negb];
    [| discriminate].
  intros [= <-]. exists record. split_and!; try done.
  by apply bool_decide_eq_true in Hadm.
Qed.

Lemma transferPatient_shape now id user newBedId st st' :
  transferPatient now id user newBedId st = Ok st' →
  ∃ record newBed,
    records st !! id = Some record
    ∧ beds st !! newBedId = Some newBed ∧ status newBed = AVAILABLE
    ∧ st' = {| patients := patients st;
               beds := alter (assign (patientId record)) newBedId
                         (alter release (bedId record) (beds st));
               records := <[id := ipdPreSave (size (records st))
                                    (transferred now user newBedId record)]>
                            (records st) |}.
Proof.
  unfold transferPatient.
  destruct (records st !! id) as [record |]; [| discriminate].
  destruct (beds st !! newBedId) as [newBed |]; [| discriminate].
  destruct (bool_decide (status newBed = AVAILABLE)) eqn:Hav; cbn [negb];
    [| discriminate].
  intros [= <-]. exists record, newBed. split_and!; try done.
  by apply bool_decide_eq_true in Hav.
Qed.

Lemma addTreatmentNote_shape now id user text st st' :
  addTreatmentNote now id user text st = Ok st' →
  ∃ record,
    records st !! id = Some record
    ∧ st' = {| patients := patients st; beds := beds st;
               records := <[id := ipdPreSave (size (records st))
                                    (noted now user text record)]> (records st) |}.
Proof.
  unfold addTreatmentNote.
  destruct (records st !! id) as [record |]; [| discriminate].
  intros [= <-]. by exists record.
Qed.

(** *** Record ids over runs *)

Lemma rewrite_numbered st id r r' bs :
  recordsNumbered st → recordIdsDistinct st → records st !! id = Some r →
  patientId r' = patientId r → recordId r' = recordId r →
  let st' := {| patients := patients st; beds := bs;
                records := <[id := ipdPreSave (size (records st)) r']> (records st) |} in
  recordsNumbered st' ∧ recordIdsDistinct st'.
Proof.
  intros Hn Hd Hr Hp Hi. cbn zeta.
  destruct (Hn _ _ Hr) as (Hin & k & Hk & Hid).
  assert (recordId (ipdPreSave (size (records st)) r') = recordId r) as Hkept.
  { cbn. by rewrite Hi, Hid, generateRecordId_nonEmpty. }
  split.
  - intros j x Hx. cbn [records patients] in *.
    rewrite map_size_insert_Some by eauto.
    apply lookup_insert_Some in Hx as [[<- <-] | [Hne Hx]]; [| by apply (Hn j)].
    split; [cbn; by rewrite Hp |]. exists k. split; [done |]. by rewrite Hkept.
  - intros i j x x' Hx Hx' Heq. cbn [records] in *.
    apply lookup_insert_Some in Hx as [[<- <-] | [Hi' Hx]];
      apply lookup_insert_Some in Hx' as [[<- <-] | [Hj' Hx']].
    + done.
    + rewrite Hkept in Heq. by apply (Hd id j r x').
    + rewrite Hkept in Heq. by apply (Hd i id x r).
    + by apply (Hd i j x x').
Qed.

Lemma serve_numbered rq st st' :
  recordsNumbered st ∧ recordIdsDistinct st → serve rq st = Ok st' →
  recordsNumbered st' ∧ recordIdsDistinct st'.
Proof.
  intros [Hn Hd]. destruct rq as [op | now id user text]; cbn.
  - destruct op as [newId body | id body | id | id bodyNotes | now newId req
                   | now id summary | now id user newBedId].
    1-4: intros Hrun; apply bedRequest_keeps_stays in Hrun as [Hr Hp]; [| done];
         unfold recordsNumbered, recordIdsDistinct; by rewrite Hr, Hp.
    + intros Hrun. cbn in Hrun.
      apply admitPatient_shape in Hrun
        as (bed & doctor & reason & Hp & _ & _ & _ & Hnew & ->).
      split.
      * intros j x Hx. cbn [records patients] in *.
        rewrite map_size_insert_None by done.
        apply lookup_insert_Some in Hx as [[<- <-] | [Hne Hx]]; cbn.
        -- split; [done |]. exists (size (records st)). split; [lia | done].
        -- destruct (Hn _ _ Hx) as (Hin & k & Hk & Hid). split; [done |].
           exists k. split; [lia | done].
      * assert (∀ j x, records st !! j = Some x →
                  recordId x ≠ Some (generateRecordId (size (records st)))) as Hfree.
        { intros j x Hx Heq. destruct (Hn _ _ Hx) as (_ & k & Hk & Hid).
          rewrite Hid in Heq.
          assert (k = size (records st)) by (apply generateRecordId_inj; congruence).
          lia. }
        intros i j x x' Hx Hx' Heq. cbn [records] in *.
        apply lookup_insert_Some in Hx as [[<- <-] | [Hi' Hx]];
          apply lookup_insert_Some in Hx' as [[<- <-] | [Hj' Hx']]; cbn in Heq.
        -- done.
        -- by destruct (Hfree _ _ Hx').
        -- by destruct (Hfree _ _ Hx).
        -- by apply (Hd i j x x').
    + intros Hrun. cbn in Hrun.
      apply dischargePatient_shape in Hrun as (record & Hrec & _ & ->).
      by apply (rewrite_numbered st id record).
    + intros Hrun. cbn in Hrun.
      apply transferPatient_shape in Hrun as (record & newBed & Hrec & _ & _ & ->).
      by apply (rewrite_numbered st id record).
  - intros Hrun.
    apply addTreatmentNote_shape in Hrun as (record & Hrec & ->).
    by apply (rewrite_numbered st id record).
Qed.

Lemma serveAll_numbered rs st st' :
  recordsNumbered st ∧ recordIdsDistinct st → serveAll rs st = Ok st' →
  recordsNumbered st' ∧ recordIdsDistinct st'.
Proof.
  revert st. induction rs as [| rq rs IH]; intros st Hst; cbn.
  - by intros [= <-].
  - destruct (serve rq st) as [st1 |] eqn:Hrun; [| discriminate].
    apply IH. by apply (serve_numbered rq st).
Qed.

Lemma initial_numbered ps : recordsNumbered (initial ps) ∧ recordIdsDistinct (initial ps).
Proof. split; [intros id r Hr | intros i j r r' Hr]; cbn in Hr; by rewrite lookup_empty in Hr. Qed.

Lemma runAll_serveAll ops st : runAll ops st = serveAll (Handler <$> ops) st.
Proof.
  revert st. induction ops as [| op ops IH]; intros st; cbn; [done |].
  by destruct (run op st).
Qed.

Lemma recordId_free st :
  recordsNumbered st →
  recordIdTaken (Some (generateRecordId (size (records st)))) (records st) = false.
Proof.
  intros Hn. apply bool_decide_eq_false. intros (j & x & Hx & Hid).
  destruct (Hn _ _ Hx) as (_ & k & Hk & Hid'). rewrite Hid' in Hid.
  assert (k = size (records st)) by (apply generateRecordId_inj; congruence).
  lia.
Qed.

Lemma admitPatient_accepts now newId req st bed doctor reason :
  recordsNumbered st →
  ar_patientId req ∈ patients st →
  beds st !! ar_bedId req = Some bed → status bed = AVAILABLE →
  ¬ admittedStayOf (ar_patientId req) (records st) →
  ar_doctorId req = Some doctor → ar_admissionReason req = Some reason →
  nonEmpty reason = true →
  records st !! newId = None →
  isOk (admitPatient now newId req st) = true.
Proof.
  intros Hn Hp Hbed Hav Hadm Hdoc Hreason Hne Hnew. unfold admitPatient.
  rewrite bool_decide_eq_true_2 by done. cbn [negb]. rewrite Hbed.
  rewrite (bool_decide_eq_true_2 (status bed = AVAILABLE)) by done. cbn [negb].
  rewrite (bool_decide_eq_false_2 (admittedStayOf _ _)) by done.
  rewrite Hdoc, Hreason, Hne. cbn [negb].
  rewrite (bool_decide_eq_false_2 (is_Some _)) by (rewrite Hnew; by intros [? ?]).
  cbn [orb ipdPreSave recordId]. by rewrite recordId_free.
Qed.



(** *** What every request keeps of a stay *)

Lemma laterVersion_refl r : laterVersion r r.
Proof. by unfold laterVersion. Qed.

Lemma laterVersion_trans r1 r2 r3 :
  laterVersion r1 r2 → laterVersion r2 r3 → laterVersion r1 r3.
Proof.
  intros (Hp & Hd & Ha & Hr & Hn & Hf) (Hp' & Hd' & Ha' & Hr' & Hn' & Hf').
  unfold laterVersion. split_and!; try congruence.
  - by trans (treatmentNotes r2).
  - intros H. destruct (Hf H) as (H1 & H2 & H3).
    destruct (Hf' H1) as (H1' & H2' & H3'). split_and!; congruence.
Qed.

Lemma serve_laterVersion rq st st' id r :
  records st !! id = Some r → serve rq st = Ok st' →
  ∃ r', records st' !! id = Some r' ∧ laterVersion r r'.
Proof.
  intros Hr. destruct rq as [op | now id0 user text]; cbn.
  - destruct op as [newId body | id0 body | id0 | id0 bodyNotes | now newId req
                   | now id0 summary | now id0 user newBedId].
    1-4: intros Hrun; apply bedRequest_keeps_stays in Hrun as [Hrec _]; [| done];
         exists r; rewrite Hrec; split; [done | apply laterVersion_refl].
    + intros Hrun. cbn in Hrun.
      apply admitPatient_shape in Hrun
        as (bed & doctor & reason & _ & _ & _ & _ & Hnew & ->).
      exists r. split; [| apply laterVersion_refl]. cbn.
      rewrite lookup_insert_ne; [done | congruence].
    + intros Hrun. cbn in Hrun.
      apply dischargePatient_shape in Hrun as (record & Hrec & Hadm & ->). cbn.
      destruct (decide (id = id0)) as [-> |].
      * rewrite lookup_insert_eq. eexists. split; [done |].
        assert (record = r) as -> by congruence.
        unfold laterVersion. cbn. split_and!; try done. intros H. congruence.
      * rewrite lookup_insert_ne by done. exists r. split; [done | apply laterVersion_refl].
    + intros Hrun. cbn in Hrun.
      apply transferPatient_shape in Hrun as (record & newBed & Hrec & _ & _ & ->). cbn.
      destruct (decide (id = id0)) as [-> |].
      * rewrite lookup_insert_eq. eexists. split; [done |].
        assert (record = r) as -> by congruence.
        unfold laterVersion. cbn. split_and!; try done. by apply prefix_app_r.
      * rewrite lookup_insert_ne by done. exists r. split; [done | apply laterVersion_refl].
  - intros Hrun.
    apply addTreatmentNote_shape in Hrun as (record & Hrec & ->). cbn.
    destruct (decide (id = id0)) as [-> |].
    + rewrite lookup_insert_eq. eexists. split; [done |].
      assert (record = r) as -> by congruence.
      unfold laterVersion. cbn. split_and!; try done. by apply prefix_app_r.
    + rewrite lookup_insert_ne by done. exists r. split; [done | apply laterVersion_refl].
Qed.

Lemma serveAll_laterVersion rs st st' id r :
  records st !! id = Some r → serveAll rs st = Ok st' →
  ∃ r', records st' !! id = Some r' ∧ laterVersion r r'.
Proof.
  revert st r. induction rs as [| rq rs IH]; intros st r Hr; cbn.
  - intros [= <-]. exists r. split; [done | apply laterVersion_refl].
  - destruct (serve rq st) as [st1 |] eqn:Hrun; [| discriminate]. intros Hrest.
    destruct (serve_laterVersion rq st st1 id r Hr Hrun) as (r1 & Hr1 & Hl1).
    destruct (IH st1 r1 Hr1 Hrest) as (r' & Hr' & Hl'). exists r'.
    split; [done |]. by apply (laterVersion_trans r r1 r').
Qed.

(** X13.  Stays are kept and their notes only grow.  Whatever requests to
    the two controllers complete after a stay is stored, the stay is still
    stored under its id, for the same patient and doctor with the same
    admission date and reason, and every treatment note it had is still at
    its position in the list. *)
Theorem stay_is_kept_and_notes_only_grow rs st st' id r :
  records st !! id = Some r → serveAll rs st = Ok st' →
  ∃ r', records st' !! id = Some r'
        ∧ patientId r' = patientId r ∧ doctorId r' = doctorId r
        ∧ admissionDate r' = admissionDate r
        ∧ admissionReason r' = admissionReason r
        ∧ ∀ i n, treatmentNotes r !! i = Some n → treatmentNotes r' !! i = Some n.
Proof.
  intros Hr Hrun.
  destruct (serveAll_laterVersion rs st st' id r Hr Hrun)
    as (r' & Hr' & Hp & Hd & Ha & Hre & Hn & _).
  exists r'. split_and!; try done.
  intros i n Hi. by apply (prefix_lookup_Some (treatmentNotes r)).
Qed.

Lemma stay_is_kept_witness :
  records (stateAfter moved) !! 50%nat = Some (recordAfter moved 50)
  ∧ ∃ r', records (stateServed ((Handler <$> moved) ++
                                [AddTreatmentNote 1600 50 98 "Settled";
                                 Handler (DischargePatient 2000 50 None)])) !! 50%nat
          = Some r'
        ∧ patientId r' = patientId (recordAfter moved 50)
        ∧ doctorId r' = doctorId (recordAfter moved 50)
        ∧ admissionDate r' = admissionDate (recordAfter moved 50)
        ∧ admissionReason r' = admissionReason (recordAfter moved 50)
        ∧ ∀ i n, treatmentNotes (recordAfter moved 50) !! i = Some n →
                 treatmentNotes r' !! i = Some n.
Proof.
  split; [vm_compute; reflexivity |].
  apply (stay_is_kept_and_notes_only_grow
           [AddTreatmentNote 1600 50 98 "Settled";
            Handler (DischargePatient 2000 50 None)] (stateAfter moved)).
  - vm_compute. reflexivity.
  - vm_compute. reflexivity.
Defined.




(** *** Occupied beds and their stays *)

Lemma keepsOccupancy_status body :
  keepsOccupancy body = true → bb_status body = None.
Proof.
  unfold keepsOccupancy. intros H. apply andb_true_iff in H as [H _].
  by apply bool_decide_eq_true in H.
Qed.

Lemma run_occupiedHasStay op st st' :
  occupiedHasStay st → guarded st op = true → run op st = Ok st' →
  occupiedHasStay st'.
Proof.
  intros Hocc Hop.
  destruct op as [newId body | id body | id | id bodyNotes | now newId req
                 | now id summary | now id user newBedId]; cbn in Hop |- *.
  - apply keepsOccupancy_status in Hop. unfold createBed.
    repeat case_match; try discriminate. intros [= <-] i b Hb Hs. cbn in Hb.
    apply lookup_insert_Some in Hb as [[<- <-] | [Hne Hb]]; [| by apply (Hocc i b)].
    cbn in Hs. by rewrite Hop in Hs.
  - apply keepsOccupancy_status in Hop. unfold updateBed.
    destruct (beds st !! id) as [bed |] eqn:Hbed; [| discriminate].
    destruct (negb (validBedBody body)); [discriminate |].
    destruct (match bb_bedNumber body with Some _ => _ | None => _ end);
      [discriminate |].
    intros [= <-] i b Hb Hs. cbn in Hb.
    apply lookup_insert_Some in Hb as [[<- <-] | [Hne Hb]]; [| by apply (Hocc i b)].
    cbn in Hs. rewrite Hop in Hs. by apply (Hocc id bed).
  - unfold deleteBed. destruct (beds st !! id) as [bed |] eqn:Hbed; [| discriminate].
    destruct (bool_decide (status bed = OCCUPIED)); [discriminate |].
    intros [= <-] i b Hb Hs. cbn in Hb.
    apply lookup_delete_Some in Hb as [_ Hb]. by apply (Hocc i b).
  - unfold markMaintenance. destruct (beds st !! id) as [bed |] eqn:Hbed; [| discriminate].
    destruct (bool_decide (status bed = OCCUPIED)); [discriminate |].
    intros [= <-] i b Hb Hs. cbn in Hb.
    apply lookup_insert_Some in Hb as [[<- <-] | [Hne Hb]]; [done |].
    by apply (Hocc i b).
  - intros Hrun.
    apply admitPatient_shape in Hrun
      as (bed & doctor & reason & _ & _ & _ & _ & Hnew & ->).
    intros i b Hb Hs. cbn in Hb.
    apply lookup_insert_Some in Hb as [[<- <-] | [Hne Hb]].
    + eexists newId, _. cbn. by rewrite lookup_insert_eq.
    + destruct (Hocc i b Hb Hs) as (rid & r & Hr & Ha & Hbed).
      exists rid, r. cbn. rewrite lookup_insert_ne; [done | congruence].
  - intros Hrun.
    apply dischargePatient_shape in Hrun as (record & Hrec & _ & ->).
    intros i b Hb Hs. cbn in Hb.
    apply lookup_alter_Some in Hb as [[<- (b0 & Hb0 & ->)] | [Hne Hb]]; [done |].
    destruct (Hocc i b Hb Hs) as (rid & r & Hr & Ha & Hbed).
    exists rid, r. cbn. rewrite lookup_insert_ne; [done | congruence].
  - intros Hrun.
    apply transferPatient_shape in Hrun as (record & newBed & Hrec & _ & _ & ->).
    rewrite Hrec in Hop. apply bool_decide_eq_true in Hop.
    intros i b Hb Hs. cbn in Hb.
    apply lookup_alter_Some in Hb as [[<- (b0 & Hb0 & ->)] | [Hne Hb]].
    + eexists id, _. cbn. by rewrite lookup_insert_eq.
    + apply lookup_alter_Some in Hb as [[<- (b0 & Hb0 & ->)] | [Hne' Hb]]; [done |].
      destruct (Hocc i b Hb Hs) as (rid & r & Hr & Ha & Hbed).
      exists rid, r. cbn. rewrite lookup_insert_ne; [done | congruence].
Qed.

(** Requests served one at a time under the stricter guard keep both. *)
Lemma inTurn_guarded ops ps :
  WardInFlight.allowedInTurn guarded ops (initial ps) = true →
  wardInvariant (WardInFlight.afterInTurn ops (initial ps))
  ∧ occupiedHasStay (WardInFlight.afterInTurn ops (initial ps)).
Proof.
  intros Hops.
  apply (WardInFlightTheory.inTurn_keeps guarded
           (λ st, wardInvariant st ∧ occupiedHasStay st)); [| | | done].
  - by intros st [(Ho & _) _].
  - intros op st st' [Hinv Hocc] Hop Hrun. split.
    + by apply (WardTheory.run_invariant op st).
    + by apply (run_occupiedHasStay op st).
  - split; [apply WardTheory.initial_invariant |].
    intros i x Hx. cbn in Hx. by rewrite lookup_empty in Hx.
Qed.

(** X15.  Every OCCUPIED bed has its one stay.  In every state reached from
    an empty ward by requests that are served one at a time, each answered
    before the next is taken up, among createBed and updateBed with a body
    that sets neither [status] nor [currentPatient], deleteBed,
    markMaintenance, admission, discharge, and transfer of a stay that is
    ADMITTED, an OCCUPIED bed is the bed of exactly one ADMITTED stay, and
    its occupant is the patient of that stay.  Two admissions whose round
    trips overlap leave two ADMITTED stays on one bed. *)
Theorem occupied_bed_has_one_admitted_stay ops ps id b :
  WardInFlight.allowedInTurn guarded ops (initial ps) = true →
  beds (WardInFlight.afterInTurn ops (initial ps)) !! id = Some b →
  status b = OCCUPIED →
  ∃ rid r,
    records (WardInFlight.afterInTurn ops (initial ps)) !! rid = Some r
    ∧ ipdStatus r = ADMITTED ∧ bedId r = id
    ∧ currentPatient b = Some (patientId r)
    ∧ ∀ rid' r',
        records (WardInFlight.afterInTurn ops (initial ps)) !! rid' = Some r' →
        ipdStatus r' = ADMITTED → bedId r' = id → rid' = rid.
Proof.
  intros Hops Hb Hs.
  destruct (inTurn_guarded ops ps Hops) as [(_ & Hc & Hsingle) Hocc].
  destruct (Hocc id b Hb Hs) as (rid & r & Hr & Ha & Hbed).
  exists rid, r. split_and!; try done.
  - destruct (Hc rid r Hr Ha) as (b' & Hb' & _ & Hp). congruence.
  - intros rid' r' Hr' Ha' Hbed'. destruct (decide (rid' = rid)) as [| Hne]; [done |].
    destruct (WardTheory.admitted_beds_differ _ rid' rid r' r Hc Hsingle);
      try done. congruence.
Qed.

Lemma occupied_bed_has_one_admitted_stay_witness :
  ∃ rid r,
    records (WardInFlight.afterInTurn moved (initial {[1%nat; 2%nat]})) !! rid = Some r
    ∧ ipdStatus r = ADMITTED
    ∧ bedId r = 11%nat
    ∧ currentPatient (bedAfter moved 11) = Some (patientId r)
    ∧ ∀ rid' r',
        records (WardInFlight.afterInTurn moved (initial {[1%nat; 2%nat]})) !! rid'
        = Some r' →
        ipdStatus r' = ADMITTED → bedId r' = 11%nat → rid' = rid.
Proof.
  apply (occupied_bed_has_one_admitted_stay moved {[1%nat; 2%nat]}).
  - vm_compute. reflexivity.
  - vm_compute. reflexivity.
  - vm_compute. reflexivity.
Defined.

(** *** Admission after a discharge *)

Lemma runAll_numbered ops ps st :
  runAll ops (initial ps) = Ok st → recordsNumbered st ∧ recordIdsDistinct st.
Proof.
  rewrite runAll_serveAll. by apply serveAll_numbered, initial_numbered.
Qed.

(** X16.  A discharged patient can be admitted again, to the same bed.  In a
    state reached from an empty ward by completed requests, where createBed
    and updateBed set neither [status] nor [currentPatient] and only
    ADMITTED stays are transferred, once the discharge of a stay has
    completed, an admission of the patient of that stay to the bed of that
    stay, with a doctor, a non-empty reason and a fresh document id,
    completes. *)
Theorem discharged_patient_is_admitted_again
    ops ps st st' now id summary r now' newId doctor reason dx :
  guardedAll ops (initial ps) = true →
  runAll ops (initial ps) = Ok st →
  records st !! id = Some r →
  dischargePatient now id summary st = Ok st' →
  records st !! newId = None →
  nonEmpty reason = true →
  isOk (admitPatient now' newId
          {| ar_patientId := patientId r; ar_doctorId := Some doctor;
             ar_bedId := bedId r; ar_admissionReason := Some reason;
             ar_diagnosis := dx |} st') = true.
Proof.
  intros Hops Hrun Hr Hdis Hnew Hne.
  destruct (WardTheory.runAll_invariant ops (initial ps) st
              (WardTheory.initial_invariant ps) Hops Hrun) as (_ & Hc & Hsingle).
  pose proof (runAll_numbered ops ps st Hrun) as Hst.
  destruct (serve_numbered (Handler (DischargePatient now id summary)) st st' Hst Hdis)
    as [Hn' _].
  destruct Hst as [Hn _]. destruct (Hn _ _ Hr) as [Hin _].
  apply dischargePatient_shape in Hdis as (record & Hrec & Hadm & ->).
  assert (record = r) as -> by congruence.
  destruct (Hc id r Hr Hadm) as (b & Hb & _ & _).
  apply (admitPatient_accepts _ _ _ _ (release b) doctor reason); cbn; try done.
  - by rewrite lookup_alter_eq, Hb.
  - intros (j & x & Hx & Hp & Ha).
    apply lookup_insert_Some in Hx as [[<- <-] | [Hj Hx]]; [done |].
    apply Hj. symmetry. by apply (Hsingle j id x r).
  - rewrite lookup_insert_ne; [done | congruence].
Qed.

Lemma discharged_patient_is_admitted_again_witness :
  isOk (admitPatient 3000 51
          {| ar_patientId := patientId (recordAfter stayOpened 50);
             ar_doctorId := Some 3%nat;
             ar_bedId := bedId (recordAfter stayOpened 50);
             ar_admissionReason := Some "Relapse";
             ar_diagnosis := None |} (stateAfter stayClosed)) = true.
Proof.
  apply (discharged_patient_is_admitted_again stayOpened {[1%nat; 2%nat]}
           (stateAfter stayOpened) (stateAfter stayClosed) 2000 50%nat None).
  - vm_compute. reflexivity.
  - vm_compute. reflexivity.
  - vm_compute. reflexivity.
  - vm_compute. reflexivity.
  - vm_compute. reflexivity.
  - vm_compute. reflexivity.
Defined.

(** *** Maintenance *)

Lemma run_keeps_maintenance op st st' id b :
  staysCoupled st → guarded st op = true → op ≠ DeleteBed id →
  beds st !! id = Some b → status b = MAINTENANCE → run op st = Ok st' →
  ∃ b', beds st' !! id = Some b' ∧ status b' = MAINTENANCE.
Proof.
  intros Hc Hop Hdel Hb Hs.
  destruct op as [newId body | id0 body | id0 | id0 bodyNotes | now newId req
                 | now id0 summary | now id0 user newBedId]; cbn in Hop |- *.
  - unfold createBed. repeat case_match; try discriminate. intros [= <-]. cbn.
    exists b. split; [| done]. rewrite lookup_insert_ne; [done |].
    intros ->. match goal with H : (_ || _) = false |- _ =>
      apply orb_false_iff in H as [H _]; apply bool_decide_eq_false in H;
      apply H end. by rewrite Hb.
  - apply keepsOccupancy_status in Hop. unfold updateBed.
    destruct (beds st !! id0) as [bed |] eqn:Hbed; [| discriminate].
    destruct (negb (validBedBody body)); [discriminate |].
    destruct (match bb_bedNumber body with Some _ => _ | None => _ end);
      [discriminate |].
    intros [= <-]. cbn.
    destruct (decide (id = id0)) as [-> |].
    + rewrite lookup_insert_eq. eexists. split; [done |]. cbn. rewrite Hop. cbn.
      congruence.
    + exists b. by rewrite lookup_insert_ne.
  - unfold deleteBed. destruct (beds st !! id0) as [bed |] eqn:Hbed; [| discriminate].
    destruct (bool_decide (status bed = OCCUPIED)); [discriminate |]. intros [= <-]. cbn.
    exists b. split; [| done]. rewrite lookup_delete_ne; [done | congruence].
  - unfold markMaintenance. destruct (beds st !! id0) as [bed |] eqn:Hbed; [| discriminate].
    destruct (bool_decide (status bed = OCCUPIED)); [discriminate |]. intros [= <-]. cbn.
    destruct (decide (id = id0)) as [-> |].
    + rewrite lookup_insert_eq. by eexists.
    + exists b. by rewrite lookup_insert_ne.
  - intros Hrun.
    apply admitPatient_shape in Hrun
      as (bed & doctor & reason & _ & Hbed & Hav & _ & _ & ->). cbn.
    exists b. split; [| done]. rewrite lookup_insert_ne; [done |]. congruence.
  - intros Hrun.
    apply dischargePatient_shape in Hrun as (record & Hrec & Hadm & ->). cbn.
    exists b. split; [| done]. rewrite lookup_alter_ne; [done |].
    apply (WardTheory.admitted_bed_is_occupied st id0 record id b); try done.
    by rewrite Hs.
  - intros Hrun.
    apply transferPatient_shape in Hrun
      as (record & newBed & Hrec & Hnew & Hav & ->). cbn.
    rewrite Hrec in Hop. apply bool_decide_eq_true in Hop.
    exists b. split; [| done]. rewrite !lookup_alter_ne; [done | | congruence].
    apply (WardTheory.admitted_bed_is_occupied st id0 record id b); try done.
    by rewrite Hs.
Qed.

Lemma guardedAll_app ops1 ops2 st st1 :
  guardedAll (ops1 ++ ops2) st = true → runAll ops1 st = Ok st1 →
  guardedAll ops1 st = true ∧ guardedAll ops2 st1 = true.
Proof.
  revert st. induction ops1 as [| op ops IH]; intros st; cbn.
  - by intros H [= <-].
  - intros H. apply andb_true_iff in H as [Hop H].
    destruct (run op st) as [s |]; [| discriminate]. intros Hrun.
    destruct (IH s H Hrun) as [H1 H2]. by rewrite Hop, H1.
Qed.

Lemma runAll_keeps_maintenance ops st st' id b :
  wardInvariant st → guardedAll ops st = true → DeleteBed id ∉ ops →
  beds st !! id = Some b → status b = MAINTENANCE → runAll ops st = Ok st' →
  ∃ b', beds st' !! id = Some b' ∧ status b' = MAINTENANCE.
Proof.
  revert st b. induction ops as [| op ops IH]; intros st b Hinv Hops Hdel Hb Hs; cbn.
  - intros [= <-]. by exists b.
  - cbn in Hops. apply andb_true_iff in Hops as [Hop Hops].
    destruct (run op st) as [st1 |] eqn:Hrun; [| discriminate].
    apply not_elem_of_cons in Hdel as [Hne Hdel].
    destruct (run_keeps_maintenance op st st1 id b) as (b1 & Hb1 & Hs1); try done.
    { by destruct Hinv as (_ & Hc & _). }
    apply (IH st1 b1); try done. by apply (WardTheory.run_invariant op st).
Qed.

(** X17.  Maintenance is not ended by the workflow.  Along a run from an
    empty ward of completed requests, where createBed and updateBed set
    neither [status] nor [currentPatient] and only ADMITTED stays are
    transferred, once a bed is in MAINTENANCE it stays in MAINTENANCE through
    every later request of the run, unless one of them deletes that bed. *)
Theorem maintenance_outlasts_the_run before later ps st st' id b :
  guardedAll (before ++ later) (initial ps) = true →
  runAll before (initial ps) = Ok st →
  beds st !! id = Some b → status b = MAINTENANCE →
  DeleteBed id ∉ later →
  runAll later st = Ok st' →
  ∃ b', beds st' !! id = Some b' ∧ status b' = MAINTENANCE.
Proof.
  intros Hops Hrun Hb Hs Hdel Hlater.
  destruct (guardedAll_app before later (initial ps) st Hops Hrun) as [H1 H2].
  apply (runAll_keeps_maintenance later st st' id b); try done.
  by apply (WardTheory.runAll_invariant before (initial ps) st
              (WardTheory.initial_invariant ps)).
Qed.

Lemma maintenance_outlasts_the_run_witness :
  ∃ b', beds (stateAfter (underMaintenance
                          ++ [CreateBed 11 (bedBody "B-2" None);
                              AdmitPatient 1000 50 (admission 1 11);
                              DischargePatient 2000 50 None])) !! 10%nat = Some b'
        ∧ status b' = MAINTENANCE.
Proof.
  apply (maintenance_outlasts_the_run underMaintenance
           [CreateBed 11 (bedBody "B-2" None);
            AdmitPatient 1000 50 (admission 1 11);
            DischargePatient 2000 50 None]
           {[1%nat; 2%nat]} (stateAfter underMaintenance)
           _ 10%nat (bedAfter underMaintenance 10)).
  - vm_compute. reflexivity.
  - vm_compute. reflexivity.
  - vm_compute. reflexivity.
  - vm_compute. reflexivity.
  - intros H. repeat (apply elem_of_cons in H as [H | H]; [discriminate |]).
    by apply elem_of_nil in H.
  - vm_compute. reflexivity.
Defined.

End ClinicalTheory.

(** ** Cancelling and rescheduling *)

Module CalendarTheory.
Import Scheduling Calendar.
Local Open Scope Z_scope.

(** *** What a completed request wrote *)

Lemma cancelAppointment_shape id user reason st st' :
  cancelAppointment id user reason st = Cancelled st' →
  ∃ a, appointments st !! id = Some a ∧ status a ≠ COMPLETED
       ∧ st' = {| patients := patients st; doctors := doctors st;
                  appointments :=
                    <[id := withStatus CANCELLED reason (Some user) a]>
                      (appointments st) |}.
Proof.
  unfold cancelAppointment.
  destruct (appointments st !! id) as [a |]; [| discriminate].
  case_bool_decide as Hs; [discriminate |]. intros [= <-]. by exists a.
Qed.

Lemma completeAppointment_shape id st st' :
  completeAppointment id st = Ok st' →
  ∃ a, appointments st !! id = Some a
       ∧ st' = {| patients := patients st; doctors := doctors st;
                  appointments :=
                    <[id := withStatus COMPLETED (cancelReason a) (cancelledBy a) a]>
                      (appointments st) |}.
Proof.
  unfold completeAppointment.
  destruct (appointments st !! id) as [a |]; [| discriminate].
  intros [= <-]. by exists a.
Qed.

Lemma updateAppointment_shape env id body st st' :
  updateAppointment env id body st = Ok st' →
  ∃ a, appointments st !! id = Some a
       ∧ (reschedules body = true →
          ¬ slotTakenByOther env id (doctorId a) (default (date a) (ub_date body))
              (newTime body a) (appointments st))
       ∧ validUpdate body = true
       ∧ st' = {| patients := patients st; doctors := doctors st;
                  appointments := <[id := applyUpdate body a]> (appointments st) |}.
Proof.
  unfold updateAppointment.
  destruct (appointments st !! id) as [a |]; [| discriminate].
  destruct (reschedules body && _) eqn:Hcheck; [discriminate |].
  destruct (validUpdate body) eqn:Hvalid; cbn [negb]; [| discriminate].
  intros [= <-]. exists a. split_and!; try done.
  intros Hr. rewrite Hr in Hcheck. cbn in Hcheck.
  by apply bool_decide_eq_false in Hcheck.
Qed.

(** A body that neither names a date nor a non-empty time leaves the slot of
    the appointment as it is, when it passes the validators. *)
Lemma applyUpdate_slot body a :
  validUpdate body = true →
  date (applyUpdate body a) = default (date a) (ub_date body)
  ∧ time (applyUpdate body a) = newTime body a
  ∧ (reschedules body = false →
     date (applyUpdate body a) = date a ∧ time (applyUpdate body a) = time a).
Proof.
  unfold validUpdate, reschedules, newTime. cbn.
  destruct (ub_time body) as [t |]; cbn.
  - intros ->. split_and!; try done. intros H.
    apply orb_false_iff in H as [_ H]. discriminate.
  - intros _. split_and!; try done. intros H.
    apply orb_false_iff in H as [H _]. apply bool_decide_eq_false in H.
    destruct (ub_date body); [| done]. by destruct H.
Qed.

(** *** Each handler keeps active slots unique *)

Lemma restatus_unique env id a s reason user st :
  uniqueActive env st → appointments st !! id = Some a → active s = false →
  uniqueActive env
    {| patients := patients st; doctors := doctors st;
       appointments := <[id := withStatus s reason user a]> (appointments st) |}.
Proof.
  intros Hu Ha Hs i j x y Hx Hy Hact Hact' Hdoc Hday Htime. cbn in Hx, Hy.
  apply lookup_insert_Some in Hx as [[<- <-] | [Hi Hx]];
    apply lookup_insert_Some in Hy as [[<- <-] | [Hj Hy]]; cbn in *;
    try congruence.
  by apply (Hu i j x y).
Qed.

Lemma updateAppointment_unique env id body st st' :
  ub_status body = None → ub_doctorId body = None →
  uniqueActive env st → updateAppointment env id body st = Ok st' →
  uniqueActive env st'.
Proof.
  intros Hstatus Hdoctor Hu Hrun.
  apply updateAppointment_shape in Hrun as (a & Ha & Hfree & Hvalid & ->).
  destruct (applyUpdate_slot body a Hvalid) as (Hdate & Htime' & Hsame).
  assert (status (applyUpdate body a) = status a) as Hst
    by (cbn; by rewrite Hstatus).
  assert (doctorId (applyUpdate body a) = doctorId a) as Hdoc'
    by (cbn; by rewrite Hdoctor).
  assert (∀ j y, j ≠ id → appointments st !! j = Some y →
            active (status a) = true → active (status y) = true →
            doctorId a = doctorId y →
            sameDay env (date (applyUpdate body a)) (date y) →
            time (applyUpdate body a) = time y → False) as Hother.
  { intros j y Hj Hy Hact Hact' Hdoc Hday Htime.
    destruct (reschedules body) eqn:Hr.
    - apply (Hfree eq_refl). exists j, y. split; [done |]. split; [done |].
      split; [| congruence]. apply SchedulingTheory.bookedOn_iff.
      split_and!; [done | | done]. apply SchedulingTheory.sameDay_sym. congruence.
    - destruct (Hsame eq_refl) as [Hd Ht]. apply Hj. symmetry.
      apply (Hu id j a y); try done; congruence. }
  intros i j x y Hx Hy Hact Hact' Hdoc Hday Htime. cbn in Hx, Hy.
  apply lookup_insert_Some in Hx as [[<- <-] | [Hi Hx]];
    apply lookup_insert_Some in Hy as [[<- <-] | [Hj Hy]].
  - done.
  - destruct (Hother j y); try done; congruence.
  - destruct (Hother i x); try done; congruence.
  - by apply (Hu i j x y).
Qed.

Lemma serve_unique env rq st st' :
  keepsSlotOwner rq = true → uniqueActive env st → serve env rq st = Some st' →
  uniqueActive env st'.
Proof.
  intros Hrq Hu. destruct rq as [newId req | id body | id user reason | id]; cbn.
  - destruct (createAppointment env newId req st) as [s |] eqn:Hrun; [| discriminate].
    intros [= <-]. by apply (SchedulingTheory.createAppointment_unique env newId req st).
  - destruct (updateAppointment env id body st) as [s |] eqn:Hrun; [| discriminate].
    intros [= <-]. cbn in Hrq. apply andb_true_iff in Hrq as [H1 H2].
    apply bool_decide_eq_true in H1, H2.
    by apply (updateAppointment_unique env id body st).
  - destruct (cancelAppointment id user reason st) as [s | |] eqn:Hrun;
      try discriminate.
    intros [= <-]. apply cancelAppointment_shape in Hrun as (a & Ha & _ & ->).
    by apply restatus_unique.
  - destruct (completeAppointment id st) as [s |] eqn:Hrun; [| discriminate].
    intros [= <-]. apply completeAppointment_shape in Hrun as (a & Ha & ->).
    by apply restatus_unique.
Qed.

Lemma serveAll_unique env rqs st st' :
  forallb keepsSlotOwner rqs = true → uniqueActive env st →
  serveAll env rqs st = Some st' → uniqueActive env st'.
Proof.
  revert st. induction rqs as [| rq rqs IH]; intros st Hrqs Hu; cbn.
  - by intros [= <-].
  - cbn in Hrqs. apply andb_true_iff in Hrqs as [Hrq Hrqs].
    destruct (serve env rq st) as [st1 |] eqn:Hrun; [| discriminate].
    apply IH; [done |]. by apply (serve_unique env rq st).
Qed.

Lemma empty_unique env st : appointments st = ∅ → uniqueActive env st.
Proof. intros He i j a b Ha. rewrite He in Ha. by rewrite lookup_empty in Ha. Qed.

(** X18.  No double booking by the four handlers.  Starting with no
    appointment, after requests served one at a time among createAppointment,
    cancelAppointment, completeAppointment and updateAppointment with a body
    that names no other paths than [patientId], [date] as a date string,
    [time] as a string, [type], [symptoms], [notes], [fee], [isPaid] and
    [cancelReason], no two SCHEDULED or CONFIRMED appointments share a
    doctor, a calendar day and a time token.  A body with a [status], a
    [doctorId], an [appointmentId] or a date or time that is not a string,
    and requests whose round trips overlap, are not covered. *)
Theorem active_slots_stay_unique env rqs st st' :
  appointments st = ∅ →
  forallb keepsSlotOwner rqs = true →
  serveAll env rqs st = Some st' →
  uniqueActive env st'.
Proof.
  intros He Hrqs Hrun.
  apply (serveAll_unique env rqs st); [done | | done]. by apply empty_unique.
Qed.

Lemma active_slots_stay_unique_witness : uniqueActive utc (stateServed movedLater).
Proof.
  apply (active_slots_stay_unique utc movedLater clinic).
  - reflexivity.
  - vm_compute. reflexivity.
  - vm_compute. reflexivity.
Defined.

(** X19.  Cancelling frees the slot.  In a state reached from no
    appointment by requests to the four handlers served one at a time, where
    the body of an update names no other paths than [patientId], [date] as a
    date string, [time] as a string, [type], [symptoms], [notes], [fee],
    [isPaid] and [cancelReason], an appointment that is SCHEDULED or
    CONFIRMED is always cancelled by [cancelAppointment], and afterwards no
    appointment holds its doctor, day and time token: a booking of that slot
    is not refused as already booked. *)
Theorem cancelAppointment_frees_the_slot env rqs st0 st id user reason a :
  appointments st0 = ∅ →
  forallb keepsSlotOwner rqs = true →
  serveAll env rqs st0 = Some st →
  appointments st !! id = Some a →
  active (status a) = true →
  ∃ st',
    cancelAppointment id user reason st = Cancelled st'
    ∧ (∀ d, sameDay env d (date a) →
            ¬ slotTaken env (doctorId a) d (time a) (appointments st'))
    ∧ ∀ newId req,
        cr_doctorId req = doctorId a → sameDay env (cr_date req) (date a) →
        cr_time req = time a →
        createAppointment env newId req st' ≠ Err SlotAlreadyBooked.
Proof.
  intros He Hrqs Hrun Ha Hact.
  assert (uniqueActive env st) as Hu
    by (apply (serveAll_unique env rqs st0); [done | by apply empty_unique | done]).
  eexists. split.
  { unfold cancelAppointment. rewrite Ha.
    rewrite bool_decide_eq_false_2; [done |]. intros Hs. by rewrite Hs in Hact. }
  assert (∀ d, sameDay env d (date a) →
            ¬ slotTaken env (doctorId a) d (time a)
                (<[id := withStatus CANCELLED reason (Some user) a]> (appointments st)))
    as Hfree.
  { intros d Hd (j & b & Hb & Hbooked & Htime).
    apply SchedulingTheory.bookedOn_iff in Hbooked as (Hdoc & Hday & Hact').
    apply lookup_insert_Some in Hb as [[<- <-] | [Hj Hb]]; [done |].
    apply Hj. apply (Hu id j a b); try done.
    unfold sameDay in *. congruence. }
  split; [exact Hfree |].
  intros newId req Hdoc Hday Htime. unfold createAppointment.
  destruct (negb (bool_decide (_ ∈ _))); [done |].
  destruct (doctors _ !! cr_doctorId req); [| done]. cbn [appointments].
  rewrite bool_decide_eq_false_2; [repeat case_match; done |].
  rewrite Hdoc, Htime. by apply Hfree.
Qed.

Lemma cancelAppointment_frees_the_slot_witness :
  ∃ st',
    cancelAppointment 101 2 None (stateServed rebooked) = Cancelled st'
    ∧ (∀ d, sameDay utc d (date (appointmentServed rebooked 101)) →
            ¬ slotTaken utc (doctorId (appointmentServed rebooked 101)) d (time (appointmentServed rebooked 101))
                (appointments st'))
    ∧ ∀ newId req,
        cr_doctorId req = doctorId (appointmentServed rebooked 101) →
        sameDay utc (cr_date req) (date (appointmentServed rebooked 101)) →
        cr_time req = time (appointmentServed rebooked 101) →
        createAppointment utc newId req st' ≠ Err SlotAlreadyBooked.
Proof.
  apply (cancelAppointment_frees_the_slot utc rebooked clinic).
  - reflexivity.
  - vm_compute. reflexivity.
  - vm_compute. reflexivity.
  - vm_compute. reflexivity.
  - vm_compute. reflexivity.
Defined.

(** X20.  A status update skips the slot check.  Whenever an appointment
    shares its doctor, day and time token with another appointment that is
    SCHEDULED or CONFIRMED, [updateAppointment] with a body that sets only
    [status], to SCHEDULED or CONFIRMED, completes, and the two appointments
    then hold the same slot. *)
Theorem status_update_skips_the_slot_check env i j st a b s :
  i ≠ j →
  appointments st !! i = Some a →
  appointments st !! j = Some b →
  active (status b) = true → active s = true →
  doctorId a = doctorId b → sameDay env (date a) (date b) → time a = time b →
  ∃ st', updateAppointment env i (statusOnly s) st = Ok st'
         ∧ ¬ uniqueActive env st'.
Proof.
  intros Hij Ha Hb Hact Hs Hdoc Hday Htime. eexists. split.
  { unfold updateAppointment. rewrite Ha. cbn. done. }
  intros Hu. apply Hij.
  apply (Hu i j (applyUpdate (statusOnly s) a) b); cbn; try done.
  - by rewrite lookup_insert_eq.
  - by rewrite lookup_insert_ne.
Qed.

Lemma status_update_skips_the_slot_check_witness :
  ∃ st', updateAppointment utc 100 (statusOnly SCHEDULED) (stateServed rebooked) = Ok st'
         ∧ ¬ uniqueActive utc st'.
Proof.
  apply (status_update_skips_the_slot_check utc 100%nat 101%nat (stateServed rebooked)
           (appointmentServed rebooked 100) (appointmentServed rebooked 101)).
  - lia.
  - vm_compute. reflexivity.
  - vm_compute. reflexivity.
  - vm_compute. reflexivity.
  - reflexivity.
  - vm_compute. reflexivity.
  - vm_compute. reflexivity.
  - vm_compute. reflexivity.
Defined.




(** *** When a booking succeeds *)

Lemma generateAppointmentId_inj j k :
  generateAppointmentId j = generateAppointmentId k → j = k.
Proof.
  unfold generateAppointmentId. intros H. apply (inj (String.app "APT")) in H.
  apply (f_equal Number) in H.
  rewrite !TimeTokens.Number_padStart, !TimeTokens.Number_pretty_nat in H.
  injection H. lia.
Qed.

Lemma rewrite_appointmentsNumbered st id a a' :
  appointmentsNumbered st → appointments st !! id = Some a →
  appointmentId a' = appointmentId a →
  appointmentsNumbered
    {| patients := patients st; doctors := doctors st;
       appointments := <[id := a']> (appointments st) |}.
Proof.
  intros Hn Ha Hid j x Hx. cbn [appointments] in *.
  rewrite map_size_insert_Some by eauto.
  apply lookup_insert_Some in Hx as [[<- <-] | [Hne Hx]]; [| by apply (Hn j)].
  rewrite Hid. by apply (Hn id).
Qed.

Lemma serve_appointmentsNumbered env rq st st' :
  appointmentsNumbered st → serve env rq st = Some st' → appointmentsNumbered st'.
Proof.
  intros Hn. destruct rq as [newId req | id body | id user reason | id]; cbn.
  - destruct (createAppointment env newId req st) as [s |] eqn:Hrun; [| discriminate].
    intros [= <-]. unfold createAppointment in Hrun.
    destruct (negb (bool_decide (_ ∈ _))); [discriminate |].
    destruct (doctors st !! cr_doctorId req) as [doctor |]; [| discriminate].
    destruct (bool_decide (slotTaken _ _ _ _ _)); [discriminate |].
    destruct (negb (nonEmpty _)); [discriminate |].
    destruct (bool_decide (is_Some (appointments st !! newId))) eqn:Hnew;
      [discriminate |].
    apply bool_decide_eq_false in Hnew. cbn [orb] in Hrun.
    destruct (appointmentIdTaken _ _); [discriminate |].
    injection Hrun as <-. intros j x Hx. cbn [appointments] in *.
    rewrite map_size_insert_None by by apply eq_None_not_Some.
    apply lookup_insert_Some in Hx as [[<- <-] | [Hne Hx]]; cbn.
    + exists (size (appointments st)). split; [lia | done].
    + destruct (Hn _ _ Hx) as (k & Hk & Hid). exists k. split; [lia | done].
  - destruct (updateAppointment env id body st) as [s |] eqn:Hrun; [| discriminate].
    intros [= <-]. apply updateAppointment_shape in Hrun as (a & Ha & _ & _ & ->).
    by apply (rewrite_appointmentsNumbered st id a).
  - destruct (cancelAppointment id user reason st) as [s | |] eqn:Hrun;
      try discriminate.
    intros [= <-]. apply cancelAppointment_shape in Hrun as (a & Ha & _ & ->).
    by apply (rewrite_appointmentsNumbered st id a).
  - destruct (completeAppointment id st) as [s |] eqn:Hrun; [| discriminate].
    intros [= <-]. apply completeAppointment_shape in Hrun as (a & Ha & ->).
    by apply (rewrite_appointmentsNumbered st id a).
Qed.

Lemma serveAll_appointmentsNumbered env rqs st st' :
  appointmentsNumbered st → serveAll env rqs st = Some st' →
  appointmentsNumbered st'.
Proof.
  revert st. induction rqs as [| rq rqs IH]; intros st Hn; cbn.
  - by intros [= <-].
  - destruct (serve env rq st) as [st1 |] eqn:Hrun; [| discriminate].
    apply IH. by apply (serve_appointmentsNumbered env rq st).
Qed.

(** X22.  When a booking succeeds.  In every state reached from no
    appointment by requests to the four handlers served one at a time, where
    the body of an update names no other paths than [patientId], [doctorId],
    [date] as a date string, [time] as a string, [type], [status],
    [symptoms], [notes], [fee], [isPaid] and [cancelReason], a
    [createAppointment] under a fresh document id, served alone, succeeds if
    and only if the patient exists, the doctor exists, the time token is not
    empty and no SCHEDULED or CONFIRMED appointment holds the doctor, day and
    time token.  The generated appointment id is then never taken, and
    neither the availability of the doctor nor the slots listed for the day
    are consulted.  An update that names [appointmentId] is not covered. *)
Theorem createAppointment_succeeds_iff env rqs st0 st newId req :
  appointments st0 = ∅ →
  serveAll env rqs st0 = Some st →
  appointments st !! newId = None →
  isOk (createAppointment env newId req st) = true
  ↔ cr_patientId req ∈ patients st
    ∧ is_Some (doctors st !! cr_doctorId req)
    ∧ nonEmpty (cr_time req) = true
    ∧ ¬ slotTaken env (cr_doctorId req) (cr_date req) (cr_time req) (appointments st).
Proof.
  intros He Hrun Hnew.
  assert (appointmentsNumbered st) as Hn.
  { apply (serveAll_appointmentsNumbered env rqs st0); [| done].
    intros j x Hx. rewrite He in Hx. by rewrite lookup_empty in Hx. }
  assert (appointmentIdTaken (Some (generateAppointmentId (size (appointments st))))
            (appointments st) = false) as Hfree.
  { apply bool_decide_eq_false. intros (j & x & Hx & Hid).
    destruct (Hn _ _ Hx) as (k & Hk & Hid'). rewrite Hid' in Hid.
    assert (k = size (appointments st))
      by (apply generateAppointmentId_inj; congruence).
    lia. }
  unfold createAppointment. rewrite Hfree.
  rewrite (bool_decide_eq_false_2 (is_Some _)) by (rewrite Hnew; by intros [? ?]).
  cbn [orb].
  destruct (bool_decide (cr_patientId req ∈ patients st)) eqn:Hp; cbn [negb].
  2: { apply bool_decide_eq_false in Hp. cbn. split; [done | tauto]. }
  apply bool_decide_eq_true in Hp.
  destruct (doctors st !! cr_doctorId req) as [doctor |] eqn:Hd.
  2: { cbn. split; [done |]. intros (_ & [? ?] & _). discriminate. }
  destruct (bool_decide (slotTaken _ _ _ _ _)) eqn:Ht.
  { apply bool_decide_eq_true in Ht. cbn. split; [done | tauto]. }
  apply bool_decide_eq_false in Ht.
  destruct (nonEmpty (cr_time req)) eqn:Hne; cbn.
  - split; [| done]. intros _. by split_and!.
  - split; [done |]. intros (_ & _ & ? & _). discriminate.
Qed.

Lemma createAppointment_succeeds_witness :
  isOk (createAppointment utc 102
          {| cr_patientId := 1; cr_doctorId := 5; cr_date := monday + 6 * dayMs;
             cr_time := "23:45"; cr_type := None; cr_symptoms := None;
             cr_notes := None |} (stateServed rebooked)) = true
  ↔ (1%nat ∈ patients (stateServed rebooked)
     ∧ is_Some (doctors (stateServed rebooked) !! 5%nat)
     ∧ nonEmpty "23:45" = true
     ∧ ¬ slotTaken utc 5 (monday + 6 * dayMs) "23:45"
           (appointments (stateServed rebooked))).
Proof.
  apply (createAppointment_succeeds_iff utc rebooked clinic).
  - reflexivity.
  - vm_compute. reflexivity.
  - vm_compute. reflexivity.
Defined.

End CalendarTheory.

(** ** The counts of the two controllers agree *)

Module CensusTheory.
Import Ward Clinical Census.

(** The beds of the ADMITTED stays, one per stay. *)
Lemma admitted_beds_NoDup st :
  staysCoupled st → singleAdmission st →
  NoDup ((λ kr : nat * IPDRecord, bedId kr.2)
           <$> map_to_list (filter (λ kr, ipdStatus kr.2 = ADMITTED) (records st))).
Proof.
  intros Hc Hs. apply NoDup_fmap_2_strong; [| apply NoDup_map_to_list].
  intros [i r] [j r'] Hi Hj Hbed. cbn in Hbed.
  apply elem_of_map_to_list, map_lookup_filter_Some in Hi as [Hi Ha].
  apply elem_of_map_to_list, map_lookup_filter_Some in Hj as [Hj Ha'].
  cbn in Ha, Ha'.
  destruct (decide (i = j)) as [-> | Hne]; [congruence |].
  by destruct (WardTheory.admitted_beds_differ st i j r r').
Qed.

Lemma occupied_beds_are_admitted_beds st :
  staysCoupled st → occupiedHasStay st →
  dom (filter (λ kb, status kb.2 = OCCUPIED) (beds st))
  = list_to_set ((λ kr : nat * IPDRecord, bedId kr.2)
      <$> map_to_list (filter (λ kr, ipdStatus kr.2 = ADMITTED) (records st))).
Proof.
  intros Hc Hocc. apply set_eq. intros x.
  rewrite elem_of_dom, elem_of_list_to_set, list_elem_of_fmap. split.
  - intros [b Hb]. apply map_lookup_filter_Some in Hb as [Hb Hs]. cbn in Hs.
    destruct (Hocc x b Hb Hs) as (rid & r & Hr & Ha & Hbed).
    exists (rid, r). split; [done |].
    apply elem_of_map_to_list, map_lookup_filter_Some. by split.
  - intros ([rid r] & -> & Hr).
    apply elem_of_map_to_list, map_lookup_filter_Some in Hr as [Hr Ha]. cbn in Ha.
    destruct (Hc rid r Hr Ha) as (b & Hb & Hs & _). exists b.
    apply map_lookup_filter_Some. by split.
Qed.

(** X23.  The two dashboards agree.  In every state reached from an empty
    ward by requests that are served one at a time, each answered before the
    next is taken up, among createBed and updateBed with a body that sets
    neither [status] nor [currentPatient], deleteBed, markMaintenance,
    admission, discharge, and transfer of a stay that is ADMITTED, the
    number of occupied beds that [getBedStats] reports is the number of
    currently admitted patients that [getIPDStats] reports.  After two
    admissions whose round trips overlap the two numbers differ. *)
Theorem occupied_beds_count_admitted_stays ops ps env now :
  WardInFlight.allowedInTurn guarded ops (initial ps) = true →
  bs_occupied (getBedStats (WardInFlight.afterInTurn ops (initial ps)))
  = currentlyAdmitted
      (getIPDStats env now (WardInFlight.afterInTurn ops (initial ps))).
Proof.
  intros Hops.
  destruct (ClinicalTheory.inTurn_guarded ops ps Hops) as [(_ & Hc & Hs) Hocc].
  cbn. unfold bedsWith.
  rewrite <- size_dom, (occupied_beds_are_admitted_beds _ Hc Hocc).
  rewrite size_list_to_set by by apply admitted_beds_NoDup.
  by rewrite length_fmap, length_map_to_list.
Qed.

Lemma occupied_beds_count_witness :
  bs_occupied (getBedStats (WardInFlight.afterInTurn moved (initial {[1%nat; 2%nat]})))
  = currentlyAdmitted
      (getIPDStats Scheduling.utc 1600
         (WardInFlight.afterInTurn moved (initial {[1%nat; 2%nat]}))).
Proof.
  apply (occupied_beds_count_admitted_stays moved {[1%nat; 2%nat]}).
  vm_compute. reflexivity.
Defined.

(** After the two overlapping admissions one bed is counted as occupied and
    two patients as currently admitted. *)
Lemma overlapping_admissions_are_counted_twice :
  bs_occupied (getBedStats WardInFlight.afterOverlap.1) = 1%nat
  ∧ currentlyAdmitted (getIPDStats Scheduling.utc 1600 WardInFlight.afterOverlap.1)
    = 2%nat.
Proof. split; vm_compute; reflexivity. Qed.

End CensusTheory.
